(** * Jira text preprocessing: a shallow embedding of
      [jira_utils/preprocessing.py] and the properties of its converters.

    Text is a sequence of characters; a character is a code point below 256,
    so the classes [\s], [\d] and [\w] are the ones Python's [re] gives to
    [str] patterns on that range.  Regular expressions are kept as syntax
    trees and run by a backtracking matcher with Python's priorities
    (leftmost, greedy or lazy as written, alternatives in order). *)

From Stdlib Require Import Ascii String List Bool Arith ZArith Lia DecimalString.
Import ListNotations.
Open Scope list_scope.

Set Implicit Arguments.
Set Warnings "-register-all".

(** ** Text *)

Definition text := list ascii.

Definition T (s : string) : text := list_ascii_of_string s.

Definition LF : ascii := ascii_of_nat 10.

Definition code (c : ascii) : nat := nat_of_ascii c.

Definition between (lo hi : nat) (c : ascii) : bool :=
  (lo <=? code c) && (code c <=? hi).

Definition one_of (s : string) (c : ascii) : bool :=
  existsb (Ascii.eqb c) (T s).

Definition is_upper : ascii -> bool := between 65 90.
Definition is_lower : ascii -> bool := between 97 122.
Definition is_digit : ascii -> bool := between 48 57.

(** [str.isspace] on code points below 256. *)
Definition is_space (c : ascii) : bool :=
  between 9 13 c || between 28 32 c
  || (code c =? 133) || (code c =? 160).

(** [\w]: [_] or [str.isalnum] on code points below 256. *)
Definition is_word (c : ascii) : bool :=
  is_upper c || is_lower c || is_digit c || (code c =? 95)
  || (code c =? 170) || (code c =? 178) || (code c =? 179)
  || (code c =? 181) || (code c =? 185) || (code c =? 186)
  || between 188 190 c || between 192 214 c || between 216 246 c
  || between 248 255 c.

Definition any_char (_ : ascii) : bool := true.
Definition not_in (p : ascii -> bool) (c : ascii) : bool := negb (p c).
Definition either (p q : ascii -> bool) (c : ascii) : bool := p c || q c.
Definition just (a : ascii) (c : ascii) : bool := Ascii.eqb c a.
(** [.] without DOTALL *)
Definition dot : ascii -> bool := not_in (just LF).

Fixpoint text_eqb (a b : text) : bool :=
  match a, b with
  | [], [] => true
  | x :: a', y :: b' => Ascii.eqb x y && text_eqb a' b'
  | _, _ => false
  end.

Fixpoint starts_with (p s : text) : bool :=
  match p, s with
  | [], _ => true
  | x :: p', y :: s' => Ascii.eqb x y && starts_with p' s'
  | _ :: _, [] => false
  end.

(** [old in s] *)
Fixpoint contains (old s : text) : bool :=
  starts_with old s ||
  match s with
  | [] => false
  | _ :: s' => contains old s'
  end.

(** [s.replace(old, new)]: non-overlapping occurrences, left to right.
    [skip] counts the characters of [s] still covered by the occurrence
    found last. *)
Fixpoint replace_from (old new s : text) (skip : nat) : text :=
  match s with
  | [] => match old, skip with
          | [], 0 => new
          | _, _ => []
          end
  | c :: s' =>
      match skip with
      | S n => replace_from old new s' n
      | 0 =>
          if starts_with old s then
            match old with
            | [] => new ++ c :: replace_from old new s' 0
            | _ :: old' => new ++ replace_from old new s' (length old')
            end
          else c :: replace_from old new s' 0
      end
  end.

Definition replace (old new s : text) : text := replace_from old new s 0.

(** [s.count(old)] *)
Fixpoint count_from (old s : text) (skip : nat) : nat :=
  match s with
  | [] => match old, skip with
          | [], 0 => 1
          | _, _ => 0
          end
  | c :: s' =>
      match skip with
      | S n => count_from old s' n
      | 0 =>
          if starts_with old s then
            match old with
            | [] => S (count_from old s' 0)
            | _ :: old' => S (count_from old s' (length old'))
            end
          else count_from old s' 0
      end
  end.

Definition count (old s : text) : nat := count_from old s 0.

(** [s.split(sep)] for a one-character separator *)
Fixpoint split (sep : ascii) (s : text) : list text :=
  match s with
  | [] => [[]]
  | c :: s' =>
      if Ascii.eqb c sep then [] :: split sep s'
      else match split sep s' with
           | h :: r => (c :: h) :: r
           | [] => [[c]]
           end
  end.

(** [sep.join(parts)] *)
Fixpoint join (sep : text) (parts : list text) : text :=
  match parts with
  | [] => []
  | [p] => p
  | p :: ps => p ++ sep ++ join sep ps
  end.

Fixpoint lstrip (p : ascii -> bool) (s : text) : text :=
  match s with
  | c :: s' => if p c then lstrip p s' else s
  | [] => []
  end.

Definition rstrip (p : ascii -> bool) (s : text) : text :=
  rev (lstrip p (rev s)).

(** [s.strip()] *)
Definition strip (s : text) : text := rstrip is_space (lstrip is_space s).

(** ["x" * n] *)
Fixpoint times (s : text) (n : nat) : text :=
  match n with
  | 0 => []
  | S n' => s ++ times s n'
  end.

(** ** Regular expressions *)

Inductive re : Type :=
| Eps
| Chr (c : ascii)
| Cls (p : ascii -> bool)
| Seq (a b : re)
| Alt (a b : re)
| Star (greedy : bool) (a : re)
| Grp (n : nat) (a : re)
| Bref (n : nat)
| Bol (multiline : bool)
| Eol (multiline : bool)
| NotBehind (p : ascii -> bool).

(** [a+], [a+?], [a?] and a literal string *)
Definition Plus (greedy : bool) (a : re) : re := Seq a (Star greedy a).
Definition Opt (a : re) : re := Alt a Eps.
Fixpoint Lit (s : text) : re :=
  match s with
  | [] => Eps
  | [c] => Chr c
  | c :: s' => Seq (Chr c) (Lit s')
  end.
Fixpoint Seqs (rs : list re) : re :=
  match rs with
  | [] => Eps
  | [r] => r
  | r :: rs' => Seq r (Seqs rs')
  end.

(** The state of a match attempt: the character before the current
    position, the text from the current position on, and the groups
    captured so far (latest first). *)
Record mstate : Type := MState {
  prev : option ascii;
  rest : text;
  caps : list (nat * text)
}.

Fixpoint lookup (n : nat) (l : list (nat * text)) : option text :=
  match l with
  | [] => None
  | (m, v) :: l' => if Nat.eqb n m then Some v else lookup n l'
  end.

Definition advance (c : ascii) (t : text) (s : mstate) : mstate :=
  MState (Some c) t (caps s).

(** the text consumed between two states of one attempt *)
Definition consumed (s0 s1 : mstate) : text :=
  firstn (length (rest s0) - length (rest s1)) (rest s0).

Definition at_bol (multiline : bool) (s : mstate) : bool :=
  match prev s with
  | None => true
  | Some c => multiline && Ascii.eqb c LF
  end.

Definition at_eol (multiline : bool) (s : mstate) : bool :=
  match rest s with
  | [] => true
  | c :: t => Ascii.eqb c LF && (multiline || match t with [] => true | _ => false end)
  end.

Definition cont := mstate -> option mstate.

(** Repetition: every iteration has to consume, so [length (rest s)]
    iterations are the most there can be; [n] starts above that. *)
Fixpoint star_loop (greedy : bool) (body : cont -> cont) (k : cont)
    (n : nat) (s : mstate) : option mstate :=
  match n with
  | 0 => k s
  | S n' =>
      if greedy then
        match body (fun s' =>
                 if length (rest s') <? length (rest s)
                 then star_loop greedy body k n' s' else None) s with
        | Some r => Some r
        | None => k s
        end
      else
        match k s with
        | Some r => Some r
        | None =>
            body (fun s' =>
                if length (rest s') <? length (rest s)
                then star_loop greedy body k n' s' else None) s
        end
  end.

Fixpoint match_bref (g : text) (k : cont) (s : mstate) : option mstate :=
  match g with
  | [] => k s
  | c :: g' =>
      match rest s with
      | x :: t => if Ascii.eqb x c then match_bref g' k (advance x t s) else None
      | [] => None
      end
  end.

Fixpoint rmatch (r : re) (k : cont) (s : mstate) : option mstate :=
  match r with
  | Eps => k s
  | Chr c =>
      match rest s with
      | x :: t => if Ascii.eqb x c then k (advance x t s) else None
      | [] => None
      end
  | Cls p =>
      match rest s with
      | x :: t => if p x then k (advance x t s) else None
      | [] => None
      end
  | Seq a b => rmatch a (rmatch b k) s
  | Alt a b =>
      match rmatch a k s with
      | Some r => Some r
      | None => rmatch b k s
      end
  | Star greedy a => star_loop greedy (rmatch a) k (S (length (rest s))) s
  | Grp n a =>
      rmatch a (fun s' =>
        k (MState (prev s') (rest s') ((n, consumed s s') :: caps s'))) s
  | Bref n =>
      match lookup n (caps s) with
      | Some g => match_bref g k s
      | None => None
      end
  | Bol m => if at_bol m s then k s else None
  | Eol m => if at_eol m s then k s else None
  | NotBehind p =>
      match prev s with
      | Some c => if p c then None else k s
      | None => k s
      end
  end.

(** A match object: the whole match and the groups. *)
Record rmatch_obj : Type := Match {
  m_all : text;
  m_caps : list (nat * text)
}.

(** [match.group(n)]; a group that took no part is [None] *)
Definition group (n : nat) (m : rmatch_obj) : option text :=
  match n with
  | 0 => Some (m_all m)
  | _ => lookup n (m_caps m)
  end.

(** a group in a replacement template: an unmatched group is empty *)
Definition g (n : nat) (m : rmatch_obj) : text :=
  match group n m with
  | Some t => t
  | None => []
  end.

(** One attempt at the position whose previous character is [pv] and
    whose remaining text is [rs]. *)
Definition match_at (r : re) (pv : option ascii) (rs : text) : option rmatch_obj :=
  let s0 := MState pv rs [] in
  match rmatch r Some s0 with
  | Some s1 => Some (Match (consumed s0 s1) (caps s1))
  | None => None
  end.

(** [re.match] *)
Definition re_match (r : re) (s : text) : option rmatch_obj := match_at r None s.

(** [re.search]: the leftmost position with a match *)
Fixpoint search_from (r : re) (pv : option ascii) (rs : text) : option rmatch_obj :=
  match match_at r pv rs with
  | Some m => Some m
  | None =>
      match rs with
      | [] => None
      | c :: rs' => search_from r (Some c) rs'
      end
  end.

Definition re_search (r : re) (s : text) : option rmatch_obj := search_from r None s.

(** [re.finditer]: the non-overlapping matches, left to right. *)
Fixpoint finditer_from (r : re) (pv : option ascii) (rs : text) (skip : nat)
  : list rmatch_obj :=
  match rs with
  | [] =>
      match skip with
      | 0 => match match_at r pv [] with
             | Some m => [m]
             | None => []
             end
      | S _ => []
      end
  | c :: rs' =>
      match skip with
      | S n => finditer_from r (Some c) rs' n
      | 0 =>
          match match_at r pv rs with
          | Some m => m :: finditer_from r (Some c) rs' (pred (length (m_all m)))
          | None => finditer_from r (Some c) rs' 0
          end
      end
  end.

Definition finditer (r : re) (s : text) : list rmatch_obj := finditer_from r None s 0.

(** [re.sub(r, repl, s)] with [repl] a function of the match; a template
    is written as such a function. *)
Fixpoint sub_from (r : re) (repl : rmatch_obj -> text) (pv : option ascii)
    (rs : text) (skip : nat) : text :=
  match rs with
  | [] =>
      match skip with
      | 0 => match match_at r pv [] with
             | Some m => repl m
             | None => []
             end
      | S _ => []
      end
  | c :: rs' =>
      match skip with
      | S n => sub_from r repl (Some c) rs' n
      | 0 =>
          match match_at r pv rs with
          | Some m =>
              repl m ++
              match length (m_all m) with
              | 0 => c :: sub_from r repl (Some c) rs' 0
              | S n => sub_from r repl (Some c) rs' n
              end
          | None => c :: sub_from r repl (Some c) rs' 0
          end
      end
  end.

Definition sub (r : re) (repl : rmatch_obj -> text) (s : text) : text :=
  sub_from r repl None s 0.

(** ** Character classes and small helpers of the rules *)

Definition alnum_ascii : ascii -> bool := either (either is_lower is_upper) is_digit.
Definition non (s : string) : ascii -> bool := not_in (one_of s).
Definition non_lf (s : string) : ascii -> bool := not_in (either (just LF) (one_of s)).
Definition non_lf_space (s : string) : ascii -> bool :=
  not_in (either (either (just LF) is_space) (one_of s)).
(** [[\s\S]] *)
Definition space_or_not : ascii -> bool := either is_space (not_in is_space).

Definition L (s : string) : re := Lit (T s).

(** [str(n)] for a length *)
Definition str_of_nat (n : nat) : text :=
  T (DecimalString.NilZero.string_of_uint (Nat.to_uint n)).

(** [int(d)] for a text that [[0-6]] matched *)
Definition int_of_digit (d : text) : nat :=
  match d with
  | c :: _ => code c - 48
  | [] => 0
  end.

Definition last_char (s : text) : option ascii :=
  match rev s with
  | c :: _ => Some c
  | [] => None
  end.

(** ** jira_to_markdown *)

Module J2M.

Definition block_quote : re :=
  Seqs [Bol true; L "bq."; Grp 1 (Star false (Cls dot)); Eol true].

Definition emphasis : re :=
  Seqs [NotBehind alnum_ascii; Grp 1 (Cls (one_of "*_"));
        Grp 2 (Star false (Cls dot)); Bref 1].

Definition emphasis_repl (m : rmatch_obj) : text :=
  let mark := if text_eqb (g 1 m) (T "*") then T "**" else T "*" in
  mark ++ g 2 m ++ mark.

Definition list_item : re :=
  Seqs [Bol true;
        Grp 1 (Plus true (Alt (Chr "#") (Alt (Chr "-") (Alt (Chr "+") (Chr "*")))));
        Chr " "; Grp 2 (Star true (Cls dot)); Eol true].

Definition header : re :=
  Seqs [Bol true; Chr "h"; Grp 1 (Cls (between 48 54)); Chr ".";
        Grp 2 (Star true (Cls dot)); Eol true].

Definition header_repl (m : rmatch_obj) : text :=
  times (T "#") (int_of_digit (g 1 m)) ++ g 2 m.

Definition inline_code : re :=
  Seqs [L "{{"; Grp 1 (Plus true (Cls (non "}"))); L "}}"].

Definition citation : re :=
  Seqs [L "??";
        Grp 1 (Plus true (Alt (Seq (Cls dot) (Cls (non "?")))
                              (Seq (Cls (non "?")) (Cls dot))));
        L "??"].

Definition wrapped (c : ascii) : re :=
  Seqs [Chr c; Grp 1 (Star true (Cls (not_in (just c)))); Chr c].

Definition code_block : re :=
  Seqs [L "{code"; Opt (Seq (Chr ":") (Grp 1 (Plus true (Cls is_lower))));
        Chr "}"; Grp 2 (Star false (Cls space_or_not)); L "{code}"].

Definition noformat : re :=
  Seqs [L "{noformat}"; Grp 1 (Star false (Cls space_or_not)); L "{noformat}"].

Definition quote : re :=
  Seqs [L "{quote}"; Grp 1 (Star true (Cls space_or_not)); L "{quote}"].

Definition quote_repl (m : rmatch_obj) : text :=
  join [LF] (map (fun line => T "> " ++ line) (split LF (g 1 m))).

Definition image_alt : re :=
  Seqs [Chr "!"; Grp 1 (Plus true (Cls (non_lf_space "|"))); Chr "|";
        Grp 2 (Star true (Cls (non_lf "!"))); L "alt=";
        Grp 3 (Plus false (Cls (non_lf "!,")));
        Opt (Grp 4 (Seq (Chr ",") (Grp 5 (Star true (Cls (non_lf "!"))))));
        Chr "!"].

Definition image_params : re :=
  Seqs [Chr "!"; Grp 1 (Plus true (Cls (non_lf_space "|"))); Chr "|";
        Grp 2 (Star true (Cls (non_lf "!"))); Chr "!"].

Definition image_plain : re :=
  Seqs [Chr "!"; Grp 1 (Plus true (Cls (non_lf_space "!"))); Chr "!"].

Definition link_piped : re :=
  Seqs [Chr "["; Grp 1 (Plus true (Cls (non "|"))); Chr "|";
        Grp 2 (Plus false (Cls dot)); Chr "]"].

Definition link_bare : re :=
  Seqs [Chr "["; Grp 1 (Plus false (Cls dot)); Chr "]";
        Grp 2 (Plus true (Cls (non "(")))].

Definition color : re :=
  Seqs [L "{color:"; Grp 1 (Plus true (Cls (non "}"))); Chr "}";
        Grp 2 (Star false (Cls space_or_not)); L "{color}"].

(** [<span style=\"color:\1\">\2</span>]: the template keeps the
    backslashes before the quotes. *)
Definition color_repl (m : rmatch_obj) : text :=
  T "<span style=\" ++ [ascii_of_nat 34] ++ T "color:" ++ g 1 m
    ++ T "\" ++ [ascii_of_nat 34] ++ T ">" ++ g 2 m ++ T "</span>".

End J2M.

(** [_convert_jira_list_to_markdown] *)
Definition _convert_jira_list_to_markdown (m : rmatch_obj) : text :=
  let jira_bullets := g 1 m in
  let content := g 2 m in
  let indent_level := length jira_bullets - 1 in
  let indent := times (T " ") (indent_level * 2) in
  let prefix := match last_char jira_bullets with
                | Some c => if Ascii.eqb c "#" then T "1." else T "-"
                | None => T "-"
                end in
  indent ++ prefix ++ T " " ++ content.

(** [lines[i] = v] and [lines.insert(i, v)] *)
Fixpoint set_nth (i : nat) (v : text) (l : list text) : list text :=
  match l, i with
  | [], _ => []
  | _ :: l', 0 => v :: l'
  | x :: l', S i' => x :: set_nth i' v l'
  end.

Fixpoint insert_at (i : nat) (v : text) (l : list text) : list text :=
  match i, l with
  | 0, _ => v :: l
  | S i', x :: l' => x :: insert_at i' v l'
  | S _, [] => [v]
  end.

(** [lines.pop(i)] *)
Fixpoint pop_at (i : nat) (l : list text) : list text :=
  match l, i with
  | [], _ => []
  | _ :: l', 0 => l'
  | x :: l', S i' => x :: pop_at i' l'
  end.

(** The table loop of [jira_to_markdown]: one iteration per unit of
    [fuel]; [length lines - i] goes down by one with every iteration. *)
Fixpoint j2m_table_loop (fuel : nat) (lines : list text) (i : nat) : list text :=
  match fuel with
  | 0 => lines
  | S fuel' =>
      if i <? length lines then
        let line := nth i lines [] in
        if contains (T "||") line then
          let lines := set_nth i (replace (T "||") (T "|") (nth i lines [])) lines in
          let header_cells := (Z.of_nat (count (T "|") (nth i lines [])) - 1)%Z in
          if (0 <? header_cells)%Z then
            let separator_line := T "|" ++ times (T "---|") (Z.to_nat header_cells) in
            j2m_table_loop fuel' (insert_at (i + 1) separator_line lines) (i + 1 + 1)
          else j2m_table_loop fuel' lines (i + 1)
        else j2m_table_loop fuel' lines (i + 1)
      else lines
  end.

Definition j2m_tables (lines : list text) : list text :=
  j2m_table_loop (length lines) lines 0.

(** [not s] for a string: the empty string is the falsy one *)
Definition is_empty (s : text) : bool :=
  match s with
  | [] => true
  | _ => false
  end.

Definition jira_to_markdown (input_text : text) : text :=
  if is_empty input_text then [] else
  let output := sub J2M.block_quote (fun m => T "> " ++ g 1 m ++ [LF]) input_text in
  let output := sub J2M.emphasis J2M.emphasis_repl output in
  let output := sub J2M.list_item _convert_jira_list_to_markdown output in
  let output := sub J2M.header J2M.header_repl output in
  let output := sub J2M.inline_code (fun m => T "`" ++ g 1 m ++ T "`") output in
  let output := sub J2M.citation (fun m => T "<cite>" ++ g 1 m ++ T "</cite>") output in
  let output := sub (J2M.wrapped "+") (fun m => T "<ins>" ++ g 1 m ++ T "</ins>") output in
  let output := sub (J2M.wrapped "^") (fun m => T "<sup>" ++ g 1 m ++ T "</sup>") output in
  let output := sub (J2M.wrapped "~") (fun m => T "<sub>" ++ g 1 m ++ T "</sub>") output in
  let output := sub (J2M.wrapped "-") (fun m => T "-" ++ g 1 m ++ T "-") output in
  let output := sub J2M.code_block
                  (fun m => T "```" ++ g 1 m ++ [LF] ++ g 2 m ++ [LF] ++ T "```") output in
  let output := sub J2M.noformat
                  (fun m => T "```" ++ [LF] ++ g 1 m ++ [LF] ++ T "```") output in
  let output := sub J2M.quote J2M.quote_repl output in
  let output := sub J2M.image_alt (fun m => T "![" ++ g 3 m ++ T "](" ++ g 1 m ++ T ")") output in
  let output := sub J2M.image_params (fun m => T "![](" ++ g 1 m ++ T ")") output in
  let output := sub J2M.image_plain (fun m => T "![](" ++ g 1 m ++ T ")") output in
  let output := sub J2M.link_piped (fun m => T "[" ++ g 1 m ++ T "](" ++ g 2 m ++ T ")") output in
  let output := sub J2M.link_bare (fun m => T "<" ++ g 1 m ++ T ">" ++ g 2 m) output in
  let output := sub J2M.color J2M.color_repl output in
  let lines := split LF output in
  join [LF] (j2m_tables lines).

(** ** markdown_to_jira *)

Module M2J.

Definition fenced : re :=
  Seqs [L "```"; Grp 1 (Star true (Cls is_word)); Chr LF;
        Grp 2 (Plus false (Cls space_or_not)); L "```"].

Definition inline : re :=
  Seqs [Chr "`"; Grp 1 (Plus true (Cls (non "`"))); Chr "`"].

Definition setext : re :=
  Seqs [Bol true; Grp 1 (Star false (Cls dot)); Chr LF;
        Plus true (Grp 2 (Cls (one_of "=-"))); Eol true].

Definition setext_repl (m : rmatch_obj) : text :=
  T "h" ++ (match g 2 m with
            | c :: _ => if Ascii.eqb c "=" then T "1" else T "2"
            | [] => T "2"
            end) ++ T ". " ++ g 1 m.

Definition atx : re :=
  Seqs [Bol true; Grp 1 (Plus true (Chr "#")); Grp 2 (Star false (Cls dot)); Eol true].

Definition atx_repl (m : rmatch_obj) : text :=
  T "h" ++ str_of_nat (length (g 1 m)) ++ T "." ++ g 2 m.

Definition emphasis : re :=
  Seqs [Grp 1 (Plus true (Cls (one_of "*_"))); Grp 2 (Star false (Cls dot)); Bref 1].

Definition emphasis_repl (m : rmatch_obj) : text :=
  let mark := if length (g 1 m) =? 1 then T "_" else T "*" in
  mark ++ g 2 m ++ mark.

Definition bullet : re :=
  Seqs [Bol true; Grp 1 (Star true (Cls is_space)); L "- ";
        Grp 2 (Star true (Cls dot)); Eol true].

Definition bullet_repl (m : rmatch_obj) : text :=
  if is_empty (g 1 m) then T "* " ++ g 2 m
  else times (T "  ") (length (g 1 m) / 2) ++ T "* " ++ g 2 m.

Definition numbered : re :=
  Seqs [Bol true; Grp 1 (Plus true (Cls is_space)); L "1. ";
        Grp 2 (Star true (Cls dot)); Eol true].

Definition numbered_repl (m : rmatch_obj) : text :=
  times (T "#") (length (g 1 m) / 4 + 2) ++ T " " ++ g 2 m.

Definition tag_map : list (string * string) :=
  [("cite", "??"); ("del", "-"); ("ins", "+"); ("sup", "^"); ("sub", "~")]%string.

Definition html_tag (tag : string) : re :=
  Seqs [Chr "<"; L tag; Chr ">"; Grp 1 (Star false (Cls dot));
        L "</"; L tag; Chr ">"].

Definition tags (output : text) : text :=
  fold_left (fun out tr =>
               sub (html_tag (fst tr))
                   (fun m => T (snd tr) ++ g 1 m ++ T (snd tr)) out)
            tag_map output.

Definition color : re :=
  Seqs [L "<span style="; Chr (ascii_of_nat 34); L "color:";
        Grp 1 (Seq (Chr "#") (Plus true (Cls (not_in (just (ascii_of_nat 34))))));
        Chr (ascii_of_nat 34); Chr ">";
        Grp 2 (Star false (Cls space_or_not)); L "</span>"].

Definition strike : re :=
  Seqs [L "~~"; Grp 1 (Star false (Cls dot)); L "~~"].

Definition image_plain : re :=
  Seqs [L "![]("; Grp 1 (Plus true (Cls (non_lf_space ")"))); Chr ")"].

Definition image_alt : re :=
  Seqs [L "!["; Grp 1 (Plus true (Cls (non_lf "]"))); L "](";
        Grp 2 (Plus true (Cls (non_lf_space ")"))); Chr ")"].

Definition link : re :=
  Seqs [Chr "["; Grp 1 (Plus true (Cls (non "]"))); L "](";
        Grp 2 (Plus true (Cls (non ")"))); Chr ")"].

Definition autolink : re :=
  Seqs [Chr "<"; Grp 1 (Plus true (Cls (non ">"))); Chr ">"].

Definition separator_row : re :=
  Seqs [Chr "|"; Plus true (Cls (either (one_of "-|") is_space)); Chr "|"].

End M2J.

(** [save_code_block] and [save_inline_code]: the text that goes back
    into the output.  The lists [code_blocks] and [inline_codes] they
    append to are read nowhere, so they are not carried along. *)
Definition save_code_block (m : rmatch_obj) : text :=
  let syntax := match group 1 m with Some t => t | None => [] end in
  let content := g 2 m in
  let code := T "{code" in
  let code := if is_empty syntax then code else code ++ T ":" ++ syntax in
  code ++ T "}" ++ content ++ T "{code}".

Definition save_inline_code (m : rmatch_obj) : text :=
  let content := g 1 m in
  T "{{" ++ content ++ T "}}".

(** The table loop of [markdown_to_jira]. *)
Fixpoint m2j_table_loop (fuel : nat) (lines : list text) (i : nat) : list text :=
  match fuel with
  | 0 => lines
  | S fuel' =>
      if i <? length lines then
        if (i <? length lines - 1)
           && match re_match M2J.separator_row (nth (i + 1) lines []) with
              | Some _ => true
              | None => false
              end
        then
          let lines := set_nth i (replace (T "|") (T "||") (nth i lines [])) lines in
          m2j_table_loop fuel' (pop_at (i + 1) lines) (i + 1)
        else m2j_table_loop fuel' lines (i + 1)
      else lines
  end.

Definition m2j_tables (lines : list text) : list text :=
  m2j_table_loop (length lines) lines 0.

Definition markdown_to_jira (input_text : text) : text :=
  if is_empty input_text then [] else
  let output := sub M2J.fenced save_code_block input_text in
  let output := sub M2J.inline save_inline_code output in
  let output := sub M2J.setext M2J.setext_repl output in
  let output := sub M2J.atx M2J.atx_repl output in
  let output := sub M2J.emphasis M2J.emphasis_repl output in
  let output := sub M2J.bullet M2J.bullet_repl output in
  let output := sub M2J.numbered M2J.numbered_repl output in
  let output := M2J.tags output in
  let output := sub M2J.color (fun m => T "{color:" ++ g 1 m ++ T "}" ++ g 2 m ++ T "{color}") output in
  let output := sub M2J.strike (fun m => T "-" ++ g 1 m ++ T "-") output in
  let output := sub M2J.image_plain (fun m => T "!" ++ g 1 m ++ T "!") output in
  let output := sub M2J.image_alt (fun m => T "!" ++ g 2 m ++ T "|alt=" ++ g 1 m ++ T "!") output in
  let output := sub M2J.link (fun m => T "[" ++ g 1 m ++ T "|" ++ g 2 m ++ T "]") output in
  let output := sub M2J.autolink (fun m => T "[" ++ g 1 m ++ T "]") output in
  let lines := split LF output in
  join [LF] (m2j_tables lines).

(** ** The preprocessor and its external collaborators *)

(** What [jira_client.user(account_id).displayName] gives: a display name,
    or an exception. *)
Inductive lookup_result : Type :=
| Found (displayName : text)
| Raises (message : text).

(** [BasePreprocessor.__init__]: [base_url.rstrip("/") if base_url else ""] *)
Definition init_base_url (base_url : text) : text :=
  if is_empty base_url then [] else rstrip (just "/") base_url.

(** [functools.lru_cache(maxsize)]: the entries, most recently used first. *)
Definition lru := list (text * text).

Fixpoint lru_find (key : text) (c : lru) : option text :=
  match c with
  | [] => None
  | (k, v) :: c' => if text_eqb key k then Some v else lru_find key c'
  end.

Fixpoint lru_remove (key : text) (c : lru) : lru :=
  match c with
  | [] => []
  | (k, v) :: c' => if text_eqb key k then c' else (k, v) :: lru_remove key c'
  end.

Definition lru_touch (key value : text) (c : lru) : lru :=
  (key, value) :: lru_remove key c.

Definition lru_store (maxsize : nat) (key value : text) (c : lru) : lru :=
  firstn maxsize ((key, value) :: c).

(** What a run can observe or change outside its arguments: the external
    lookups made (latest first), the records of the logger (latest first)
    and the cache behind [_find_user]. *)
Record world : Type := World {
  lookups : list text;
  logged : list text;
  user_cache : lru
}.

Definition new_world : world := World [] [] [].

Inductive outcome (A : Type) : Type :=
| Returns (a : A)
| Throws (message : text).
Arguments Returns {A} a.
Arguments Throws {A} message.

Definition M (A : Type) : Type := world -> outcome A * world.

Definition ret {A} (a : A) : M A := fun w => (Returns a, w).

Definition bind {A B} (m : M A) (f : A -> M B) : M B :=
  fun w => match m w with
           | (Returns a, w') => f a w'
           | (Throws e, w') => (Throws e, w')
           end.

(** [try: m  except Exception as e: h e] *)
Definition try_except {A} (m : M A) (h : text -> M A) : M A :=
  fun w => match m w with
           | (Returns a, w') => (Returns a, w')
           | (Throws e, w') => h e w'
           end.

Definition log (record : text) : M unit :=
  fun w => (Returns tt, World (lookups w) (record :: logged w) (user_cache w)).

Notation "x <- m ;; f" := (bind m (fun x => f))
  (at level 61, m at next level, right associativity).
Notation "m ;;; f" := (bind m (fun _ => f))
  (at level 61, right associativity).

Definition mention_pattern : re :=
  Seqs [L "[~accountid:"; Grp 1 (Star false (Cls dot)); Chr "]"].

Definition smart_link_pattern : re :=
  Seqs [Chr "["; Grp 1 (Star false (Cls dot)); Chr "|";
        Grp 2 (Star false (Cls dot)); L "|smart-link]"].

Definition issue_key_pattern : re :=
  Seqs [L "browse/";
        Grp 1 (Seqs [Plus true (Cls is_upper); Chr "-"; Plus true (Cls is_digit)])].

Definition confluence_pattern : re :=
  Seqs [L "wiki/spaces/"; Plus false (Cls dot); L "/pages/";
        Plus true (Cls is_digit); Chr "/"; Grp 1 (Plus false (Cls dot));
        Alt (Chr "?") (Eol false)].

Definition leading_key_pattern : re :=
  Seqs [Bol false; Plus true (Cls is_upper); Chr "-"; Plus true (Cls is_digit);
        Plus true (Cls is_space)].

Definition html_tag_pattern : re :=
  Seqs [Chr "<"; Plus true (Cls (non ">")); Chr ">"].

(** [re.findall] for a pattern with one group *)
Definition findall1 (r : re) (s : text) : list text := map (g 1) (finditer r s).

Definition mention_token (account_id : text) : text :=
  T "[~accountid:" ++ account_id ++ T "]".

Section Preprocessor.

(** [jira_client.user] and the HTML-to-Markdown rendering of
    [_convert_html_to_markdown] ([None]: it raised). *)
Variable jira_user : text -> lookup_result.
Variable html_to_markdown : text -> option text.
(** [self.base_url] *)
Variable base_url : text.

(** one call of [self.jira_client.user(account_id)] *)
Definition client_user (account_id : text) : M text :=
  fun w =>
    let w' := World (account_id :: lookups w) (logged w) (user_cache w) in
    match jira_user account_id with
    | Found d => (Returns d, w')
    | Raises e => (Throws e, w')
    end.

(** [cached_find_user], the function [_create_cached_find_user] returns:
    [client_user] behind [lru_cache(maxsize=100)]. *)
Definition cached_find_user (account_id : text) : M text :=
  fun w =>
    match lru_find account_id (user_cache w) with
    | Some u =>
        (Returns u, World (lookups w) (logged w) (lru_touch account_id u (user_cache w)))
    | None =>
        match (log (T "Cache miss for user: " ++ account_id) ;;; client_user account_id) w with
        | (Returns u, w') =>
            (Returns u, World (lookups w') (logged w')
                              (lru_store 100 account_id u (user_cache w')))
        | (Throws e, w') => (Throws e, w')
        end
    end.

Definition _find_user := cached_find_user.

(** the loop of [_process_mentions] *)
Fixpoint mentions_loop (mentions : list text) (txt : text) : M text :=
  match mentions with
  | [] => ret txt
  | account_id :: mentions' =>
      txt <- try_except
                (user <- client_user account_id ;;
                 let display_name := T "@<" ++ user ++ T ">" in
                 ret (replace (mention_token account_id) display_name txt))
                (fun e =>
                   log (T "Error processing mention for " ++ account_id ++ T ": " ++ e) ;;;
                   ret txt) ;;
      mentions_loop mentions' txt
  end.

Definition _process_mentions (txt : text) (pattern : re) : M text :=
  mentions_loop (findall1 pattern txt) txt.

(** the loop of [_process_smart_links]; the matches come from the text
    as it was when the loop started *)
Definition smart_link_step (txt : text) (m : rmatch_obj) : text :=
  let full_match := g 0 m in
  let link_text := g 1 m in
  let link_url := g 2 m in
  let issue_key_match := re_search issue_key_pattern link_url in
  let confluence_match := re_search confluence_pattern link_url in
  match issue_key_match with
  | Some im =>
      let issue_key := g 1 im in
      let clean_url := base_url ++ T "/browse/" ++ issue_key in
      replace full_match (T "[" ++ issue_key ++ T "](" ++ clean_url ++ T ")") txt
  | None =>
      match confluence_match with
      | Some cm =>
          let url_title := g 1 cm in
          let readable_title := replace (T "+") (T " ") url_title in
          let readable_title := sub leading_key_pattern (fun _ => []) readable_title in
          replace full_match (T "[" ++ readable_title ++ T "](" ++ link_url ++ T ")") txt
      | None =>
          let clean_url := hd [] (split "?" link_url) in
          replace full_match (T "[" ++ link_text ++ T "](" ++ clean_url ++ T ")") txt
      end
  end.

Definition _process_smart_links (txt : text) : text :=
  fold_left smart_link_step (finditer smart_link_pattern txt) txt.

Definition _convert_html_to_markdown (txt : text) : M text :=
  match re_search html_tag_pattern txt with
  | Some _ =>
      match html_to_markdown txt with
      | Some md => ret md
      | None => log (T "Error converting HTML to markdown") ;;; ret txt
      end
  | None => ret txt
  end.

(** [clean_jira_text]; [None] stands for Python's [None], the other
    falsy value a caller can pass. *)
Definition clean_jira_text (txt : option text) : M text :=
  match txt with
  | None => ret []
  | Some txt =>
      if is_empty txt then ret [] else
      txt <- _process_mentions txt mention_pattern ;;
      let txt := _process_smart_links txt in
      let txt := jira_to_markdown txt in
      txt <- _convert_html_to_markdown txt ;;
      ret (strip txt)
  end.

End Preprocessor.

(** ** The HTML mention resolver *)

(** An attribute value is a string, or a list of strings for the
    multi-valued attributes. *)
Inductive attr_value : Type :=
| AStr (s : text)
| AList (l : list text).

(** A parsed document: [NavigableString]s and [Tag]s. *)
Inductive node : Type :=
| Text (s : text)
| Elem (name : text) (attrs : list (text * attr_value)) (children : list node).

Definition path := list nat.

Definition under (i : nat) (pd : path * node) : path * node := (i :: fst pd, snd pd).

(** The descendants of a node in document order, each with the path
    that leads to it; [children_from] lists those of the children [cs],
    the first of which is child number [i]. *)
Fixpoint children_from (f : node -> list (path * node)) (i : nat) (cs : list node)
  : list (path * node) :=
  match cs with
  | [] => []
  | c :: cs' => ([i], c) :: map (under i) (f c) ++ children_from f (S i) cs'
  end.

Fixpoint descendants (n : node) : list (path * node) :=
  match n with
  | Text _ => []
  | Elem _ _ cs => children_from descendants 0 cs
  end.

Definition is_tag (name : text) (n : node) : bool :=
  match n with
  | Text _ => false
  | Elem nm _ _ => text_eqb nm name
  end.

(** [n.find_all(name)] *)
Definition find_all (name : text) (n : node) : list (path * node) :=
  filter (fun pd => is_tag name (snd pd)) (descendants n).

(** [n.find(name)] *)
Definition find (name : text) (n : node) : option node :=
  match find_all name n with
  | pd :: _ => Some (snd pd)
  | [] => None
  end.

Fixpoint get_attr (key : text) (attrs : list (text * attr_value)) : option attr_value :=
  match attrs with
  | [] => None
  | (k, v) :: attrs' => if text_eqb k key then Some v else get_attr key attrs'
  end.

Fixpoint strings (n : node) : list text :=
  match n with
  | Text s => [s]
  | Elem _ _ cs => flat_map strings cs
  end.

(** [n.get_text(strip=True)] *)
Definition get_text_strip (n : node) : text :=
  concat (filter (fun s => negb (is_empty s)) (map strip (strings n))).

(** the children with child number [i] changed by [f] *)
Fixpoint update_child (i : nat) (f : node -> node) (cs : list node) : list node :=
  match cs, i with
  | [], _ => []
  | c :: cs', 0 => f c :: cs'
  | c :: cs', S i' => c :: update_child i' f cs'
  end.

(** The tree with the node at a path replaced.  A path that no longer
    leads anywhere (an ancestor was replaced by a string before) leaves
    the tree as it is: the element is then part of a detached subtree. *)
Fixpoint replace_at (p : path) (new : node) (n : node) : node :=
  match p with
  | [] => new
  | i :: p' =>
      match n with
      | Text s => Text s
      | Elem nm at_ cs => Elem nm at_ (update_child i (replace_at p' new) cs)
      end
  end.

(** [user_element.replace_with(new)]: an element without a parent
    raises. *)
Definition replace_with (p : path) (new : node) (soup : node) : M node :=
  match p with
  | [] => fun w => (Throws (T "Cannot replace one element with another when the element to be replaced is not part of a tree."), w)
  | _ => ret (replace_at p new soup)
  end.

(** [_use_fallback_user_mention] *)
Definition _use_fallback_user_mention (user_element : path) (account_id : text)
    (soup : node) : M node :=
  let new_text := T "@user_" ++ account_id in
  let new_element := Text new_text in
  replace_with user_element new_element soup.

(** [_replace_user_mention] *)
Definition _replace_user_mention (user_element : path) (account_id : text)
    (soup : node) : M node :=
  try_except
    (_use_fallback_user_mention user_element account_id soup)
    (fun e =>
       log (T "Error processing user mention: " ++ e) ;;;
       _use_fallback_user_mention user_element account_id soup).

(** the account id of [user_ref] when
    [user_ref and isinstance(user_ref, Tag) and user_ref.has_attr("ri:account-id")]
    holds and the value is a [str] *)
Definition account_id_of (user_ref : option node) : option text :=
  match user_ref with
  | Some (Elem _ attrs _) =>
      match get_attr (T "ri:account-id") attrs with
      | Some (AStr account_id) => Some account_id
      | _ => None
      end
  | _ => None
  end.

(** One iteration of the loop of [_process_user_mentions_in_soup]: the
    element is the object [find_all] returned, looked at as it is; the
    path is where it was in the tree. *)
Definition mention_step (soup : node) (found : path * node) : M node :=
  let user_element := snd found in
  let user_ref := find (T "ri:user") user_element in
  match account_id_of user_ref with
  | Some account_id => _replace_user_mention (fst found) account_id soup
  | None =>
      let link_body := find (T "ac:link-body") user_element in
      match link_body with
      | Some (Elem nm at_ cs) =>
          let link_text := get_text_strip (Elem nm at_ cs) in
          if contains (T "@") link_text then
            let user_ref := find (T "ri:user") user_element in
            match account_id_of user_ref with
            | Some account_id => _replace_user_mention (fst found) account_id soup
            | None => ret soup
            end
          else ret soup
      | _ => ret soup
      end
  end.

Fixpoint mention_elements_loop (found : list (path * node)) (soup : node) : M node :=
  match found with
  | [] => ret soup
  | f :: found' =>
      soup <- mention_step soup f ;;
      mention_elements_loop found' soup
  end.

Definition _process_user_mentions_in_soup (soup : node) : M node :=
  mention_elements_loop (find_all (T "ac:link") soup) soup.

(** ** server.py: the fields of an issue *)

(** What [field_to_value] holds: [None], a string, an object with
    attributes (a resource of the Jira client), or a dict. *)
Inductive pyobj : Type :=
| PyNone
| PyStr (s : text)
| PyObj (attrs : list (text * pyobj))
| PyDict (items : list (text * pyobj)).

Inductive exn : Type :=
| AttributeError (name : text).

(** a dict, in insertion order *)
Definition pydict := list (text * pyobj).

(** [k in d] and [d[k]] *)
Fixpoint dict_get (k : text) (d : pydict) : option pyobj :=
  match d with
  | [] => None
  | (k', v) :: d' => if text_eqb k' k then Some v else dict_get k d'
  end.

(** [d[k] = v]: in place when the key is there, at the end otherwise *)
Fixpoint dict_set (k : text) (v : pyobj) (d : pydict) : pydict :=
  match d with
  | [] => [(k, v)]
  | (k', v') :: d' => if text_eqb k' k then (k', v) :: d' else (k', v') :: dict_set k v d'
  end.

(** [o.name] for the attributes read here ([name], [displayName],
    [key], [fields], [summary], [status]): [None], a string and a dict
    have none of them. *)
Definition getattr (o : pyobj) (name : text) : pyobj + exn :=
  match o with
  | PyObj attrs =>
      match dict_get name attrs with
      | Some v => inl v
      | None => inr (AttributeError name)
      end
  | _ => inr (AttributeError name)
  end.

(** How a function that changes a dict in place ends: it returns, or an
    exception leaves it; either way the dict is as the function left it. *)
Inductive run : Type :=
| Done (d : pydict)
| Raised (e : exn) (d : pydict).

Definition and_then (r : run) (f : pydict -> run) : run :=
  match r with
  | Done d => f d
  | Raised e d => Raised e d
  end.

Fixpoint for_each (body : text -> pydict -> run) (names : list text) (d : pydict) : run :=
  match names with
  | [] => Done d
  | n :: names' => and_then (body n d) (for_each body names')
  end.

(** the body of the first loop of [_postprocessing_for_issue_fields_] *)
Definition name_field_body (name_field : text) (field_to_value : pydict) : run :=
  match dict_get name_field field_to_value with
  | Some v =>
      match getattr v (T "name") with
      | inl n => Done (dict_set name_field n field_to_value)
      | inr e => Raised e field_to_value
      end
  | None => Done field_to_value
  end.

(** the body of the second loop *)
Definition user_field_body (user_field : text) (field_to_value : pydict) : run :=
  match dict_get user_field field_to_value with
  | Some PyNone => Done (dict_set user_field (PyStr (T "N/A")) field_to_value)
  | Some v =>
      match getattr v (T "displayName") with
      | inl n => Done (dict_set user_field n field_to_value)
      | inr e => Raised e field_to_value
      end
  | None => Done field_to_value
  end.

(** the dict display for the parent; its values are evaluated from left
    to right *)
Definition parent_summary (parent : pyobj) : pyobj + exn :=
  match getattr parent (T "key") with
  | inr e => inr e
  | inl key =>
      match getattr parent (T "fields") with
      | inr e => inr e
      | inl fields =>
          match getattr fields (T "summary") with
          | inr e => inr e
          | inl summary =>
              match getattr fields (T "status") with
              | inr e => inr e
              | inl status =>
                  match getattr status (T "name") with
                  | inr e => inr e
                  | inl name =>
                      inl (PyDict [(T "key", key); (T "summary", summary);
                                   (T "status", name)])
                  end
              end
          end
      end
  end.

Definition parent_body (field_to_value : pydict) : run :=
  match dict_get (T "parent") field_to_value with
  | Some v =>
      match parent_summary v with
      | inl n => Done (dict_set (T "parent") n field_to_value)
      | inr e => Raised e field_to_value
      end
  | None => Done field_to_value
  end.

Definition _postprocessing_for_issue_fields_ (field_to_value : pydict) : run :=
  and_then (for_each name_field_body [T "status"; T "priority"; T "issuetype"] field_to_value)
    (fun field_to_value =>
       and_then (for_each user_field_body [T "assignee"; T "reporter"] field_to_value)
         parent_body).

(** ** Static views of a pattern, used to rule matches out *)

(** the character before the position reached after [u] *)
Fixpoint last_of (u : text) (pv : option ascii) : option ascii :=
  match u with
  | [] => pv
  | c :: u' => last_of u' (Some c)
  end.

(** What a successful run of a pattern does to the state, whatever the
    order in which the matcher tries things. *)
Inductive matches : re -> mstate -> mstate -> Prop :=
| M_Eps s : matches Eps s s
| M_Chr c t s : rest s = c :: t -> matches (Chr c) s (advance c t s)
| M_Cls p c t s : rest s = c :: t -> p c = true -> matches (Cls p) s (advance c t s)
| M_Seq a b s s1 s2 : matches a s s1 -> matches b s1 s2 -> matches (Seq a b) s s2
| M_AltL a b s s1 : matches a s s1 -> matches (Alt a b) s s1
| M_AltR a b s s1 : matches b s s1 -> matches (Alt a b) s s1
| M_Star0 gr a s : matches (Star gr a) s s
| M_StarS gr a s s1 s2 :
    matches a s s1 -> length (rest s1) < length (rest s) ->
    matches (Star gr a) s1 s2 -> matches (Star gr a) s s2
| M_Grp n a s s1 :
    matches a s s1 ->
    matches (Grp n a) s (MState (prev s1) (rest s1) ((n, consumed s s1) :: caps s1))
| M_Bref n t s s1 :
    lookup n (caps s) = Some t ->
    rest s = t ++ rest s1 -> prev s1 = last_of t (prev s) -> caps s1 = caps s ->
    matches (Bref n) s s1
| M_Bol m s : at_bol m s = true -> matches (Bol m) s s
| M_Eol m s : at_eol m s = true -> matches (Eol m) s s
| M_NotBehind p s :
    match prev s with Some c => p c = false | None => True end ->
    matches (NotBehind p) s s.

(** can the pattern match without consuming *)
Fixpoint nullable (r : re) : bool :=
  match r with
  | Eps | Star _ _ | Bref _ | Bol _ | Eol _ | NotBehind _ => true
  | Chr _ | Cls _ => false
  | Seq a b => nullable a && nullable b
  | Alt a b => nullable a || nullable b
  | Grp _ a => nullable a
  end.

Definition no_char (_ : ascii) : bool := false.

(** the characters a match that consumes can start with *)
Fixpoint first_set (r : re) : ascii -> bool :=
  match r with
  | Eps | Bol _ | Eol _ | NotBehind _ => no_char
  | Chr c => just c
  | Cls p => p
  | Seq a b => if nullable a then either (first_set a) (first_set b) else first_set a
  | Alt a b => either (first_set a) (first_set b)
  | Star _ a => first_set a
  | Grp _ a => first_set a
  | Bref _ => any_char
  end.

Definition all_ascii : list ascii := map ascii_of_nat (seq 0 256).

(** [p] is inside [q] *)
Definition subclass (p q : ascii -> bool) : bool :=
  forallb (fun c => implb (p c) (q c)) all_ascii.

(** every match of the pattern consumes a character of [P] *)
Fixpoint needs (P : ascii -> bool) (r : re) : bool :=
  match r with
  | Chr c => P c
  | Cls p => subclass p P
  | Seq a b => needs P a || needs P b
  | Alt a b => needs P a && needs P b
  | Grp _ a => needs P a
  | _ => false
  end.

(** the pattern starts with [^] *)
Fixpoint anchored (r : re) : bool :=
  match r with
  | Bol _ => true
  | Seq a _ => anchored a
  | Grp _ a => anchored a
  | _ => false
  end.

(** no match of [r] starts inside [a] when [a] is followed by [b] and
    preceded by [pv] *)
Definition quiet (r : re) (pv : option ascii) (a b : text) : Prop :=
  forall a1 c a2, a = a1 ++ c :: a2 ->
    match_at r (last_of a1 pv) (c :: a2 ++ b) = None.

(** The characters the rules of [jira_to_markdown] look for. *)
Definition wiki_markup : ascii -> bool := one_of ".*_#-+{?^~![|".

Definition lacks (P : ascii -> bool) (s : text) : bool :=
  forallb (fun c => negb (P c)) s.

(** A client that knows one user. *)
Definition ada (id : text) : lookup_result :=
  if text_eqb id (T "42") then Found (T "Ada") else Raises (T "404").

(** What the table step of [jira_to_markdown] makes of one line. *)
Definition table_row (line : text) : list text :=
  if contains (T "||") line then
    let converted := replace (T "||") (T "|") line in
    let n := count (T "|") converted in
    if 1 <? n then [converted; T "|" ++ times (T "---|") (n - 1)] else [converted]
  else [line].

(** The account id the resolver reads off a link element: the one of
    the first user reference among its descendants. *)
Definition mention_account (link : node) : option text :=
  account_id_of (find (T "ri:user") link).

(** The resolver as a rewrite of the tree from the root down. *)
Fixpoint resolve (n : node) : node :=
  match n with
  | Text s => Text s
  | Elem nm at_ cs =>
      Elem nm at_
        (map (fun c =>
                if is_tag (T "ac:link") c then
                  match mention_account c with
                  | Some account_id => Text (T "@user_" ++ account_id)
                  | None => resolve c
                  end
                else resolve c) cs)
  end.

(** The two shapes of a mention as the specification words them: a
    user reference with an account id among the children of the link,
    and a link body with [@] in its text next to one. *)
Definition user_child (link : node) : option text :=
  match link with
  | Text _ => None
  | Elem _ _ cs =>
      hd_error (flat_map (fun c => if is_tag (T "ri:user") c
                                   then match account_id_of (Some c) with
                                        | Some account_id => [account_id]
                                        | None => []
                                        end
                                   else []) cs)
  end.

Definition link_body_child (link : node) : bool :=
  match link with
  | Text _ => false
  | Elem _ _ cs =>
      existsb (fun c => is_tag (T "ac:link-body") c
                        && contains (T "@") (get_text_strip c)) cs
  end.

Definition shape_direct (link : node) : bool :=
  match user_child link with Some _ => true | None => false end.

Definition shape_link_body (link : node) : bool :=
  link_body_child link && shape_direct link.

(** One iteration of the resolver's loop without the bookkeeping. *)
Definition replaced (soup : node) (found : path * node) : node :=
  match mention_account (snd found) with
  | Some account_id => replace_at (fst found) (Text (T "@user_" ++ account_id)) soup
  | None => soup
  end.

Definition resolve_child (c : node) : node :=
  if is_tag (T "ac:link") c then
    match mention_account c with
    | Some account_id => Text (T "@user_" ++ account_id)
    | None => resolve c
    end
  else resolve c.

(** [wiki_markup] without the brace *)
Definition code_markup : ascii -> bool := one_of ".*_#-+?^~![|".

(** A text seen as plain stretches and mention tokens. *)
Inductive piece : Type :=
| Plain (s : text)
| Mention (account_id : text).

Definition render (f : text -> text) (ps : list piece) : text :=
  flat_map (fun p => match p with
                     | Plain s => s
                     | Mention account_id => f account_id
                     end) ps.

Definition mention_ids (ps : list piece) : list text :=
  flat_map (fun p => match p with
                     | Plain _ => []
                     | Mention account_id => [account_id]
                     end) ps.

(** a plain stretch has no [[]; an account id has no bracket and no line
    feed *)
Definition piece_ok (p : piece) : bool :=
  match p with
  | Plain s => lacks (just "[") s
  | Mention account_id => lacks (either (one_of "[]") (just LF)) account_id
  end.

(** what a mention of [account_id] ends up as *)
Definition resolved (jira_user : text -> lookup_result) (account_id : text) : text :=
  match jira_user account_id with
  | Found d => T "@<" ++ d ++ T ">"
  | Raises _ => mention_token account_id
  end.

(** the display names of the mentioned users have no [[] *)
Definition names_ok (jira_user : text -> lookup_result) (ps : list piece) : bool :=
  forallb (fun account_id => match jira_user account_id with
                             | Found d => lacks (just "[") d
                             | Raises _ => true
                             end) (mention_ids ps).

(** one iteration of the loop of [_process_mentions] on the text alone *)
Definition resolve_mention (jira_user : text -> lookup_result) (txt account_id : text) : text :=
  match jira_user account_id with
  | Found d => replace (mention_token account_id) (T "@<" ++ d ++ T ">") txt
  | Raises _ => txt
  end.

(** the rendering of a mention when the ids in [done] have been treated *)
Definition partly (jira_user : text -> lookup_result) (done : list text) (account_id : text) : text :=
  if existsb (text_eqb account_id) done then resolved jira_user account_id
  else mention_token account_id.

Definition starts_with_digit (s : text) : bool :=
  match s with
  | c :: _ => is_digit c
  | [] => false
  end.

(** a smart-link token and the Markdown link of an issue *)
Definition smart_link (link_text link_url : text) : text :=
  T "[" ++ link_text ++ T "|" ++ link_url ++ T "|smart-link]".


(** a text that neither starts nor ends with a character of [p] *)
Definition trimmed (p : ascii -> bool) (s : text) : bool :=
  match s with
  | [] => true
  | c :: _ => negb (p c) && match last_char s with
                            | Some d => negb (p d)
                            | None => true
                            end
  end.

(** the characters [clean_jira_text] reacts to: the wiki markup and the
    start of an HTML tag *)
Definition jira_markup : ascii -> bool := either wiki_markup (just "<").

(** every user in the cache is the one the client gives for the key *)
Definition cache_ok (jira_user : text -> lookup_result) (c : lru) : bool :=
  forallb (fun kv => match jira_user (fst kv) with
                     | Found d => text_eqb d (snd kv)
                     | Raises _ => false
                     end) c.

(** no key is in the cache twice *)
Fixpoint keys_distinct (c : lru) : bool :=
  match c with
  | [] => true
  | (k, _) :: c' => match lru_find k c' with
                    | Some _ => false
                    | None => keys_distinct c'
                    end
  end.

(** The characters the rules of [markdown_to_jira] look for. *)
Definition md_markup : ascii -> bool := one_of "`=-#*_.<~![|".

(** [re.match(r"\|[-\s|]+\|", line)] succeeds *)
Definition is_separator_row (line : text) : bool :=
  match re_match M2J.separator_row line with
  | Some _ => true
  | None => false
  end.

(** What the table step of [markdown_to_jira] makes of the lines: a
    line right before a separator row gets its bars doubled and the
    separator row goes. *)
Fixpoint jira_rows (lines : list text) : list text :=
  match lines with
  | [] => []
  | x :: rest =>
      match rest with
      | [] => [x]
      | y :: rest' =>
          if is_separator_row y
          then replace (T "|") (T "||") x :: jira_rows rest'
          else x :: jira_rows rest
      end
  end.

(** [wiki_markup] without the dot and [wiki_markup] without the hash *)
Definition line_markup : ascii -> bool := one_of "*_#-+{?^~![|".
Definition late_markup : ascii -> bool := one_of ".*_-+{?^~![|".

(** [md_markup] without the dot *)
Definition md_line_markup : ascii -> bool := one_of "`=-#*_<~![|".

(** a wiki header line and an ATX header line *)
Definition wiki_header (level : ascii) (title : text) : text :=
  T "h" ++ [level] ++ T "." ++ title.

Definition atx_header (n : nat) (title : text) : text :=
  times (T "#") n ++ title.

(** [md_markup] without the hash *)
Definition md_late_markup : ascii -> bool := one_of "`=-*_.<~![|".

(** the characters of either markup, and the line feed *)
Definition any_markup : ascii -> bool := either (either wiki_markup md_markup) (just LF).

(** one bullet character of the list rule: hash, minus, plus or star *)
Definition bullets : re := Alt (Chr "#") (Alt (Chr "-") (Alt (Chr "+") (Chr "*"))).

(** a Markdown link *)
Definition md_link (link_text link_url : text) : text :=
  T "[" ++ link_text ++ T "](" ++ link_url ++ T ")".

(** what may follow the path of a url: nothing, or [?] and a query *)
Definition query_or_end (tail : text) : bool :=
  match tail with
  | [] => true
  | c :: _ => Ascii.eqb c "?"
  end.

(** the url of a Confluence page *)
Definition page_url (pre space page_id title tail : text) : text :=
  pre ++ T "wiki/spaces/" ++ space ++ T "/pages/" ++ page_id ++ T "/" ++ title ++ tail.

(** the opening of a wiki code block, with or without a language *)
Definition code_open (lang : text) : text :=
  T "{code" ++ (if is_empty lang then [] else T ":" ++ lang) ++ T "}".

(** the dict a run ends with *)
Definition final (r : run) : pydict :=
  match r with
  | Done d => d
  | Raised _ d => d
  end.

(** what [_postprocessing_for_issue_fields_] puts in the place of a
    name field and of a user field *)
Definition name_of (v : pyobj) : pyobj + exn := getattr v (T "name").

Definition user_of (v : pyobj) : pyobj + exn :=
  match v with
  | PyNone => inl (PyStr (T "N/A"))
  | _ => getattr v (T "displayName")
  end.

(** one field rewritten in place by a conversion *)
Definition field_step (conv : pyobj -> pyobj + exn) (k : text) (d : pydict) : run :=
  match dict_get k d with
  | Some v =>
      match conv v with
      | inl n => Done (dict_set k n d)
      | inr e => Raised e d
      end
  | None => Done d
  end.

Fixpoint process (ps : list ((pyobj -> pyobj + exn) * text)) (d : pydict) : run :=
  match ps with
  | [] => Done d
  | (conv, k) :: ps' => and_then (field_step conv k d) (process ps')
  end.

(** the fields [_postprocessing_for_issue_fields_] rewrites, in its order *)
Definition issue_fields : list ((pyobj -> pyobj + exn) * text) :=
  [(name_of, T "status"); (name_of, T "priority"); (name_of, T "issuetype");
   (user_of, T "assignee"); (user_of, T "reporter"); (parent_summary, T "parent")].

Fixpoint distinct (ks : list text) : bool :=
  match ks with
  | [] => true
  | k :: ks' => negb (existsb (text_eqb k) ks') && distinct ks'
  end.

(** an issue as the fetcher may hand it over, for examples *)
Definition named (n : string) : pyobj := PyObj [(T "name", PyStr (T n))].

Definition sample_fields : pydict :=
  [(T "summary", PyStr (T "Fix login"));
   (T "status", named "Open");
   (T "assignee", PyNone);
   (T "parent",
    PyObj [(T "key", PyStr (T "PROJ-1"));
           (T "fields", PyObj [(T "summary", PyStr (T "Epic")); (T "status", named "Done")])])].

(** [md_markup] without the emphasis marks *)
Definition md_plain_markup : ascii -> bool := one_of "`=-#.<~![|".

(** the mark [markdown_to_jira] writes for an emphasis mark *)
Definition jira_mark (mark : text) : text :=
  if length mark =? 1 then T "_" else T "*".

(** [wiki_markup] without the emphasis marks, and without the star *)
Definition wiki_plain_markup : ascii -> bool := one_of ".#-+{?^~![|".
Definition wiki_star_markup : ascii -> bool := one_of "._#-+{?^~![|".

(** the mark [jira_to_markdown] writes for an emphasis mark *)
Definition md_mark (mark : ascii) : text :=
  if text_eqb [mark] (T "*") then T "**" else T "*".

Definition starts_with_space (s : text) : bool :=
  match s with
  | c :: _ => Ascii.eqb c " "
  | [] => false
  end.

(** the characters the rules of [markdown_to_jira] other than the
    line rules and the link rule look for *)
Definition md_link_markup : ascii -> bool := one_of "`*_<~!".

(** a wiki link *)
Definition wiki_link (link_text link_url : text) : text :=
  T "[" ++ link_text ++ T "|" ++ link_url ++ T "]".

(** the characters the rules of [jira_to_markdown] that are not line
    rules look for, and the brackets and the bar of a link *)
Definition wiki_link_markup : ascii -> bool := one_of "*_{?+^~-![]|".

(** a property of a text and of every text left of it after dropping
    characters from the front *)
Fixpoint all_suffixes (P : text -> Prop) (u : text) : Prop :=
  P u /\ match u with
         | [] => True
         | _ :: t => all_suffixes P t
         end.

(** [wiki_link_markup] without the brackets and the bar *)
Definition wiki_span_markup : ascii -> bool := one_of "*_{?+^~-!".

(** the first element with a tag name among some nodes and their
    descendants, in document order *)
Fixpoint first_in (name : text) (cs : list node) : option node :=
  match cs with
  | [] => None
  | c :: cs' =>
      if is_tag name c then Some c
      else match find name c with
           | Some x => Some x
           | None => first_in name cs'
           end
  end.

(** the characters of either markup; a line feed is none of them *)
Definition both_markup : ascii -> bool := either wiki_markup md_markup.

(** a client that knows every account whose id is a number, and a cache
    filled to its bound with the accounts 0 to 99: account 0 was used
    last, account 99 is the least recently used one *)
Definition directory (id : text) : lookup_result :=
  if forallb is_digit id && negb (is_empty id) then Found (T "user " ++ id)
  else Raises (T "404").

Definition full_cache : lru :=
  map (fun n => (str_of_nat n, T "user " ++ str_of_nat n)) (seq 0 100).

Definition full_world : world := World [] [] full_cache.

(** A wiki text seen as stretches of text and code blocks: a
    [{code}] block (no language) or [{code:lang}] block, and a
    [{noformat}] block. *)
Inductive block_piece : Type :=
| Stretch (s : text)
| CodeBlock (lang content : text)
| NoFormat (content : text).

(** a fence of Markdown *)
Definition fence (lang content : text) : text :=
  T "```" ++ lang ++ [LF] ++ content ++ [LF] ++ T "```".

Definition wiki_of (p : block_piece) : text :=
  match p with
  | Stretch s => s
  | CodeBlock lang content => code_open lang ++ content ++ T "{code}"
  | NoFormat content => T "{noformat}" ++ content ++ T "{noformat}"
  end.

Definition md_of (p : block_piece) : text :=
  match p with
  | Stretch s => s
  | CodeBlock lang content => fence lang content
  | NoFormat content => fence [] content
  end.

(** a piece between the rule for [{code}] and the rule for [{noformat}] *)
Definition half_of (p : block_piece) : text :=
  match p with
  | NoFormat content => T "{noformat}" ++ content ++ T "{noformat}"
  | _ => md_of p
  end.

Definition wiki_text (ps : list block_piece) : text := concat (map wiki_of ps).
Definition md_text (ps : list block_piece) : text := concat (map md_of ps).

(** stretches and contents without markup characters, language tags of
    lower-case letters *)
Definition block_piece_ok (p : block_piece) : bool :=
  match p with
  | Stretch s => lacks wiki_markup s
  | CodeBlock lang content => forallb is_lower lang && lacks wiki_markup content
  | NoFormat content => lacks wiki_markup content
  end.







(** * Properties *)

(** ** The matcher *)

Lemma rmatch_sound r : forall k s res,
  rmatch r k s = Some res -> exists s', matches r s s' /\ k s' = Some res.
Proof.
  induction r as [ | c | p | a IHa b IHb | a IHa b IHb | gr a IHa | n a IHa | n | m | m | p ];
    intros k s res H; cbn [rmatch] in H.
  - exists s; split; [constructor | assumption].
  - destruct (rest s) as [ | x t] eqn:E; [discriminate | ].
    destruct (Ascii.eqb x c) eqn:Ex; [ | discriminate].
    apply Ascii.eqb_eq in Ex; subst x.
    exists (advance c t s); split; [now constructor | assumption].
  - destruct (rest s) as [ | x t] eqn:E; [discriminate | ].
    destruct (p x) eqn:Ex; [ | discriminate].
    exists (advance x t s); split; [now constructor | assumption].
  - apply IHa in H as (s1 & Ha & H). apply IHb in H as (s2 & Hb & H).
    exists s2; split; [econstructor; eassumption | assumption].
  - destruct (rmatch a k s) eqn:E.
    + injection H as <-. apply IHa in E as (s1 & Ha & E).
      exists s1; split; [now apply M_AltL | assumption].
    + apply IHb in H as (s1 & Hb & H).
      exists s1; split; [now apply M_AltR | assumption].
  - remember (S (length (rest s))) as fuel eqn:Ef. clear Ef.
    revert s res H. induction fuel as [ | fuel IH]; intros s res H; cbn [star_loop] in H.
    + exists s; split; [constructor | assumption].
    + assert (Hbody : forall r0,
        rmatch a (fun s' => if length (rest s') <? length (rest s)
                            then star_loop gr (rmatch a) k fuel s' else None) s = Some r0 ->
        exists s', matches (Star gr a) s s' /\ k s' = Some r0).
      { intros r0 Hb. apply IHa in Hb as (s1 & Ha & Hb).
        destruct (length (rest s1) <? length (rest s)) eqn:El; [ | discriminate].
        apply Nat.ltb_lt in El. apply IH in Hb as (s2 & Hs & Hk).
        exists s2; split; [eapply M_StarS; eassumption | assumption]. }
      destruct gr.
      * destruct (rmatch a _ s) eqn:E.
        -- injection H as <-. now apply Hbody.
        -- exists s; split; [constructor | assumption].
      * destruct (k s) eqn:E.
        -- injection H as <-. exists s; split; [constructor | assumption].
        -- now apply Hbody.
  - apply IHa in H as (s1 & Ha & H).
    eexists; split; [apply M_Grp; eassumption | assumption].
  - destruct (lookup n (caps s)) as [t | ] eqn:El; [ | discriminate].
    assert (Hb : forall t s, match_bref t k s = Some res ->
      exists s1, rest s = t ++ rest s1 /\ prev s1 = last_of t (prev s)
                 /\ caps s1 = caps s /\ k s1 = Some res).
    { clear. induction t as [ | c t IH]; intros s H; cbn [match_bref] in H.
      - exists s; repeat split; assumption.
      - destruct (rest s) as [ | x r] eqn:E; [discriminate | ].
        destruct (Ascii.eqb x c) eqn:Ex; [ | discriminate].
        apply Ascii.eqb_eq in Ex; subst x.
        apply IH in H as (s1 & H1 & H2 & H3 & H4).
        exists s1; cbn in *; repeat split; try assumption. now rewrite H1. }
    apply Hb in H as (s1 & H1 & H2 & H3 & H4).
    exists s1; split; [eapply M_Bref; eassumption | assumption].
  - destruct (at_bol m s) eqn:E; [ | discriminate].
    exists s; split; [now constructor | assumption].
  - destruct (at_eol m s) eqn:E; [ | discriminate].
    exists s; split; [now constructor | assumption].
  - destruct (prev s) as [c | ] eqn:E.
    + destruct (p c) eqn:Ep; [discriminate | ].
      exists s; split; [constructor; now rewrite E | assumption].
    + exists s; split; [constructor; now rewrite E | assumption].
Qed.

(** a match consumes a prefix of what is left *)
Lemma matches_suffix r s s' :
  matches r s s' -> exists u, rest s = u ++ rest s'.
Proof.
  induction 1; try (now exists []).
  - exists [c]. now rewrite H.
  - exists [c]. now rewrite H.
  - destruct IHmatches1 as [u1 E1], IHmatches2 as [u2 E2].
    exists (u1 ++ u2). now rewrite <- app_assoc, <- E2.
  - assumption.
  - assumption.
  - destruct IHmatches1 as [u1 E1], IHmatches2 as [u2 E2].
    exists (u1 ++ u2). now rewrite <- app_assoc, <- E2.
  - assumption.
  - now exists t.
Qed.

Lemma matches_first r s s' :
  matches r s s' ->
  (nullable r = true /\ rest s' = rest s) \/
  (exists c t, rest s = c :: t /\ first_set r c = true).
Proof.
  induction 1; cbn [nullable first_set]; try (now left).
  - right. exists c, t. split; [assumption | apply Ascii.eqb_refl].
  - right. now exists c, t.
  - destruct IHmatches1 as [[Hn Hr] | (c & t & Hr & Hf)].
    + rewrite Hn. destruct IHmatches2 as [[Hn2 Hr2] | (c & t & Hr2 & Hf)].
      * left. split; [now rewrite Hn2 | congruence].
      * right. exists c, t. split; [congruence | ].
        unfold either. rewrite Hf. apply orb_true_r.
    + right. exists c, t. split; [assumption | ].
      destruct (nullable a); [unfold either; now rewrite Hf | assumption].
  - destruct IHmatches as [[Hn Hr] | (c & t & Hr & Hf)].
    + left. now rewrite Hn.
    + right. exists c, t. unfold either. now rewrite Hf.
  - destruct IHmatches as [[Hn Hr] | (c & t & Hr & Hf)].
    + left. rewrite Hn. split; [apply orb_true_r | assumption].
    + right. exists c, t. unfold either. rewrite Hf. split; [assumption | apply orb_true_r].
  - destruct IHmatches1 as [[Hn Hr] | (c & t & Hr & Hf)].
    + rewrite Hr in H0. lia.
    + right. now exists c, t.
  - destruct IHmatches as [[Hn Hr] | (c & t & Hr & Hf)].
    + left. now split.
    + right. now exists c, t.
  - destruct t as [ | c t].
    + left. split; [reflexivity | now rewrite H0].
    + right. exists c, (t ++ rest s1). now split.
Qed.

Lemma in_all_ascii c : In c all_ascii.
Proof.
  unfold all_ascii. rewrite <- (ascii_nat_embedding c).
  apply in_map, in_seq. pose proof (nat_ascii_bounded c). lia.
Qed.

Lemma subclass_spec p q c : subclass p q = true -> p c = true -> q c = true.
Proof.
  unfold subclass. rewrite forallb_forall. intros H Hp.
  specialize (H c (in_all_ascii c)). now rewrite Hp in H.
Qed.

Lemma matches_needs P r s s' :
  matches r s s' -> needs P r = true ->
  exists c, In c (rest s) /\ P c = true.
Proof.
  induction 1; cbn [needs]; intros Hn; try discriminate.
  - exists c. rewrite H. split; [now left | assumption].
  - exists c. rewrite H. split; [now left | eapply subclass_spec; eassumption].
  - apply orb_true_iff in Hn as [Hn | Hn].
    + now apply IHmatches1.
    + destruct (IHmatches2 Hn) as (c & Hc & HP).
      destruct (matches_suffix H) as [u Hu].
      exists c. split; [ | assumption]. rewrite Hu. apply in_or_app. now right.
  - apply andb_true_iff in Hn as [Hn _]. now apply IHmatches.
  - apply andb_true_iff in Hn as [_ Hn]. now apply IHmatches.
  - now apply IHmatches.
Qed.

Lemma matches_anchored r s s' :
  matches r s s' -> anchored r = true -> at_bol true s = true.
Proof.
  induction 1; cbn [anchored]; intros Hn; try discriminate; auto.
  destruct m; [assumption | ].
  unfold at_bol in *. destruct (prev s); [discriminate | reflexivity].
Qed.

(** ** Ruling matches out *)

Lemma match_at_Some r pv rs m :
  match_at r pv rs = Some m ->
  exists s', matches r (MState pv rs []) s' /\
             m = Match (consumed (MState pv rs []) s') (caps s').
Proof.
  unfold match_at. destruct (rmatch r Some (MState pv rs [])) as [s1 | ] eqn:E; [ | discriminate].
  intros [= <-]. apply rmatch_sound in E as (s' & Hm & [= ->]). now exists s1.
Qed.

Lemma match_at_none_first r pv c t :
  nullable r = false -> first_set r c = false -> match_at r pv (c :: t) = None.
Proof.
  intros Hn Hf. destruct (match_at r pv (c :: t)) as [m | ] eqn:E; [ | reflexivity].
  apply match_at_Some in E as (s' & Hm & _).
  apply matches_first in Hm as [[Hn' _] | (c' & t' & Hr & Hf')].
  - congruence.
  - cbn in Hr. injection Hr as <- <-. congruence.
Qed.

Lemma match_at_none_nil r pv :
  nullable r = false -> match_at r pv [] = None.
Proof.
  intros Hn. destruct (match_at r pv []) as [m | ] eqn:E; [ | reflexivity].
  apply match_at_Some in E as (s' & Hm & _).
  apply matches_first in Hm as [[Hn' _] | (c' & t' & Hr & Hf')].
  - congruence.
  - discriminate.
Qed.

Lemma match_at_none_needs P r pv rs :
  needs P r = true -> Forall (fun c => P c = false) rs -> match_at r pv rs = None.
Proof.
  intros Hn Hf. destruct (match_at r pv rs) as [m | ] eqn:E; [ | reflexivity].
  apply match_at_Some in E as (s' & Hm & _).
  apply (matches_needs P) in Hm as (c & Hc & HP); [ | assumption].
  rewrite Forall_forall in Hf. cbn in Hc. apply Hf in Hc. congruence.
Qed.

Lemma match_at_none_anchored r x rs :
  anchored r = true -> x <> LF -> match_at r (Some x) rs = None.
Proof.
  intros Ha Hx. destruct (match_at r (Some x) rs) as [m | ] eqn:E; [ | reflexivity].
  apply match_at_Some in E as (s' & Hm & _).
  apply matches_anchored in Hm; [ | assumption].
  cbn in Hm. apply Ascii.eqb_eq in Hm. contradiction.
Qed.

Lemma last_of_app a b pv : last_of (a ++ b) pv = last_of b (last_of a pv).
Proof. revert pv. induction a as [ | c a IH]; intros pv; cbn; [reflexivity | apply IH]. Qed.

Lemma quiet_nil r pv b : quiet r pv [] b.
Proof. intros a1 c a2 H. now destruct a1. Qed.

Lemma quiet_cons r pv c a b :
  match_at r pv (c :: a ++ b) = None -> quiet r (Some c) a b -> quiet r pv (c :: a) b.
Proof.
  intros H0 H a1 x a2 E. destruct a1 as [ | y a1]; cbn in E; injection E as <- ->.
  - exact H0.
  - cbn. now apply H.
Qed.

Lemma quiet_tail r pv c a b : quiet r pv (c :: a) b -> quiet r (Some c) a b.
Proof. intros H a1 x a2 E. apply (H (c :: a1) x a2). now rewrite E. Qed.

Lemma quiet_head r pv c a b : quiet r pv (c :: a) b -> match_at r pv (c :: a ++ b) = None.
Proof. intros H. exact (H [] c a eq_refl). Qed.

Lemma quiet_app r pv a1 a2 b :
  quiet r pv a1 (a2 ++ b) -> quiet r (last_of a1 pv) a2 b -> quiet r pv (a1 ++ a2) b.
Proof.
  revert pv. induction a1 as [ | c a1 IH]; intros pv H1 H2; cbn in *.
  - assumption.
  - apply quiet_cons.
    + rewrite <- app_assoc. now apply quiet_head.
    + apply IH; [now apply quiet_tail in H1 | assumption].
Qed.

Lemma quiet_first r pv a b :
  nullable r = false -> Forall (fun c => first_set r c = false) a -> quiet r pv a b.
Proof.
  intros Hn Hf a1 c a2 ->. apply match_at_none_first; [assumption | ].
  rewrite Forall_forall in Hf. apply Hf, in_or_app. right. now left.
Qed.

Lemma quiet_needs P r pv a b :
  needs P r = true -> Forall (fun c => P c = false) (a ++ b) -> quiet r pv a b.
Proof.
  intros Hn Hf a1 c a2 ->. apply (match_at_none_needs P); [assumption | ].
  rewrite Forall_forall in *. intros x Hx. apply Hf.
  rewrite <- app_assoc. apply in_or_app. right. exact Hx.
Qed.

Lemma last_of_not x a pv :
  Forall (fun c => c <> x) a -> pv <> Some x -> last_of a pv <> Some x.
Proof.
  revert pv. induction a as [ | c a IH]; intros pv Hf Hp; cbn; [assumption | ].
  inversion Hf; subst. apply IH; [assumption | congruence].
Qed.

(** inside a text without line feed no [^] pattern matches, the first
    position apart *)
Lemma quiet_anchored r x a b :
  anchored r = true -> x <> LF -> Forall (fun c => c <> LF) a -> quiet r (Some x) a b.
Proof.
  intros Ha Hx Hf a1 c a2 ->.
  destruct (last_of a1 (Some x)) as [y | ] eqn:E.
  - apply match_at_none_anchored; [assumption | ].
    intros ->. revert E. apply last_of_not; [ | congruence].
    rewrite Forall_forall in *. intros z Hz. apply Hf, in_or_app. now left.
  - exfalso. revert E. clear. revert x. induction a1; intros x; cbn; [discriminate | apply IHa1].
Qed.

(** ** [re.sub] *)

Lemma sub_from_quiet r f pv a b :
  quiet r pv a b -> sub_from r f pv (a ++ b) 0 = a ++ sub_from r f (last_of a pv) b 0.
Proof.
  revert pv. induction a as [ | c a IH]; intros pv H; cbn [app last_of].
  - reflexivity.
  - cbn [sub_from]. rewrite (quiet_head H). f_equal. apply IH. now apply quiet_tail in H.
Qed.

Lemma sub_from_end r f pv : match_at r pv [] = None -> sub_from r f pv [] 0 = [].
Proof. intros H. cbn. now rewrite H. Qed.

Lemma sub_from_skip r f pv a b :
  sub_from r f pv (a ++ b) (length a) = sub_from r f (last_of a pv) b 0.
Proof.
  revert pv. induction a as [ | c a IH]; intros pv; cbn [app last_of length].
  - reflexivity.
  - cbn [sub_from]. apply IH.
Qed.

(** a match that covers [a], at the position before [a ++ b] *)
Lemma sub_from_match r f pv a b m :
  a <> [] -> match_at r pv (a ++ b) = Some m -> m_all m = a ->
  sub_from r f pv (a ++ b) 0 = f m ++ sub_from r f (last_of a pv) b 0.
Proof.
  intros Ha Hm Hall. destruct a as [ | c a]; [contradiction | ].
  cbn [app sub_from]. cbn [app] in Hm. rewrite Hm, Hall. cbn [length last_of].
  f_equal. apply sub_from_skip.
Qed.

Lemma sub_quiet r f s :
  quiet r None s [] -> match_at r (last_of s None) [] = None -> sub r f s = s.
Proof.
  intros H He. unfold sub. rewrite <- (app_nil_r s) at 1.
  rewrite sub_from_quiet by assumption. rewrite sub_from_end by assumption.
  apply app_nil_r.
Qed.

(** a text without any of the characters a pattern needs is left as it is *)
Lemma sub_needs P r f s :
  needs P r = true -> Forall (fun c => P c = false) s -> sub r f s = s.
Proof.
  intros Hn Hf. apply sub_quiet.
  - apply (quiet_needs P); [assumption | now rewrite app_nil_r].
  - apply (match_at_none_needs P); [assumption | constructor].
Qed.

(** ** Texts, lines and the table loops *)

Lemma lacks_Forall P s : lacks P s = true <-> Forall (fun c => P c = false) s.
Proof.
  unfold lacks. rewrite forallb_forall, Forall_forall.
  split; intros H c Hc; specialize (H c Hc); now destruct (P c).
Qed.

Lemma lacks_app P a b : lacks P (a ++ b) = lacks P a && lacks P b.
Proof. apply forallb_app. Qed.

Lemma lacks_cons P c s : lacks P (c :: s) = true -> P c = false /\ lacks P s = true.
Proof.
  intros H. cbn in H. apply andb_true_iff in H as [Hc Hs].
  now apply negb_true_iff in Hc.
Qed.

Lemma lacks_sub P Q s : subclass P Q = true -> lacks Q s = true -> lacks P s = true.
Proof.
  intros Hs. rewrite !lacks_Forall. apply Forall_impl. intros c Hq.
  destruct (P c) eqn:E; [ | reflexivity].
  apply (subclass_spec _ _ _ Hs) in E. congruence.
Qed.

Lemma join_cons sep p q ps : join sep (p :: q :: ps) = p ++ sep ++ join sep (q :: ps).
Proof. reflexivity. Qed.

Lemma split_not_nil sep s : split sep s <> [].
Proof.
  destruct s as [ | c s]; cbn [split]; [discriminate | ].
  destruct (Ascii.eqb c sep); [discriminate | ].
  destruct (split sep s); discriminate.
Qed.

Lemma join_split s : join [LF] (split LF s) = s.
Proof.
  induction s as [ | c s IH]; [reflexivity | ].
  cbn [split]. pose proof (split_not_nil LF s) as Hne.
  destruct (split LF s) as [ | h r] eqn:Es; [contradiction | ].
  destruct (Ascii.eqb c LF) eqn:E.
  - apply Ascii.eqb_eq in E; subst c.
    rewrite join_cons, IH. reflexivity.
  - destruct r as [ | q r].
    + cbn [join] in *. now rewrite IH.
    + rewrite <- IH. reflexivity.
Qed.

Lemma split_lacks P sep s :
  lacks P s = true -> Forall (fun l => lacks P l = true) (split sep s).
Proof.
  induction s as [ | c s IH]; intros H.
  - repeat constructor.
  - cbn in H. apply andb_true_iff in H as [Hc Hs]. specialize (IH Hs).
    cbn [split]. destruct (Ascii.eqb c sep).
    + constructor; [now cbn | assumption].
    + destruct (split sep s) as [ | h r]; [repeat constructor; cbn; now rewrite Hc | ].
      inversion IH; subst. constructor; [cbn; now rewrite Hc | assumption].
Qed.

Lemma contains_lacks P old s :
  match old with c :: _ => P c = true | [] => False end ->
  lacks P s = true -> contains old s = false.
Proof.
  destruct old as [ | o old]; [contradiction | ]. intros Ho.
  induction s as [ | c s IH]; intros H; [reflexivity | ].
  cbn in H. apply andb_true_iff in H as [Hc Hs].
  cbn [contains starts_with]. rewrite (IH Hs), orb_false_r.
  destruct (Ascii.eqb o c) eqn:E; [ | reflexivity].
  apply Ascii.eqb_eq in E; subst. now rewrite Ho in Hc.
Qed.

Lemma j2m_table_loop_quiet fuel lines i :
  Forall (fun l => contains (T "||") l = false) lines ->
  j2m_table_loop fuel lines i = lines.
Proof.
  intros Hf. revert i. induction fuel as [ | fuel IH]; intros i; [reflexivity | ].
  cbn [j2m_table_loop]. destruct (i <? length lines) eqn:Ei; [ | reflexivity].
  apply Nat.ltb_lt in Ei. rewrite Forall_forall in Hf.
  rewrite (Hf (nth i lines [])) by now apply nth_In. apply IH.
Qed.

Lemma m2j_table_loop_quiet fuel lines i :
  Forall (fun l => re_match M2J.separator_row l = None) lines ->
  m2j_table_loop fuel lines i = lines.
Proof.
  intros Hf. revert i. induction fuel as [ | fuel IH]; intros i; [reflexivity | ].
  cbn [m2j_table_loop]. destruct (i <? length lines) eqn:Ei; [ | reflexivity].
  destruct (i <? length lines - 1) eqn:Ej; cbn [andb]; [ | apply IH].
  apply Nat.ltb_lt in Ej. rewrite Forall_forall in Hf.
  rewrite (Hf (nth (i + 1) lines [])) by (apply nth_In; lia). apply IH.
Qed.

(** a text without [|] goes through the table step of
    [jira_to_markdown] as it is *)
Lemma j2m_tables_lacks s :
  lacks (just "|") s = true -> join [LF] (j2m_tables (split LF s)) = s.
Proof.
  intros H. unfold j2m_tables. rewrite j2m_table_loop_quiet; [apply join_split | ].
  eapply Forall_impl; [ | apply split_lacks, H].
  intros l Hl. now apply (contains_lacks (just "|")).
Qed.

Lemma sub_lacks P r f s :
  needs P r = true -> lacks P s = true -> sub r f s = s.
Proof. intros Hn Hl. apply (sub_needs P); [assumption | now apply lacks_Forall]. Qed.

(** ** jira_to_markdown on text without markup *)

(** rewrite the innermost [sub] whose text lacks what its pattern needs *)
Ltac sub_pass P H :=
  match goal with
  | |- context [sub ?r ?f ?s] =>
      lazymatch s with
      | context [sub _ _ _] => fail
      | _ => rewrite (@sub_lacks P r f s) by first [exact H | vm_compute; reflexivity]
      end
  end.

Lemma jira_to_markdown_plain y :
  lacks wiki_markup y = true -> jira_to_markdown y = y.
Proof.
  intros H. unfold jira_to_markdown. destruct y as [ | c y]; [reflexivity | ].
  cbn [is_empty]. cbv zeta.
  repeat sub_pass wiki_markup H.
  apply j2m_tables_lacks. revert H. apply lacks_sub. vm_compute; reflexivity.
Qed.

(** ** Running a repetition over a known stretch of text *)

Arguments rmatch !r k !s /.

Lemma rmatch_Cls_cons p k pv c t cs :
  rmatch (Cls p) k (MState pv (c :: t) cs)
  = if p c then k (MState (Some c) t cs) else None.
Proof. reflexivity. Qed.

Lemma rmatch_Cls_nil p k pv cs : rmatch (Cls p) k (MState pv [] cs) = None.
Proof. reflexivity. Qed.

Lemma star_lazy_hit body k n s :
  k s <> None -> star_loop false body k n s = k s.
Proof. intros H. destruct n; cbn [star_loop]; [reflexivity | ]. now destruct (k s). Qed.

Lemma ltb_S n : (n <? S n) = true.
Proof. apply Nat.ltb_lt. lia. Qed.

(** A lazy repetition of a class walks over [u] when what follows the
    repetition fails at every character of [u]. *)
Lemma star_lazy_scan p k u : forall v pv cs n,
  Forall (fun c => p c = true) u ->
  (forall c pv' t, In c u -> k (MState pv' (c :: t) cs) = None) ->
  k (MState (last_of u pv) v cs) <> None ->
  length u <= n ->
  star_loop false (rmatch (Cls p)) k n (MState pv (u ++ v) cs)
  = k (MState (last_of u pv) v cs).
Proof.
  induction u as [ | c u IH]; intros v pv cs n Hp Hk Hr Hn.
  - now apply star_lazy_hit.
  - destruct n as [ | n]; [cbn in Hn; lia | ].
    cbn [star_loop app]. rewrite (Hk c pv (u ++ v) (or_introl eq_refl)).
    inversion Hp; subst. rewrite rmatch_Cls_cons, H1.
    cbn [rest length]. rewrite ltb_S.
    apply IH; try assumption.
    + intros c' pv' t Hc. apply Hk. now right.
    + cbn in Hn. lia.
Qed.

(** A greedy repetition of a class takes all of [u] when [u] ends where
    the class ends and what follows the repetition succeeds there. *)
Lemma star_greedy_max p k u : forall v pv cs n,
  Forall (fun c => p c = true) u ->
  match v with [] => True | c :: _ => p c = false end ->
  k (MState (last_of u pv) v cs) <> None ->
  length u <= n ->
  star_loop true (rmatch (Cls p)) k n (MState pv (u ++ v) cs)
  = k (MState (last_of u pv) v cs).
Proof.
  induction u as [ | c u IH]; intros v pv cs n Hp Hv Hr Hn.
  - cbn [app last_of] in *. destruct n; cbn [star_loop]; [reflexivity | ].
    destruct v as [ | x v]; [now rewrite rmatch_Cls_nil | ].
    now rewrite rmatch_Cls_cons, Hv.
  - destruct n as [ | n]; [cbn in Hn; lia | ].
    cbn [star_loop app]. inversion Hp; subst. rewrite rmatch_Cls_cons, H1.
    cbn [rest length]. rewrite ltb_S.
    rewrite (IH v (Some c) cs n); try assumption; [ | cbn in Hn; lia].
    cbn [last_of] in *. now destruct (k _).
Qed.

Lemma consumed_app pv u v cs pv' cs' :
  consumed (MState pv (u ++ v) cs) (MState pv' v cs') = u.
Proof.
  unfold consumed. cbn [rest]. rewrite length_app.
  replace (length u + length v - length v) with (length u) by lia.
  rewrite firstn_app, Nat.sub_diag, firstn_all. cbn. apply app_nil_r.
Qed.

Lemma lacks_In P s c : lacks P s = true -> In c s -> P c = false.
Proof. rewrite lacks_Forall, Forall_forall. auto. Qed.

Lemma lacks_not_in P s :
  lacks P s = true -> Forall (fun c => not_in P c = true) s.
Proof.
  rewrite lacks_Forall. apply Forall_impl. intros c H. unfold not_in. now rewrite H.
Qed.

(** ** Mentions *)

Lemma consumed_eq u s0 s1 : rest s0 = u ++ rest s1 -> consumed s0 s1 = u.
Proof.
  destruct s0 as [pv0 r0 c0], s1 as [pv1 r1 c1]. cbn [rest]. intros ->.
  apply consumed_app.
Qed.

(** settle [consumed s0 s1 = u] when the texts are written out *)
Ltac consumed_tac :=
  apply consumed_eq; cbn [rest advance app];
  repeat first [rewrite <- app_assoc | rewrite app_nil_r | progress (cbn [app])];
  reflexivity.

Lemma mention_pattern_match pv id post :
  lacks (either (just "]") (just LF)) id = true ->
  match_at mention_pattern pv (mention_token id ++ post)
  = Some (Match (mention_token id) [(1, id)]).
Proof.
  intros H. unfold match_at, mention_pattern, mention_token.
  cbn -[star_loop consumed]. rewrite <- app_assoc.
  rewrite star_lazy_scan.
  - cbn -[consumed]. f_equal. f_equal; [consumed_tac | ].
    f_equal. f_equal. consumed_tac.
  - eapply Forall_impl; [ | apply lacks_not_in, H].
    intros c. unfold not_in, either, dot, not_in. intros Hc.
    destruct (just "]" c); [discriminate | exact Hc].
  - intros c pv' t Hc. cbn. apply (lacks_In _ _ _ H) in Hc.
    unfold either, just in Hc. destruct (Ascii.eqb c "]"); [discriminate | reflexivity].
  - cbn. discriminate.
  - rewrite length_app. lia.
Qed.

(** ** Falsy input *)

(** C10: on the empty text (the falsy string) [clean_jira_text],
    [jira_to_markdown] and [markdown_to_jira] return the empty text;
    [clean_jira_text] does so without any external lookup, log record or
    change of the cache. *)
Theorem falsy_input_gives_empty
    (jira_user : text -> lookup_result) (html_to_markdown : text -> option text)
    (base_url txt : text) (w : world) :
  is_empty txt = true ->
  clean_jira_text jira_user html_to_markdown base_url (Some txt) w = (Returns [], w)
  /\ clean_jira_text jira_user html_to_markdown base_url None w = (Returns [], w)
  /\ jira_to_markdown txt = []
  /\ markdown_to_jira txt = [].
Proof.
  intros H. destruct txt as [ | c t]; [ | discriminate]. repeat split.
Qed.

Lemma falsy_input_gives_empty_witness :
  clean_jira_text (fun _ => Raises []) (fun _ => None) (T "https://host") (Some (T "")) new_world
    = (Returns [], new_world)
  /\ clean_jira_text (fun _ => Raises []) (fun _ => None) (T "https://host") None new_world
    = (Returns [], new_world)
  /\ jira_to_markdown (T "") = []
  /\ markdown_to_jira (T "") = [].
Proof.
  apply (falsy_input_gives_empty (fun _ => Raises []) (fun _ => None)
           (T "https://host") (T "") new_world).
  reflexivity.
Defined.

(** ** Code spans in markdown_to_jira *)

(** C1: the text of an inline code span is rewritten by the emphasis
    rule, and the text of a fenced block by the emphasis and header
    rules, after [save_inline_code] and [save_code_block] have put the
    span back into the output. *)
Theorem code_span_is_rewritten :
  markdown_to_jira (T "`a*b*c`") = T "{{a_b_c}}"
  /\ markdown_to_jira (T "```python" ++ [LF] ++ T "x = a*b*c" ++ [LF]
                         ++ T "# note" ++ [LF] ++ T "```")
     = T "{code:python}x = a_b_c" ++ [LF] ++ T "h1. note" ++ [LF] ++ T "{code}".
Proof. split; vm_compute; reflexivity. Qed.

(** ** The user cache *)

Lemma text_eqb_eq a b : text_eqb a b = true <-> a = b.
Proof.
  revert b. induction a as [ | x a IH]; intros [ | y b]; cbn; try (split; congruence).
  rewrite andb_true_iff, Ascii.eqb_eq, IH. split; [intros [-> ->]; reflexivity | ].
  intros [= -> ->]. now split.
Qed.

Lemma text_eqb_refl a : text_eqb a a = true.
Proof. now apply text_eqb_eq. Qed.

Lemma lru_remove_length key c v :
  lru_find key c = Some v -> S (length (lru_remove key c)) = length c.
Proof.
  induction c as [ | [k u] c IH]; cbn; [discriminate | ].
  destruct (text_eqb key k); [reflexivity | ].
  intros H. cbn. now rewrite IH.
Qed.

(** a hit of [_find_user] returns the stored user and makes no lookup *)
Lemma find_user_hit jira_user id u w :
  lru_find id (user_cache w) = Some u ->
  exists w', _find_user jira_user id w = (Returns u, w')
             /\ lookups w' = lookups w
             /\ length (user_cache w') = length (user_cache w).
Proof.
  intros H. unfold _find_user, cached_find_user. rewrite H.
  eexists; split; [reflexivity | ]. cbn. split; [reflexivity | ].
  eapply lru_remove_length, H.
Qed.

(** a miss makes one lookup and, when it succeeds, stores the user *)
Lemma find_user_miss jira_user id d w :
  lru_find id (user_cache w) = None -> jira_user id = Found d ->
  exists w', _find_user jira_user id w = (Returns d, w')
             /\ lookups w' = id :: lookups w
             /\ lru_find id (user_cache w') = Some d.
Proof.
  intros H Hd. unfold _find_user, cached_find_user, bind, log, client_user.
  rewrite H. cbn. rewrite Hd. eexists; split; [reflexivity | ].
  cbn. now rewrite text_eqb_refl.
Qed.

(** a failed lookup propagates and stores nothing *)
Lemma find_user_raises jira_user id e w :
  lru_find id (user_cache w) = None -> jira_user id = Raises e ->
  exists w', _find_user jira_user id w = (Throws e, w')
             /\ lookups w' = id :: lookups w
             /\ user_cache w' = user_cache w.
Proof.
  intros H He. unfold _find_user, cached_find_user, bind, log, client_user.
  rewrite H. cbn. rewrite He. eexists; split; [reflexivity | ]. now cbn.
Qed.

(** the cache never holds more than 100 entries *)
Lemma find_user_bound jira_user id w :
  length (user_cache w) <= 100 ->
  length (user_cache (snd (_find_user jira_user id w))) <= 100.
Proof.
  intros H. unfold _find_user, cached_find_user, bind, log, client_user.
  destruct (lru_find id (user_cache w)) as [u | ] eqn:E.
  - cbn. apply lru_remove_length in E. lia.
  - destruct (jira_user id); cbn -[lru_store]; [ | assumption].
    unfold lru_store. rewrite length_firstn. lia.
Qed.

(** [_process_mentions] makes one external lookup for every mention
    found, in order, and leaves the cache alone. *)
Lemma mentions_loop_world jira_user ids : forall txt w,
  let w' := snd (mentions_loop jira_user ids txt w) in
  lookups w' = rev ids ++ lookups w /\ user_cache w' = user_cache w.
Proof.
  induction ids as [ | id ids IH]; intros txt w; [now cbn | ].
  cbn [mentions_loop]. unfold bind at 1, try_except, bind, client_user, log, ret.
  destruct (jira_user id) as [d | e]; cbn -[mentions_loop replace];
    match goal with |- context [mentions_loop _ _ ?t ?w0] => destruct (IH t w0) as [H1 H2] end;
    cbn -[mentions_loop replace] in H1, H2; rewrite H1, H2; cbn [lookups user_cache rev];
    rewrite <- app_assoc; now cbn.
Qed.

(** C3: [_process_mentions] asks [jira_client.user] once for every
    mention it finds and never goes through the cache: the same account
    id mentioned twice costs two external lookups, where two calls of
    [_find_user] cost one. *)
Theorem mentions_do_not_use_the_cache :
  (forall jira_user txt w,
     let w' := snd (_process_mentions jira_user txt mention_pattern w) in
     lookups w' = rev (findall1 mention_pattern txt) ++ lookups w
     /\ user_cache w' = user_cache w)
  /\ (let w' := snd (_process_mentions ada (T "[~accountid:42] and [~accountid:42]")
                       mention_pattern new_world) in
      lookups w' = [T "42"; T "42"] /\ user_cache w' = [])
  /\ (let w' := snd ((_find_user ada (T "42") ;;; _find_user ada (T "42")) new_world) in
      lookups w' = [T "42"]).
Proof.
  split; [ | split].
  - intros jira_user txt w. apply mentions_loop_world.
  - vm_compute. split; reflexivity.
  - vm_compute. reflexivity.
Qed.

(** ** Applying jira_to_markdown to Markdown *)

(** C6, as stated, fails: [**bold**] is what the converter gives for
    [*bold*], and the converter changes it again. *)
Lemma converter_output_is_not_fixed :
  jira_to_markdown (T "*bold*") = T "**bold**"
  /\ jira_to_markdown (T "**bold**") <> T "**bold**".
Proof. split; vm_compute; [reflexivity | discriminate]. Qed.

(** C6, amended: a text in which none of the characters
    [. * _ # - + { ? ^ ~ ! [ |] occurs comes back from
    [jira_to_markdown] as it is. *)
Theorem text_without_markup_is_fixed y :
  lacks wiki_markup y = true -> jira_to_markdown y = y.
Proof. apply jira_to_markdown_plain. Qed.

Lemma text_without_markup_is_fixed_witness :
  jira_to_markdown (T "Plain words, (two) lines:" ++ [LF] ++ T "`x` <b>y</b> = 2 > 1")
  = T "Plain words, (two) lines:" ++ [LF] ++ T "`x` <b>y</b> = 2 > 1".
Proof.
  apply (text_without_markup_is_fixed
           (T "Plain words, (two) lines:" ++ [LF] ++ T "`x` <b>y</b> = 2 > 1")).
  vm_compute. reflexivity.
Defined.

(** ** The table step of jira_to_markdown *)

Lemma nth_middle_text (done : list text) x todo :
  nth (length done) (done ++ x :: todo) [] = x.
Proof. induction done; cbn; [reflexivity | assumption]. Qed.

Lemma set_nth_middle (done : list text) x v todo :
  set_nth (length done) v (done ++ x :: todo) = done ++ v :: todo.
Proof. induction done as [ | d done IH]; cbn; [reflexivity | now rewrite IH]. Qed.

Lemma insert_at_middle (done : list text) x v todo :
  insert_at (length done + 1) v (done ++ x :: todo) = done ++ x :: v :: todo.
Proof. induction done as [ | d done IH]; cbn; [reflexivity | now rewrite IH]. Qed.

(** The loop, started behind the lines already done and with enough
    fuel for the lines to do, treats every line once. *)
Lemma j2m_table_loop_rows todo : forall fuel done,
  length todo <= fuel ->
  j2m_table_loop fuel (done ++ todo) (length done) = done ++ flat_map table_row todo.
Proof.
  induction todo as [ | x todo IH]; intros fuel done Hf.
  - cbn [flat_map]. rewrite app_nil_r.
    destruct fuel; cbn [j2m_table_loop]; [reflexivity | ].
    now rewrite Nat.ltb_irrefl.
  - destruct fuel as [ | fuel]; [cbn in Hf; lia | ].
    cbn [j2m_table_loop flat_map]. cbn [length] in Hf.
    replace (length done <? length (done ++ x :: todo)) with true
      by (symmetry; apply Nat.ltb_lt; rewrite length_app; cbn; lia).
    rewrite nth_middle_text. unfold table_row at 1.
    destruct (contains (T "||") x).
    + rewrite set_nth_middle, nth_middle_text.
      set (conv := replace (T "||") (T "|") x).
      destruct (1 <? count (T "|") conv) eqn:E.
      * apply Nat.ltb_lt in E.
        replace (0 <? Z.of_nat (count (T "|") conv) - 1)%Z with true
          by (symmetry; apply Z.ltb_lt; lia).
        rewrite insert_at_middle.
        replace (Z.to_nat (Z.of_nat (count (T "|") conv) - 1)) with (count (T "|") conv - 1) by lia.
        set (sep := T "|" ++ times (T "---|") (count (T "|") conv - 1)).
        change (done ++ conv :: sep :: todo) with (done ++ [conv; sep] ++ todo).
        rewrite app_assoc.
        replace (length done + 1 + 1) with (length (done ++ [conv; sep]))
          by (rewrite length_app; cbn; lia).
        rewrite IH by lia. now rewrite <- app_assoc.
      * apply Nat.ltb_ge in E.
        replace (0 <? Z.of_nat (count (T "|") conv) - 1)%Z with false
          by (symmetry; apply Z.ltb_ge; lia).
        change (done ++ conv :: todo) with (done ++ [conv] ++ todo).
        rewrite app_assoc.
        replace (length done + 1) with (length (done ++ [conv]))
          by (rewrite length_app; cbn; lia).
        rewrite IH by lia. now rewrite <- app_assoc.
    + change (done ++ x :: todo) with (done ++ [x] ++ todo).
      rewrite app_assoc.
      replace (length done + 1) with (length (done ++ [x]))
        by (rewrite length_app; cbn; lia).
      rewrite IH by lia. now rewrite <- app_assoc.
Qed.

(** C7, as stated, fails: a line with [||] whose converted form has a
    single [|] gets no separator row. *)
Lemma single_bar_gets_no_separator :
  contains (T "||") (T "a||b") = true
  /\ jira_to_markdown (T "a||b") = T "a|b".
Proof. split; vm_compute; reflexivity. Qed.

(** C7, amended: the table step replaces the occurrences of [||] in
    every line that has one by [|]; when the converted line has n > 1
    characters [|] it puts the row made of [|] and n - 1 times [---|]
    right below it, once, and goes on behind that row; no other line is
    changed or added.  Any fuel from the number of lines on gives this
    result. [||Col1||Col2||] becomes [|Col1|Col2|] followed by
    [|---|---|]. *)
Theorem table_rows_get_one_separator (lines : list text) (fuel : nat) :
  length lines <= fuel ->
  j2m_table_loop fuel lines 0 = flat_map table_row lines
  /\ j2m_tables lines = flat_map table_row lines
  /\ jira_to_markdown (T "||Col1||Col2||") = T "|Col1|Col2|" ++ [LF] ++ T "|---|---|".
Proof.
  intros H. split; [ | split].
  - now apply (@j2m_table_loop_rows lines fuel []).
  - now apply (@j2m_table_loop_rows lines (length lines) []).
  - vm_compute. reflexivity.
Qed.

Lemma table_rows_get_one_separator_witness :
  j2m_table_loop 3 [T "||a||b||"; T "|1|2|"; T "x||y"] 0
    = flat_map table_row [T "||a||b||"; T "|1|2|"; T "x||y"]
  /\ j2m_tables [T "||a||b||"; T "|1|2|"; T "x||y"]
    = flat_map table_row [T "||a||b||"; T "|1|2|"; T "x||y"]
  /\ jira_to_markdown (T "||Col1||Col2||") = T "|Col1|Col2|" ++ [LF] ++ T "|---|---|".
Proof.
  apply (@table_rows_get_one_separator [T "||a||b||"; T "|1|2|"; T "x||y"] 3).
  cbn. lia.
Defined.

(** ** The HTML mention resolver *)

Lemma node_induction (P : node -> Prop) :
  (forall s, P (Text s)) ->
  (forall nm at_ cs, Forall P cs -> P (Elem nm at_ cs)) ->
  forall n, P n.
Proof.
  intros HT HE. fix IH 1. intros [s | nm at_ cs]; [apply HT | ].
  apply HE. induction cs as [ | c cs IHcs]; constructor; [apply IH | exact IHcs].
Qed.

Lemma resolve_Elem nm at_ cs :
  resolve (Elem nm at_ cs) = Elem nm at_ (map resolve_child cs).
Proof. reflexivity. Qed.

Lemma children_from_paths f i cs :
  Forall (fun pd => fst pd <> []) (children_from f i cs).
Proof.
  revert i. induction cs as [ | c cs IH]; intros i; cbn [children_from]; constructor.
  - discriminate.
  - apply Forall_app. split; [ | apply IH].
    apply Forall_forall. intros pd Hin. apply in_map_iff in Hin as (q & <- & _). discriminate.
Qed.

Lemma find_all_paths name n : Forall (fun pd => fst pd <> []) (find_all name n).
Proof.
  unfold find_all. apply Forall_forall. intros pd Hin. apply filter_In in Hin as [Hin _].
  revert pd Hin. apply Forall_forall. destruct n; cbn [descendants]; [constructor | ].
  apply children_from_paths.
Qed.

(** an iteration returns, with the tree [replaced] gives *)
Lemma mention_step_returns soup found w :
  fst found <> [] -> mention_step soup found w = (Returns (replaced soup found), w).
Proof.
  destruct found as [p e]. cbn [fst]. intros Hp.
  unfold mention_step, replaced, mention_account. cbn [fst snd]. cbv zeta.
  destruct (account_id_of (find (T "ri:user") e)) as [account_id | ].
  - unfold _replace_user_mention, try_except, _use_fallback_user_mention, replace_with.
    destruct p; [contradiction | reflexivity].
  - destruct (find (T "ac:link-body") e) as [[s | nm at_ cs] | ]; try reflexivity.
    destruct (contains _ _); reflexivity.
Qed.

Lemma mention_elements_loop_returns found : forall soup w,
  Forall (fun pd => fst pd <> []) found ->
  mention_elements_loop found soup w = (Returns (fold_left replaced found soup), w).
Proof.
  induction found as [ | f found IH]; intros soup w H; [reflexivity | ].
  inversion H; subst. cbn [mention_elements_loop fold_left]. unfold bind.
  rewrite mention_step_returns by assumption. now apply IH.
Qed.

Lemma update_child_middle f (pre : list node) c cs :
  update_child (length pre) f (pre ++ c :: cs) = pre ++ f c :: cs.
Proof. induction pre as [ | x pre IH]; cbn; [reflexivity | now rewrite IH]. Qed.

(** replacements below child number [i] stay in that child *)
Lemma fold_replaced_under nm at_ pre cs found : forall c,
  fold_left replaced (map (under (length pre)) found) (Elem nm at_ (pre ++ c :: cs))
  = Elem nm at_ (pre ++ fold_left replaced found c :: cs).
Proof.
  induction found as [ | [p e] found IH]; intros c; [reflexivity | ].
  cbn [map fold_left]. unfold replaced at 2 4, under. cbn [fst snd].
  destruct (mention_account e) as [account_id | ]; [ | apply IH].
  cbn [replace_at]. rewrite update_child_middle. apply IH.
Qed.

(** replacements below a string do nothing *)
Lemma fold_replaced_detached found : forall s,
  Forall (fun pd => fst pd <> []) found ->
  fold_left replaced found (Text s) = Text s.
Proof.
  induction found as [ | [p e] found IH]; intros s H; [reflexivity | ].
  inversion H; subst. cbn [fold_left]. unfold replaced at 2. cbn [fst snd] in *.
  destruct (mention_account e); [ | now apply IH].
  destruct p; [contradiction | ]. cbn [replace_at]. now apply IH.
Qed.

Lemma filter_under (f : path * node -> bool) i l :
  (forall pd, f (under i pd) = f pd) ->
  filter f (map (under i) l) = map (under i) (filter f l).
Proof.
  intros H. induction l as [ | pd l IH]; [reflexivity | ].
  cbn [map filter]. rewrite H. destruct (f pd); cbn [map]; now rewrite IH.
Qed.

Lemma fold_replaced_children nm at_ cs : forall pre,
  Forall (fun c => fold_left replaced (find_all (T "ac:link") c) c = resolve c) cs ->
  fold_left replaced
    (filter (fun pd => is_tag (T "ac:link") (snd pd))
            (children_from descendants (length pre) cs))
    (Elem nm at_ (pre ++ cs))
  = Elem nm at_ (pre ++ map resolve_child cs).
Proof.
  induction cs as [ | c cs IH]; intros pre H; [reflexivity | ].
  inversion H as [ | c' cs' Hc Hcs]; subst.
  assert (Hnext : forall c0 : node,
    fold_left replaced
      (filter (fun pd => is_tag (T "ac:link") (snd pd))
              (children_from descendants (S (length pre)) cs))
      (Elem nm at_ (pre ++ c0 :: cs))
    = Elem nm at_ (pre ++ c0 :: map resolve_child cs)).
  { intros c0. change (pre ++ c0 :: cs) with (pre ++ [c0] ++ cs).
    rewrite app_assoc.
    replace (S (length pre)) with (length (pre ++ [c0])) by (rewrite length_app; cbn; lia).
    rewrite IH by assumption. now rewrite <- app_assoc. }
  cbn [children_from map]. cbn [filter snd]. unfold resolve_child at 1.
  destruct (is_tag (T "ac:link") c) eqn:Etag.
  - cbn [fold_left]. unfold replaced at 2. cbn [fst snd].
    rewrite filter_app, fold_left_app.
    rewrite filter_under by reflexivity. fold (find_all (T "ac:link") c).
    destruct (mention_account c) as [account_id | ] eqn:Eacc.
    + cbn [replace_at]. rewrite update_child_middle. cbn [replace_at].
      rewrite fold_replaced_under.
      rewrite fold_replaced_detached by apply find_all_paths.
      apply Hnext.
    + rewrite fold_replaced_under, Hc. apply Hnext.
  - rewrite filter_app, fold_left_app.
    rewrite filter_under by reflexivity. fold (find_all (T "ac:link") c).
    rewrite fold_replaced_under, Hc. apply Hnext.
Qed.

Lemma fold_replaced_resolve n :
  fold_left replaced (find_all (T "ac:link") n) n = resolve n.
Proof.
  induction n as [s | nm at_ cs IH] using node_induction; [reflexivity | ].
  rewrite resolve_Elem. unfold find_all. cbn [descendants].
  apply (@fold_replaced_children nm at_ cs []). exact IH.
Qed.

(** C9, as stated, fails both ways: a link whose first user reference
    has no account id is left alone although a later child has one, and
    a link whose user reference sits deeper than a child is replaced. *)
Lemma shapes_are_read_off_the_first_descendant :
  let user (id : string) := Elem (T "ri:user") [(T "ri:account-id", AStr (T id))] [] in
  let late := Elem (T "ac:link") [] [Elem (T "ri:user") [] []; user "x"%string] in
  let deep := Elem (T "ac:link") [] [Elem (T "b") [] [user "z"%string]] in
  let soup := Elem (T "[document]") [] [late; deep] in
  shape_direct late = true
  /\ shape_direct deep = false /\ shape_link_body deep = false
  /\ fst (_process_user_mentions_in_soup soup new_world)
     = Returns (Elem (T "[document]") [] [late; Text (T "@user_z")]).
Proof. vm_compute. repeat split. Qed.

(** C9, amended: the resolver never raises and gives the tree in which
    every link element that is not inside a replaced one and whose first
    user reference in document order, at any depth, carries a string
    account id is replaced by the string [@user_<accountId>]; every
    other link element is kept and its content processed the same way.
    The resolver logs nothing and makes no lookup. *)
Theorem resolver_rewrites_from_the_root (soup : node) (w : world) :
  _process_user_mentions_in_soup soup w = (Returns (resolve soup), w).
Proof.
  unfold _process_user_mentions_in_soup.
  rewrite mention_elements_loop_returns by apply find_all_paths.
  now rewrite fold_replaced_resolve.
Qed.

(** ** Literal prefixes *)

Lemma rmatch_Lit l : forall k pv rs cs,
  rmatch (Lit l) k (MState pv rs cs)
  = if starts_with l rs then k (MState (last_of l pv) (skipn (length l) rs) cs) else None.
Proof.
  induction l as [ | c l IH]; intros k pv rs cs; [reflexivity | ].
  destruct l as [ | d l].
  - cbn [Lit starts_with]. destruct rs as [ | x rs]; [reflexivity | ].
    cbn [rmatch rest]. rewrite Ascii.eqb_sym.
    destruct (Ascii.eqb c x) eqn:E; [ | reflexivity].
    apply Ascii.eqb_eq in E; subst x. reflexivity.
  - change (Lit (c :: d :: l)) with (Seq (Chr c) (Lit (d :: l))).
    destruct rs as [ | x rs]; [reflexivity | ].
    cbn [rmatch rest starts_with]. rewrite Ascii.eqb_sym.
    destruct (Ascii.eqb c x) eqn:E; [ | reflexivity].
    apply Ascii.eqb_eq in E; subst x.
    unfold advance. cbn [andb caps]. rewrite IH. reflexivity.
Qed.

(** a pattern that begins with a literal fails where the text does not *)
Lemma match_at_none_lit l r pv rs :
  starts_with l rs = false -> match_at (Seq (Lit l) r) pv rs = None.
Proof.
  intros H. unfold match_at. cbn [rmatch]. now rewrite rmatch_Lit, H.
Qed.

(** ** Code blocks in jira_to_markdown *)

Ltac dead_position :=
  first [ apply match_at_none_first; reflexivity
        | apply match_at_none_lit; reflexivity ].

(** walk over written-out characters none of which starts a match *)
Ltac quiet_chars :=
  repeat (apply quiet_cons; [dead_position | ]); apply quiet_nil.

Lemma lacks_first P r s :
  subclass (first_set r) P = true -> lacks P s = true ->
  Forall (fun c => first_set r c = false) s.
Proof.
  intros Hs H. apply lacks_Forall. revert H. now apply lacks_sub.
Qed.

Lemma inline_code_quiet_on_code_block f c :
  lacks wiki_markup c = true ->
  sub J2M.inline_code f (T "{code}" ++ c ++ T "{code}") = T "{code}" ++ c ++ T "{code}".
Proof.
  intros H. apply sub_quiet; [ | now apply match_at_none_nil].
  unfold J2M.inline_code, Seqs, L.
  apply quiet_app; [cbv [T list_ascii_of_string]; quiet_chars | ].
  apply quiet_app; [ | cbv [T list_ascii_of_string]; quiet_chars].
  apply quiet_first; [reflexivity | ].
  apply (lacks_first wiki_markup); [vm_compute; reflexivity | assumption].
Qed.

Lemma code_block_match pv c :
  lacks (just "{") c = true ->
  match_at J2M.code_block pv (T "{code}" ++ c ++ T "{code}")
  = Some (Match (T "{code}" ++ c ++ T "{code}") [(2, c)]).
Proof.
  intros H. unfold match_at, J2M.code_block.
  cbn -[star_loop consumed].
  rewrite star_lazy_scan.
  - cbn -[consumed]. f_equal. f_equal; [consumed_tac | ].
    f_equal. f_equal. consumed_tac.
  - apply Forall_forall. intros x _. unfold space_or_not, either, not_in.
    apply orb_negb_r.
  - intros x pv' t Hx. cbn. apply (lacks_In _ _ _ H) in Hx.
    unfold just in Hx. now rewrite Hx.
  - cbn. discriminate.
  - rewrite length_app. lia.
Qed.

(** a match that covers the whole text *)
Lemma sub_whole_match r f x m :
  x <> [] -> nullable r = false ->
  match_at r None x = Some m -> m_all m = x -> sub r f x = f m.
Proof.
  intros Hx Hn Hm Ha. unfold sub. rewrite <- (app_nil_r x) at 1.
  rewrite (@sub_from_match r f None x [] m); try assumption.
  - rewrite sub_from_end by now apply match_at_none_nil. apply app_nil_r.
  - now rewrite app_nil_r.
Qed.

Lemma code_block_to_fence c :
  lacks wiki_markup c = true ->
  jira_to_markdown (T "{code}" ++ c ++ T "{code}")
  = T "```" ++ [LF] ++ c ++ [LF] ++ T "```".
Proof.
  intros H.
  assert (Hb : lacks (just "{") c = true)
    by (revert H; apply lacks_sub; vm_compute; reflexivity).
  assert (Hx : lacks code_markup (T "{code}" ++ c ++ T "{code}") = true).
  { rewrite !lacks_app. rewrite (lacks_sub code_markup wiki_markup c); [reflexivity | | assumption].
    vm_compute; reflexivity. }
  assert (Hy : lacks wiki_markup (T "```" ++ [LF] ++ c ++ [LF] ++ T "```") = true).
  { rewrite !lacks_app, H. reflexivity. }
  unfold jira_to_markdown.
  change (is_empty (T "{code}" ++ c ++ T "{code}")) with false. cbv iota zeta.
  repeat sub_pass code_markup Hx.
  rewrite inline_code_quiet_on_code_block by assumption.
  repeat sub_pass code_markup Hx.
  rewrite (@sub_whole_match J2M.code_block _ _ (Match (T "{code}" ++ c ++ T "{code}") [(2, c)]));
    [ | discriminate | reflexivity | now apply code_block_match | reflexivity ].
  change (g 1 (Match (T "{code}" ++ c ++ T "{code}") [(2, c)])) with (@nil ascii).
  change (g 2 (Match (T "{code}" ++ c ++ T "{code}") [(2, c)])) with c.
  cbn [app]. change (T "```" ++ LF :: c ++ LF :: T "```") with (T "```" ++ [LF] ++ c ++ [LF] ++ T "```").
  repeat sub_pass wiki_markup Hy.
  apply j2m_tables_lacks. revert Hy. apply lacks_sub. vm_compute; reflexivity.
Qed.

Lemma brace_rule_quiet_on_block r f (a b c : text) :
  nullable r = false ->
  subclass (first_set r) wiki_markup = true ->
  quiet r None a (c ++ b) ->
  (forall pv, quiet r pv b []) ->
  lacks wiki_markup c = true ->
  sub r f (a ++ c ++ b) = a ++ c ++ b.
Proof.
  intros Hn Hs Ha Hb H. apply sub_quiet; [ | now apply match_at_none_nil].
  apply quiet_app; [now rewrite app_nil_r | ].
  apply quiet_app; [ | apply Hb].
  apply quiet_first; [assumption | ].
  now apply (lacks_first wiki_markup).
Qed.

(** a rule that starts with a brace and finds nothing in a block *)
Ltac brace_rule R H :=
  rewrite (@brace_rule_quiet_on_block R);
  [ | reflexivity | vm_compute; reflexivity
    | unfold R, Seqs, L; cbv [T list_ascii_of_string]; quiet_chars
    | intros ?; unfold R, Seqs, L; cbv [T list_ascii_of_string]; quiet_chars
    | exact H ].

Lemma noformat_match pv c :
  lacks (just "{") c = true ->
  match_at J2M.noformat pv (T "{noformat}" ++ c ++ T "{noformat}")
  = Some (Match (T "{noformat}" ++ c ++ T "{noformat}") [(1, c)]).
Proof.
  intros H. unfold match_at, J2M.noformat.
  cbn -[star_loop consumed].
  rewrite star_lazy_scan.
  - cbn -[consumed]. f_equal. f_equal; [consumed_tac | ].
    f_equal. f_equal. consumed_tac.
  - apply Forall_forall. intros x _. unfold space_or_not, either, not_in.
    apply orb_negb_r.
  - intros x pv' t Hx. cbn. apply (lacks_In _ _ _ H) in Hx.
    unfold just in Hx. now rewrite Hx.
  - cbn. discriminate.
  - rewrite length_app. lia.
Qed.

Lemma noformat_to_fence c :
  lacks wiki_markup c = true ->
  jira_to_markdown (T "{noformat}" ++ c ++ T "{noformat}")
  = T "```" ++ [LF] ++ c ++ [LF] ++ T "```".
Proof.
  intros H.
  assert (Hb : lacks (just "{") c = true)
    by (revert H; apply lacks_sub; vm_compute; reflexivity).
  assert (Hx : lacks code_markup (T "{noformat}" ++ c ++ T "{noformat}") = true).
  { rewrite !lacks_app. rewrite (lacks_sub code_markup wiki_markup c); [reflexivity | | assumption].
    vm_compute; reflexivity. }
  assert (Hy : lacks wiki_markup (T "```" ++ [LF] ++ c ++ [LF] ++ T "```") = true).
  { rewrite !lacks_app, H. reflexivity. }
  unfold jira_to_markdown.
  change (is_empty (T "{noformat}" ++ c ++ T "{noformat}")) with false. cbv iota zeta.
  repeat sub_pass code_markup Hx.
  brace_rule J2M.inline_code H.
  repeat sub_pass code_markup Hx.
  brace_rule J2M.code_block H.
  rewrite (@sub_whole_match J2M.noformat _ _
             (Match (T "{noformat}" ++ c ++ T "{noformat}") [(1, c)]));
    [ | discriminate | reflexivity | now apply noformat_match | reflexivity ].
  change (g 1 (Match (T "{noformat}" ++ c ++ T "{noformat}") [(1, c)])) with c.
  cbn [app]. change (T "```" ++ LF :: c ++ LF :: T "```") with (T "```" ++ [LF] ++ c ++ [LF] ++ T "```").
  repeat sub_pass wiki_markup Hy.
  apply j2m_tables_lacks. revert Hy. apply lacks_sub. vm_compute; reflexivity.
Qed.

Lemma all_Forall (P : ascii -> bool) s :
  forallb P s = true -> Forall (fun c => P c = true) s.
Proof. rewrite forallb_forall, Forall_forall. auto. Qed.

Lemma code_block_lang_match pv l lang c :
  forallb is_lower (l :: lang) = true ->
  lacks (just "{") c = true ->
  match_at J2M.code_block pv (T "{code:" ++ (l :: lang) ++ T "}" ++ c ++ T "{code}")
  = Some (Match (T "{code:" ++ (l :: lang) ++ T "}" ++ c ++ T "{code}")
                [(2, c); (1, l :: lang)]).
Proof.
  intros Hl H. cbn [forallb] in Hl. apply andb_true_iff in Hl as [Hl0 Hl].
  unfold match_at, J2M.code_block.
  cbn -[star_loop consumed]. rewrite Hl0.
  rewrite star_greedy_max.
  - cbn -[star_loop consumed]. rewrite star_lazy_scan.
    + cbn -[consumed]. f_equal. f_equal; [consumed_tac | ].
      f_equal; [f_equal; consumed_tac | ]. f_equal. f_equal. consumed_tac.
    + apply Forall_forall. intros x _. unfold space_or_not, either, not_in.
      apply orb_negb_r.
    + intros x pv' t Hx. cbn. apply (lacks_In _ _ _ H) in Hx.
      unfold just in Hx. now rewrite Hx.
    + cbn. discriminate.
    + rewrite length_app. lia.
  - now apply all_Forall.
  - reflexivity.
  - cbn -[star_loop consumed]. rewrite star_lazy_scan.
    + cbn. discriminate.
    + apply Forall_forall. intros x _. unfold space_or_not, either, not_in.
      apply orb_negb_r.
    + intros x pv' t Hx. cbn. apply (lacks_In _ _ _ H) in Hx.
      unfold just in Hx. now rewrite Hx.
    + cbn. discriminate.
    + rewrite length_app. lia.
  - rewrite length_app. lia.
Qed.

Lemma all_lacks (P Q : ascii -> bool) s :
  subclass P (not_in Q) = true -> forallb P s = true -> lacks Q s = true.
Proof.
  intros Hs H. apply lacks_Forall. apply all_Forall in H. revert H.
  apply Forall_impl. intros c Hc. apply (subclass_spec _ _ _ Hs) in Hc.
  unfold not_in in Hc. now destruct (Q c).
Qed.

Lemma all_first (P : ascii -> bool) r s :
  subclass P (not_in (first_set r)) = true -> forallb P s = true ->
  Forall (fun c => first_set r c = false) s.
Proof. intros Hs H. apply lacks_Forall. revert H. now apply all_lacks. Qed.

(** no match starts in a piece of text given by a hypothesis *)
Ltac quiet_piece :=
  apply quiet_first;
  [ reflexivity
  | first [ apply (lacks_first wiki_markup); [vm_compute; reflexivity | assumption]
          | apply (all_first is_lower); [vm_compute; reflexivity | assumption] ] ].

Ltac quiet_auto :=
  lazymatch goal with
  | |- quiet _ _ (_ ++ _) _ => apply quiet_app; [quiet_auto | quiet_auto]
  | |- quiet _ _ (T _) _ => cbv [T list_ascii_of_string]; quiet_chars
  | |- quiet _ _ [] _ => apply quiet_nil
  | |- quiet _ _ (_ :: _) _ => apply quiet_cons; [dead_position | quiet_auto]
  | |- quiet _ _ _ _ => quiet_piece
  end.

(** a rule that finds nothing in the text it is given *)
Ltac quiet_rule R :=
  rewrite (@sub_quiet R);
  [ | unfold R, Seqs, L; quiet_auto | apply match_at_none_nil; reflexivity ].

Lemma code_block_lang_to_fence lang c :
  forallb is_lower lang = true -> is_empty lang = false ->
  lacks wiki_markup c = true ->
  jira_to_markdown (T "{code:" ++ lang ++ T "}" ++ c ++ T "{code}")
  = T "```" ++ lang ++ [LF] ++ c ++ [LF] ++ T "```".
Proof.
  intros Hl Hne H.
  assert (Hb : lacks (just "{") c = true)
    by (revert H; apply lacks_sub; vm_compute; reflexivity).
  assert (Hlw : lacks wiki_markup lang = true)
    by (revert Hl; apply all_lacks; vm_compute; reflexivity).
  assert (Hx : lacks code_markup (T "{code:" ++ lang ++ T "}" ++ c ++ T "{code}") = true).
  { rewrite !lacks_app.
    rewrite (lacks_sub code_markup wiki_markup c), (lacks_sub code_markup wiki_markup lang);
      try assumption; try (vm_compute; reflexivity). }
  assert (Hy : lacks wiki_markup (T "```" ++ lang ++ [LF] ++ c ++ [LF] ++ T "```") = true).
  { rewrite !lacks_app, H, Hlw. reflexivity. }
  unfold jira_to_markdown.
  change (is_empty (T "{code:" ++ lang ++ T "}" ++ c ++ T "{code}")) with false.
  cbv iota zeta.
  repeat sub_pass code_markup Hx.
  quiet_rule J2M.inline_code.
  repeat sub_pass code_markup Hx.
  destruct lang as [ | l lang]; [discriminate | ].
  rewrite (@sub_whole_match J2M.code_block _ _
             (Match (T "{code:" ++ (l :: lang) ++ T "}" ++ c ++ T "{code}")
                    [(2, c); (1, l :: lang)]));
    [ | discriminate | reflexivity | now apply code_block_lang_match | reflexivity ].
  change (g 1 (Match (T "{code:" ++ (l :: lang) ++ T "}" ++ c ++ T "{code}")
                     [(2, c); (1, l :: lang)])) with (l :: lang).
  change (g 2 (Match (T "{code:" ++ (l :: lang) ++ T "}" ++ c ++ T "{code}")
                     [(2, c); (1, l :: lang)])) with c.
  change (T "```" ++ (l :: lang) ++ [LF] ++ c ++ [LF] ++ T "```")
    with (T "```" ++ (l :: lang) ++ [LF] ++ c ++ [LF] ++ T "```") in Hy.
  match goal with
  | |- context [sub J2M.noformat _ ?s] =>
      change s with (T "```" ++ (l :: lang) ++ [LF] ++ c ++ [LF] ++ T "```")
  end.
  repeat sub_pass wiki_markup Hy.
  apply j2m_tables_lacks. revert Hy. apply lacks_sub. vm_compute; reflexivity.
Qed.

(** C2, as stated, fails: the emphasis rule runs before the code-block
    rule and rewrites the content of the block. *)
Lemma block_content_is_rewritten :
  jira_to_markdown (T "{code}a *b* c{code}")
  = T "```" ++ [LF] ++ T "a **b** c" ++ [LF] ++ T "```"
  /\ jira_to_markdown (T "{code}a *b* c{code}")
     <> T "```" ++ [LF] ++ T "a *b* c" ++ [LF] ++ T "```".
Proof. split; vm_compute; [reflexivity | discriminate]. Qed.

(** *** Blocks in a text *)

Lemma space_or_not_any s : Forall (fun c => space_or_not c = true) s.
Proof.
  apply Forall_forall. intros x _. unfold space_or_not, either, not_in.
  apply orb_negb_r.
Qed.

Lemma no_brace s c : lacks (just "{") s = true -> In c s -> Ascii.eqb c "{" = false.
Proof. intros H Hc. exact (lacks_In _ _ _ H Hc). Qed.

Lemma code_block_match_in pv c rest :
  lacks (just "{") c = true ->
  match_at J2M.code_block pv ((T "{code}" ++ c ++ T "{code}") ++ rest)
  = Some (Match (T "{code}" ++ c ++ T "{code}") [(2, c)]).
Proof.
  intros H. unfold match_at, J2M.code_block.
  repeat rewrite <- app_assoc. cbn -[star_loop consumed].
  rewrite star_lazy_scan.
  - cbn -[consumed]. f_equal. f_equal; [consumed_tac | ].
    f_equal. f_equal. consumed_tac.
  - apply space_or_not_any.
  - intros x pv' t Hx. cbn. now rewrite (@no_brace c x H Hx).
  - cbn. discriminate.
  - rewrite length_app. lia.
Qed.

Lemma code_block_lang_match_in pv l lang c rest :
  forallb is_lower (l :: lang) = true ->
  lacks (just "{") c = true ->
  match_at J2M.code_block pv ((T "{code:" ++ (l :: lang) ++ T "}" ++ c ++ T "{code}") ++ rest)
  = Some (Match (T "{code:" ++ (l :: lang) ++ T "}" ++ c ++ T "{code}")
                [(2, c); (1, l :: lang)]).
Proof.
  intros Hl H. cbn [forallb] in Hl. apply andb_true_iff in Hl as [Hl0 Hl].
  unfold match_at, J2M.code_block.
  repeat rewrite <- app_assoc. cbn -[star_loop consumed]. rewrite Hl0.
  rewrite star_greedy_max.
  - cbn -[star_loop consumed]. rewrite star_lazy_scan.
    + cbn -[consumed]. f_equal. f_equal; [consumed_tac | ].
      f_equal; [f_equal; consumed_tac | ]. f_equal. f_equal. consumed_tac.
    + apply space_or_not_any.
    + intros x pv' t Hx. cbn. now rewrite (@no_brace c x H Hx).
    + cbn. discriminate.
    + rewrite length_app. lia.
  - now apply all_Forall.
  - reflexivity.
  - cbn -[star_loop consumed]. rewrite star_lazy_scan.
    + cbn. discriminate.
    + apply space_or_not_any.
    + intros x pv' t Hx. cbn. now rewrite (@no_brace c x H Hx).
    + cbn. discriminate.
    + rewrite length_app. lia.
  - rewrite length_app. lia.
Qed.

Lemma noformat_match_in pv c rest :
  lacks (just "{") c = true ->
  match_at J2M.noformat pv ((T "{noformat}" ++ c ++ T "{noformat}") ++ rest)
  = Some (Match (T "{noformat}" ++ c ++ T "{noformat}") [(1, c)]).
Proof.
  intros H. unfold match_at, J2M.noformat.
  repeat rewrite <- app_assoc. cbn -[star_loop consumed].
  rewrite star_lazy_scan.
  - cbn -[consumed]. f_equal. f_equal; [consumed_tac | ].
    f_equal. f_equal. consumed_tac.
  - apply space_or_not_any.
  - intros x pv' t Hx. cbn. now rewrite (@no_brace c x H Hx).
  - cbn. discriminate.
  - rewrite length_app. lia.
Qed.

(** a rule run over pieces, piece by piece *)
Lemma sub_from_pieces r f (ok : block_piece -> bool) (inp out : block_piece -> text) :
  nullable r = false ->
  (forall p pv rest, ok p = true ->
     sub_from r f pv (inp p ++ rest) 0
     = out p ++ sub_from r f (last_of (inp p) pv) rest 0) ->
  forall ps pv, forallb ok ps = true ->
    sub_from r f pv (concat (map inp ps)) 0 = concat (map out ps).
Proof.
  intros Hn Hstep ps. induction ps as [ | p ps IH]; intros pv Hok.
  - cbn [map concat]. apply sub_from_end. now apply match_at_none_nil.
  - cbn [forallb] in Hok. apply andb_true_iff in Hok as [Hp Hps].
    cbn [map concat]. rewrite (Hstep p pv _ Hp). f_equal. now apply IH.
Qed.

Lemma wiki_of_code lang content :
  wiki_of (CodeBlock lang content)
  = match lang with
    | [] => T "{code}" ++ content ++ T "{code}"
    | l :: lang' => T "{code:" ++ (l :: lang') ++ T "}" ++ content ++ T "{code}"
    end.
Proof.
  cbn [wiki_of]. unfold code_open. destruct lang as [ | l lang]; cbn [is_empty].
  - reflexivity.
  - now rewrite <- !app_assoc.
Qed.

(** the inline-code rule finds nothing in a piece *)
Lemma inline_code_step f p pv rest :
  block_piece_ok p = true ->
  sub_from J2M.inline_code f pv (wiki_of p ++ rest) 0
  = wiki_of p ++ sub_from J2M.inline_code f (last_of (wiki_of p) pv) rest 0.
Proof.
  intros Hp. apply sub_from_quiet.
  destruct p as [s | lang c | c]; cbn [block_piece_ok] in Hp.
  - cbn [wiki_of]. unfold J2M.inline_code, Seqs, L. quiet_auto.
  - apply andb_true_iff in Hp as [Hl Hc]. rewrite wiki_of_code.
    unfold J2M.inline_code, Seqs, L. destruct lang as [ | l lang]; [quiet_auto | ].
    remember (l :: lang) as tag eqn:E. clear E. quiet_auto.
  - cbn [wiki_of]. unfold J2M.inline_code, Seqs, L. quiet_auto.
Qed.

(** the rule for [{code}] turns the code blocks into fences *)
Lemma code_block_step p pv rest :
  block_piece_ok p = true ->
  sub_from J2M.code_block
    (fun m => T "```" ++ g 1 m ++ [LF] ++ g 2 m ++ [LF] ++ T "```") pv (wiki_of p ++ rest) 0
  = half_of p
    ++ sub_from J2M.code_block
         (fun m => T "```" ++ g 1 m ++ [LF] ++ g 2 m ++ [LF] ++ T "```")
         (last_of (wiki_of p) pv) rest 0.
Proof.
  intros Hp.
  destruct p as [s | lang c | c]; cbn [block_piece_ok] in Hp.
  - cbn [wiki_of half_of md_of]. apply sub_from_quiet.
    unfold J2M.code_block, Seqs, L. quiet_auto.
  - apply andb_true_iff in Hp as [Hl Hc].
    assert (Hb : lacks (just "{") c = true)
      by (revert Hc; apply lacks_sub; vm_compute; reflexivity).
    rewrite wiki_of_code. cbn [half_of md_of]. destruct lang as [ | l lang].
    + rewrite (@sub_from_match J2M.code_block _ pv (T "{code}" ++ c ++ T "{code}") rest
                 (Match (T "{code}" ++ c ++ T "{code}") [(2, c)]));
        [reflexivity | discriminate | now apply code_block_match_in | reflexivity].
    + rewrite (@sub_from_match J2M.code_block _ pv
                 (T "{code:" ++ (l :: lang) ++ T "}" ++ c ++ T "{code}") rest
                 (Match (T "{code:" ++ (l :: lang) ++ T "}" ++ c ++ T "{code}")
                        [(2, c); (1, l :: lang)]));
        [reflexivity | discriminate | now apply code_block_lang_match_in | reflexivity].
  - cbn [wiki_of half_of]. apply sub_from_quiet.
    unfold J2M.code_block, Seqs, L. quiet_auto.
Qed.

(** the rule for [{noformat}] turns the remaining blocks into fences *)
Lemma noformat_step p pv rest :
  block_piece_ok p = true ->
  sub_from J2M.noformat (fun m => T "```" ++ [LF] ++ g 1 m ++ [LF] ++ T "```") pv
    (half_of p ++ rest) 0
  = md_of p
    ++ sub_from J2M.noformat (fun m => T "```" ++ [LF] ++ g 1 m ++ [LF] ++ T "```")
         (last_of (half_of p) pv) rest 0.
Proof.
  intros Hp.
  destruct p as [s | lang c | c]; cbn [block_piece_ok] in Hp.
  - cbn [half_of md_of]. apply sub_from_quiet.
    unfold J2M.noformat, Seqs, L. quiet_auto.
  - apply andb_true_iff in Hp as [Hl Hc]. cbn [half_of md_of]. apply sub_from_quiet.
    unfold J2M.noformat, Seqs, L, fence. quiet_auto.
  - assert (Hb : lacks (just "{") c = true)
      by (revert Hp; apply lacks_sub; vm_compute; reflexivity).
    cbn [half_of md_of].
    rewrite (@sub_from_match J2M.noformat _ pv (T "{noformat}" ++ c ++ T "{noformat}") rest
               (Match (T "{noformat}" ++ c ++ T "{noformat}") [(1, c)]));
      [reflexivity | discriminate | now apply noformat_match_in | reflexivity].
Qed.

Lemma wiki_text_lacks ps :
  forallb block_piece_ok ps = true -> lacks code_markup (wiki_text ps) = true.
Proof.
  unfold wiki_text. induction ps as [ | p ps IH]; [reflexivity | ].
  cbn [forallb map concat]. intros H. apply andb_true_iff in H as [Hp Hps].
  rewrite lacks_app, (IH Hps), andb_true_r.
  destruct p as [s | lang c | c]; cbn [block_piece_ok] in Hp.
  - revert Hp. apply lacks_sub. vm_compute; reflexivity.
  - apply andb_true_iff in Hp as [Hl Hc]. rewrite wiki_of_code.
    assert (Hc' : lacks code_markup c = true)
      by (revert Hc; apply lacks_sub; vm_compute; reflexivity).
    assert (Hl' : lacks code_markup lang = true)
      by (revert Hl; apply all_lacks; vm_compute; reflexivity).
    destruct lang as [ | l lang]; rewrite !lacks_app, Hc', ?Hl'; reflexivity.
  - cbn [wiki_of]. rewrite !lacks_app.
    rewrite (lacks_sub code_markup wiki_markup c);
      [reflexivity | vm_compute; reflexivity | assumption].
Qed.

Lemma md_text_lacks ps :
  forallb block_piece_ok ps = true -> lacks wiki_markup (md_text ps) = true.
Proof.
  unfold md_text. induction ps as [ | p ps IH]; [reflexivity | ].
  cbn [forallb map concat]. intros H. apply andb_true_iff in H as [Hp Hps].
  rewrite lacks_app, (IH Hps), andb_true_r.
  destruct p as [s | lang c | c]; cbn [block_piece_ok] in Hp; cbn [md_of]; unfold fence.
  - exact Hp.
  - apply andb_true_iff in Hp as [Hl Hc]. rewrite !lacks_app, Hc.
    rewrite (@all_lacks is_lower wiki_markup lang);
      [reflexivity | vm_compute; reflexivity | assumption].
  - rewrite !lacks_app, Hp. reflexivity.
Qed.

Lemma wiki_text_empty ps : wiki_text ps = [] -> md_text ps = [].
Proof.
  unfold wiki_text, md_text. induction ps as [ | p ps IH]; [reflexivity | ].
  cbn [map concat]. intros H. apply app_eq_nil in H as [Hp Hps].
  rewrite (IH Hps), app_nil_r. destruct p as [s | lang c | c].
  - exact Hp.
  - rewrite wiki_of_code in Hp. destruct lang; discriminate.
  - discriminate.
Qed.

Lemma blocks_to_fences ps :
  forallb block_piece_ok ps = true -> jira_to_markdown (wiki_text ps) = md_text ps.
Proof.
  intros Hok.
  assert (Hx := wiki_text_lacks ps Hok). assert (Hy := md_text_lacks ps Hok).
  unfold jira_to_markdown. destruct (is_empty (wiki_text ps)) eqn:E.
  - symmetry. apply wiki_text_empty. now destruct (wiki_text ps).
  - cbv zeta.
    repeat sub_pass code_markup Hx.
    assert (H5 : forall f, sub J2M.inline_code f (wiki_text ps) = wiki_text ps).
    { intros f. unfold sub, wiki_text.
      apply (@sub_from_pieces J2M.inline_code f block_piece_ok wiki_of wiki_of);
        [reflexivity | intros; now apply inline_code_step | assumption]. }
    rewrite H5.
    repeat sub_pass code_markup Hx.
    assert (H11 : sub J2M.code_block
                    (fun m => T "```" ++ g 1 m ++ [LF] ++ g 2 m ++ [LF] ++ T "```")
                    (wiki_text ps)
                  = concat (map half_of ps)).
    { unfold sub, wiki_text.
      apply (@sub_from_pieces J2M.code_block _ block_piece_ok wiki_of half_of);
        [reflexivity | intros; now apply code_block_step | assumption]. }
    rewrite H11.
    assert (H12 : sub J2M.noformat (fun m => T "```" ++ [LF] ++ g 1 m ++ [LF] ++ T "```")
                    (concat (map half_of ps))
                  = md_text ps).
    { unfold sub, md_text.
      apply (@sub_from_pieces J2M.noformat _ block_piece_ok half_of md_of);
        [reflexivity | intros; now apply noformat_step | assumption]. }
    rewrite H12.
    repeat sub_pass wiki_markup Hy.
    apply j2m_tables_lacks. revert Hy. apply lacks_sub. vm_compute; reflexivity.
Qed.

(** C2, amended: in a text made of stretches without the characters
    [. * _ # - + { ? ^ ~ ! [ |] and of [{code}], [{code:lang}] (the
    language a run of lower-case letters) and [{noformat}] blocks whose
    contents have none of these characters either, every block becomes
    a triple-backtick fence (the language behind the opening backticks)
    around exactly its content, between two line feeds, and the
    stretches stay as they are.  The code-block rules come after the
    block-quote, emphasis, list, header, inline-code, citation, insert,
    superscript, subscript and strike rules, which is why the characters
    have to be absent; a block inside [{quote}] or with a language in
    capitals is outside this statement. *)
Theorem block_content_without_markup_is_kept (ps : list block_piece) :
  forallb block_piece_ok ps = true -> jira_to_markdown (wiki_text ps) = md_text ps.
Proof. apply blocks_to_fences. Qed.

Lemma block_content_without_markup_is_kept_witness :
  jira_to_markdown
    (T "Run:" ++ [LF] ++ T "{code:python}x = f(a, b)" ++ [LF] ++ T "return x{code}"
     ++ T " then {code}y = 2{code} and " ++ T "{noformat}plain  text{noformat}" ++ T " end")
  = T "Run:" ++ [LF] ++ T "```python" ++ [LF] ++ T "x = f(a, b)" ++ [LF] ++ T "return x"
      ++ [LF] ++ T "```"
    ++ T " then ```" ++ [LF] ++ T "y = 2" ++ [LF] ++ T "``` and "
    ++ T "```" ++ [LF] ++ T "plain  text" ++ [LF] ++ T "```" ++ T " end".
Proof.
  apply (@block_content_without_markup_is_kept
           [Stretch (T "Run:" ++ [LF]);
            CodeBlock (T "python") (T "x = f(a, b)" ++ [LF] ++ T "return x");
            Stretch (T " then ");
            CodeBlock [] (T "y = 2");
            Stretch (T " and ");
            NoFormat (T "plain  text");
            Stretch (T " end")]).
  vm_compute. reflexivity.
Defined.

(** ** [re.finditer] and [str.replace] over pieces of text *)

Lemma finditer_from_quiet r pv a b :
  quiet r pv a b -> finditer_from r pv (a ++ b) 0 = finditer_from r (last_of a pv) b 0.
Proof.
  revert pv. induction a as [ | c a IH]; intros pv H; cbn [app last_of]; [reflexivity | ].
  cbn [finditer_from]. rewrite (quiet_head H). apply IH. now apply quiet_tail in H.
Qed.

Lemma finditer_from_skip r pv a b :
  finditer_from r pv (a ++ b) (length a) = finditer_from r (last_of a pv) b 0.
Proof.
  revert pv. induction a as [ | c a IH]; intros pv; cbn [app last_of length]; [reflexivity | ].
  cbn [finditer_from]. apply IH.
Qed.

Lemma finditer_from_match r pv a b m :
  a <> [] -> match_at r pv (a ++ b) = Some m -> m_all m = a ->
  finditer_from r pv (a ++ b) 0 = m :: finditer_from r (last_of a pv) b 0.
Proof.
  intros Ha Hm Hall. destruct a as [ | c a]; [contradiction | ].
  cbn [app finditer_from]. cbn [app] in Hm. rewrite Hm, Hall. cbn [length pred last_of].
  f_equal. apply finditer_from_skip.
Qed.

Lemma replace_from_quiet o old new a b :
  lacks (just o) a = true ->
  replace_from (o :: old) new (a ++ b) 0 = a ++ replace_from (o :: old) new b 0.
Proof.
  induction a as [ | c a IH]; intros H; [reflexivity | ].
  cbn in H. apply andb_true_iff in H as [Hc H].
  cbn [app replace_from starts_with].
  unfold just in Hc. rewrite Ascii.eqb_sym in Hc.
  destruct (Ascii.eqb o c); [discriminate | ]. cbn [andb]. f_equal. now apply IH.
Qed.

Lemma starts_with_app a b : starts_with a (a ++ b) = true.
Proof. induction a as [ | c a IH]; [reflexivity | ]. cbn. now rewrite Ascii.eqb_refl. Qed.

Lemma replace_from_skip old new a b :
  replace_from old new (a ++ b) (length a) = replace_from old new b 0.
Proof. induction a as [ | c a IH]; [reflexivity | ]. cbn [app length replace_from]. apply IH. Qed.

Lemma replace_from_hit o old new b :
  replace_from (o :: old) new ((o :: old) ++ b) 0 = new ++ replace_from (o :: old) new b 0.
Proof.
  change ((o :: old) ++ b) with (o :: old ++ b).
  cbn [replace_from]. change (o :: old ++ b) with ((o :: old) ++ b).
  rewrite starts_with_app. f_equal. apply replace_from_skip.
Qed.

Lemma replace_whole old new : old <> [] -> replace old new old = new.
Proof.
  intros H. destruct old as [ | o old]; [contradiction | ].
  unfold replace. rewrite <- (app_nil_r (o :: old)) at 2.
  rewrite replace_from_hit. cbn. apply app_nil_r.
Qed.

(** ** Mentions in a text of plain stretches and tokens *)

Lemma piece_ok_id id :
  lacks (either (one_of "[]") (just LF)) id = true ->
  lacks (either (just "]") (just LF)) id = true
  /\ lacks (just "[") id = true /\ lacks (just "]") id = true.
Proof.
  intros H. repeat split; revert H; apply lacks_sub; vm_compute; reflexivity.
Qed.

Lemma token_tail_differs id : forall id' b,
  lacks (just "]") id = true -> lacks (just "]") id' = true -> id <> id' ->
  starts_with (id ++ T "]") (id' ++ T "]" ++ b) = false.
Proof.
  induction id as [ | c id IH]; intros [ | c' id'] b H H' Hne.
  - contradiction.
  - cbn in H'. apply andb_true_iff in H' as [Hc' _]. cbn [app T list_ascii_of_string starts_with].
    unfold just in Hc'. rewrite Ascii.eqb_sym. now destruct (Ascii.eqb c' "]").
  - cbn in H. apply andb_true_iff in H as [Hc _]. cbn [app T list_ascii_of_string starts_with].
    unfold just in Hc. now destruct (Ascii.eqb c "]").
  - cbn in H, H'. apply andb_true_iff in H as [_ H]. apply andb_true_iff in H' as [_ H'].
    cbn [app starts_with]. destruct (Ascii.eqb c c') eqn:E; [ | reflexivity].
    apply Ascii.eqb_eq in E; subst c'. cbn [andb]. apply IH; try assumption. congruence.
Qed.

Lemma starts_with_same p : forall x y,
  starts_with (p ++ x) (p ++ y) = starts_with x y.
Proof.
  induction p as [ | c p IH]; intros x y; [reflexivity | ].
  cbn [app starts_with]. now rewrite Ascii.eqb_refl, IH.
Qed.

Lemma replace_from_miss old new c s :
  starts_with old (c :: s) = false ->
  replace_from old new (c :: s) 0 = c :: replace_from old new s 0.
Proof. intros H. cbn [replace_from]. now rewrite H. Qed.

Lemma mention_token_cons id :
  mention_token id = "["%char :: (T "~accountid:" ++ id ++ T "]").
Proof. reflexivity. Qed.

(** another token is not touched by the replacement of this one *)
Lemma replace_other_token id id' new b :
  lacks (either (one_of "[]") (just LF)) id = true ->
  lacks (either (one_of "[]") (just LF)) id' = true -> id <> id' ->
  replace_from (mention_token id) new (mention_token id' ++ b) 0
  = mention_token id' ++ replace_from (mention_token id) new b 0.
Proof.
  intros H H' Hne.
  destruct (piece_ok_id _ H) as (_ & Hb & Hc), (piece_ok_id _ H') as (_ & Hb' & Hc').
  assert (Hs : starts_with (mention_token id) (mention_token id' ++ b) = false).
  { unfold mention_token. rewrite <- !app_assoc, starts_with_same.
    now apply token_tail_differs. }
  rewrite (mention_token_cons id') in *. cbn [app] in *.
  rewrite replace_from_miss by exact Hs. f_equal.
  rewrite (mention_token_cons id).
  rewrite replace_from_quiet; [reflexivity | ].
  rewrite !lacks_app, Hb'. reflexivity.
Qed.

Lemma render_cons f p ps :
  render f (p :: ps) = match p with Plain s => s | Mention id => f id end ++ render f ps.
Proof. reflexivity. Qed.

(** the matches [re.finditer] finds are the tokens, in order *)
Lemma finditer_mentions ps : forall pv,
  forallb piece_ok ps = true ->
  finditer_from mention_pattern pv (render mention_token ps) 0
  = map (fun id => Match (mention_token id) [(1, id)]) (mention_ids ps).
Proof.
  induction ps as [ | [s | id] ps IH]; intros pv H.
  - cbn [render flat_map mention_ids map finditer_from].
    rewrite match_at_none_nil; reflexivity.
  - cbn [forallb piece_ok] in H. apply andb_true_iff in H as [Hs H].
    rewrite render_cons. rewrite finditer_from_quiet; [now apply IH | ].
    apply quiet_first; [reflexivity | ]. apply lacks_Forall. revert Hs.
    apply lacks_sub. vm_compute; reflexivity.
  - cbn [forallb piece_ok] in H. apply andb_true_iff in H as [Hs H].
    rewrite render_cons.
    rewrite (@finditer_from_match mention_pattern pv (mention_token id) _
               (Match (mention_token id) [(1, id)])).
    + cbn [mention_ids flat_map app map]. f_equal. now apply IH.
    + discriminate.
    + apply mention_pattern_match. now apply piece_ok_id.
    + reflexivity.
Qed.

Lemma findall_mentions ps :
  forallb piece_ok ps = true ->
  findall1 mention_pattern (render mention_token ps) = mention_ids ps.
Proof.
  intros H. unfold findall1, finditer. rewrite finditer_mentions by assumption.
  rewrite map_map. cbn. apply map_id.
Qed.

(** the loop returns, whatever the lookups do, with the text the
    iterations produce one after the other *)
Lemma mentions_loop_returns jira_user ids : forall txt w,
  exists w', mentions_loop jira_user ids txt w
             = (Returns (fold_left (resolve_mention jira_user) ids txt), w').
Proof.
  induction ids as [ | id ids IH]; intros txt w; [now exists w | ].
  cbn [mentions_loop fold_left]. unfold bind at 1, try_except, bind, client_user, log, ret.
  unfold resolve_mention at 2.
  destruct (jira_user id) as [d | e]; apply IH.
Qed.

Lemma partly_same jira_user done id id' :
  resolved jira_user id = mention_token id ->
  partly jira_user (id :: done) id' = partly jira_user done id'.
Proof.
  intros H. unfold partly. cbn [existsb].
  destruct (text_eqb id' id) eqn:E; [ | reflexivity].
  apply text_eqb_eq in E; subst id'. cbn [orb].
  now destruct (existsb (text_eqb id) done).
Qed.

Lemma replace_token_quiet id new a b :
  lacks (just "[") a = true ->
  replace_from (mention_token id) new (a ++ b) 0
  = a ++ replace_from (mention_token id) new b 0.
Proof. rewrite mention_token_cons. apply replace_from_quiet. Qed.

Lemma replace_token_hit id new b :
  replace_from (mention_token id) new (mention_token id ++ b) 0
  = new ++ replace_from (mention_token id) new b 0.
Proof. rewrite mention_token_cons. apply replace_from_hit. Qed.

Lemma display_lacks d :
  lacks (just "[") d = true -> lacks (just "[") (T "@<" ++ d ++ T ">") = true.
Proof. intros H. rewrite !lacks_app, H. reflexivity. Qed.

(** one replacement turns the rendering with [done] into the one with
    [id :: done] *)
Lemma replace_in_pieces jira_user id d done ps :
  jira_user id = Found d ->
  lacks (either (one_of "[]") (just LF)) id = true ->
  forallb piece_ok ps = true -> names_ok jira_user ps = true ->
  replace_from (mention_token id) (T "@<" ++ d ++ T ">")
               (render (partly jira_user done) ps) 0
  = render (partly jira_user (id :: done)) ps.
Proof.
  intros Hd Hid. unfold names_ok.
  induction ps as [ | [s | id'] ps IH]; intros Hok Hn.
  - reflexivity.
  - cbn [forallb piece_ok] in Hok. apply andb_true_iff in Hok as [Hs Hok].
    rewrite !render_cons. rewrite replace_token_quiet by assumption.
    f_equal. now apply IH.
  - cbn [forallb piece_ok] in Hok. apply andb_true_iff in Hok as [Hs Hok].
    cbn [mention_ids flat_map app forallb] in Hn. apply andb_true_iff in Hn as [Hn' Hn].
    rewrite !render_cons. specialize (IH Hok Hn).
    unfold partly at 1 3. cbn [existsb].
    destruct (text_eqb id' id) eqn:E.
    + apply text_eqb_eq in E; subst id'. cbn [orb].
      destruct (existsb (text_eqb id) done).
      * unfold resolved. rewrite Hd in *.
        rewrite replace_token_quiet by now apply display_lacks.
        f_equal. exact IH.
      * unfold resolved. rewrite Hd.
        rewrite replace_token_hit. f_equal. exact IH.
    + cbn [orb]. assert (Hne : id <> id').
      { intros ->. now rewrite text_eqb_refl in E. }
      destruct (existsb (text_eqb id') done).
      * unfold resolved. destruct (jira_user id') as [d' | e'].
        -- rewrite replace_token_quiet by now apply display_lacks.
           f_equal. exact IH.
        -- rewrite replace_other_token by assumption. f_equal. exact IH.
      * rewrite replace_other_token by assumption. f_equal. exact IH.
Qed.

Lemma render_ext f h ps :
  (forall id, In id (mention_ids ps) -> f id = h id) -> render f ps = render h ps.
Proof.
  induction ps as [ | [s | id] ps IH]; intros H; [reflexivity | | ].
  - rewrite !render_cons. f_equal. apply IH. exact H.
  - rewrite !render_cons. rewrite (H id) by now left.
    f_equal. apply IH. intros id' Hin. apply H. now right.
Qed.

Lemma mention_ids_ok ps id :
  forallb piece_ok ps = true -> In id (mention_ids ps) ->
  lacks (either (one_of "[]") (just LF)) id = true.
Proof.
  induction ps as [ | [s | id'] ps IH]; cbn [forallb piece_ok mention_ids flat_map app];
    intros H Hin; [contradiction | | ].
  - apply andb_true_iff in H as [_ H]. now apply IH.
  - apply andb_true_iff in H as [Hid H]. destruct Hin as [<- | Hin]; [assumption | now apply IH].
Qed.

Lemma fold_resolve_pieces jira_user ps ids : forall done,
  (forall id, In id ids -> lacks (either (one_of "[]") (just LF)) id = true) ->
  forallb piece_ok ps = true -> names_ok jira_user ps = true ->
  fold_left (resolve_mention jira_user) ids (render (partly jira_user done) ps)
  = render (partly jira_user (rev ids ++ done)) ps.
Proof.
  induction ids as [ | id ids IH]; intros done Hids Hok Hn; [reflexivity | ].
  cbn [fold_left rev]. rewrite <- app_assoc. cbn [app].
  rewrite <- IH; try assumption; [ | intros id' Hin; apply Hids; now right].
  f_equal. unfold resolve_mention. destruct (jira_user id) as [d | e] eqn:E.
  - unfold replace. apply replace_in_pieces; try assumption. apply Hids. now left.
  - apply render_ext. intros id' _. symmetry. apply partly_same.
    unfold resolved. now rewrite E.
Qed.

Lemma existsb_text_eqb id l : In id l -> existsb (text_eqb id) l = true.
Proof.
  intros H. apply existsb_exists. exists id. split; [assumption | apply text_eqb_refl].
Qed.

Lemma mentions_in_pieces jira_user ps :
  forallb piece_ok ps = true -> names_ok jira_user ps = true ->
  fold_left (resolve_mention jira_user) (mention_ids ps) (render mention_token ps)
  = render (resolved jira_user) ps.
Proof.
  intros Hok Hn.
  change (render mention_token ps) with (render (partly jira_user []) ps).
  rewrite fold_resolve_pieces; try assumption.
  - apply render_ext. intros id Hin. unfold partly.
    rewrite existsb_text_eqb; [reflexivity | ].
    apply in_or_app. left. now apply in_rev in Hin.
  - intros id Hin. now apply (mention_ids_ok ps).
Qed.

(** C4: the mention pass returns normally whatever the lookups do; its
    result is the text the iterations give one after the other, an
    iteration whose lookup fails leaving the text as it was.  On a text
    made of stretches without [[] and of mention tokens, every token
    whose lookup gives a display name d (without [[]) has become
    [@<d>], every token whose lookup raised is still there, and nothing
    else has changed. *)
Theorem mentions_are_resolved_in_place
    (jira_user : text -> lookup_result) (w : world) :
  (forall txt, exists w',
     _process_mentions jira_user txt mention_pattern w
     = (Returns (fold_left (resolve_mention jira_user)
                           (findall1 mention_pattern txt) txt), w'))
  /\ (forall ps,
        forallb piece_ok ps = true -> names_ok jira_user ps = true ->
        exists w',
          _process_mentions jira_user (render mention_token ps) mention_pattern w
          = (Returns (render (resolved jira_user) ps), w')).
Proof.
  split.
  - intros txt. apply mentions_loop_returns.
  - intros ps Hok Hn. unfold _process_mentions.
    destruct (mentions_loop_returns jira_user
                (findall1 mention_pattern (render mention_token ps))
                (render mention_token ps) w) as [w' Hw].
    exists w'. rewrite Hw. rewrite findall_mentions by assumption.
    now rewrite mentions_in_pieces.
Qed.

Lemma mentions_are_resolved_in_place_witness :
  let ps := [Plain (T "Hi "); Mention (T "42"); Plain (T " and ");
             Mention (T "7"); Plain (T ", "); Mention (T "42")] in
  render mention_token ps = T "Hi [~accountid:42] and [~accountid:7], [~accountid:42]"
  /\ render (resolved ada) ps = T "Hi @<Ada> and [~accountid:7], @<Ada>"
  /\ exists w',
       _process_mentions ada (render mention_token ps) mention_pattern new_world
       = (Returns (render (resolved ada) ps), w').
Proof.
  intros ps. split; [reflexivity | split; [reflexivity | ]].
  apply (proj2 (mentions_are_resolved_in_place ada new_world) ps); reflexivity.
Defined.

(** the example of the specification *)
Example mention_of_ada :
  fst (_process_mentions ada (T "[~accountid:42]") mention_pattern new_world)
  = Returns (T "@<Ada>")
  /\ fst (_process_mentions ada (T "[~accountid:7]") mention_pattern new_world)
     = Returns (T "[~accountid:7]").
Proof. split; vm_compute; reflexivity. Qed.

(** ** Smart links *)

Lemma search_from_quiet r pv a b :
  quiet r pv a b -> search_from r pv (a ++ b) = search_from r (last_of a pv) b.
Proof.
  revert pv. induction a as [ | c a IH]; intros pv H; cbn [app last_of]; [reflexivity | ].
  destruct b as [ | x b]; cbn [search_from]; rewrite (quiet_head H); cbn [app];
    apply IH; now apply quiet_tail in H.
Qed.

Lemma search_from_hit r pv rs m :
  match_at r pv rs = Some m -> search_from r pv rs = Some m.
Proof. intros H. destruct rs; cbn [search_from]; now rewrite H. Qed.

Lemma dot_of_lacks s :
  lacks (either (just "|") (just LF)) s = true ->
  Forall (fun c => dot c = true) s.
Proof.
  intros H. apply lacks_Forall in H. revert H. apply Forall_impl.
  intros c Hc. unfold either in Hc. apply orb_false_iff in Hc as [_ Hc].
  unfold dot, not_in. now rewrite Hc.
Qed.

Lemma not_bar s c :
  lacks (either (just "|") (just LF)) s = true -> In c s -> Ascii.eqb c "|" = false.
Proof.
  intros H Hin. apply (lacks_In _ _ _ H) in Hin. unfold either, just in Hin.
  now destruct (Ascii.eqb c "|").
Qed.

(** walk a lazy [.*?] over a stretch without [|] and line feed *)
Ltac scan_to_bar H :=
  rewrite star_lazy_scan;
  [ | now apply dot_of_lacks
    | let c := fresh "c" in let Hc := fresh "Hc" in
      intros c ? ? Hc; cbn -[star_loop consumed]; now rewrite (@not_bar _ c H Hc)
    | | rewrite length_app; lia ].

Lemma smart_link_match pv link_text link_url post :
  lacks (either (just "|") (just LF)) link_text = true ->
  lacks (either (just "|") (just LF)) link_url = true ->
  match_at smart_link_pattern pv
    ((T "[" ++ link_text ++ T "|" ++ link_url ++ T "|smart-link]") ++ post)
  = Some (Match (T "[" ++ link_text ++ T "|" ++ link_url ++ T "|smart-link]")
                [(2, link_url); (1, link_text)]).
Proof.
  intros Ht Hu. unfold match_at, smart_link_pattern.
  cbn -[star_loop consumed].
  repeat first [rewrite <- app_assoc | progress (cbn [app])].
  scan_to_bar Ht.
  - cbn -[star_loop consumed]. scan_to_bar Hu.
    + cbn -[consumed]. unfold advance. cbn -[consumed]. repeat f_equal; consumed_tac.
    + cbn. discriminate.
  - cbn -[star_loop consumed]. scan_to_bar Hu.
    + cbn. discriminate.
    + cbn. discriminate.
Qed.

(** run a greedy class repetition over a stretch of that class *)
Ltac run_class H :=
  rewrite star_greedy_max;
  [ | now apply all_Forall | | | rewrite length_app; lia ].

Lemma issue_key_match pv p proj n num post :
  forallb is_upper (p :: proj) = true -> forallb is_digit (n :: num) = true ->
  starts_with_digit post = false ->
  match_at issue_key_pattern pv (T "browse/" ++ (p :: proj) ++ T "-" ++ (n :: num) ++ post)
  = Some (Match (T "browse/" ++ (p :: proj) ++ T "-" ++ (n :: num))
                [(1, (p :: proj) ++ T "-" ++ (n :: num))]).
Proof.
  intros Hp Hn Hpost. cbn [forallb] in Hp, Hn.
  apply andb_true_iff in Hp as [Hp0 Hp]. apply andb_true_iff in Hn as [Hn0 Hn].
  assert (Hv : match post with [] => True | c :: _ => is_digit c = false end)
    by (destruct post; [exact I | exact Hpost]).
  unfold match_at, issue_key_pattern.
  cbn -[star_loop consumed]. rewrite Hp0.
  run_class Hp.
  - cbn -[star_loop consumed]. rewrite Hn0. run_class Hn.
    + cbn -[consumed]. unfold advance. cbn -[consumed]. repeat f_equal; consumed_tac.
    + exact Hv.
    + cbn. discriminate.
  - reflexivity.
  - cbn -[star_loop consumed]. rewrite Hn0. run_class Hn.
    + cbn. discriminate.
    + exact Hv.
    + cbn. discriminate.
Qed.

Lemma replace_from_end o old new : replace_from (o :: old) new [] 0 = [].
Proof. reflexivity. Qed.

(** one occurrence of [old] between two stretches that lack its first
    character *)
Lemma replace_between o old new a b :
  lacks (just o) a = true -> lacks (just o) b = true ->
  replace (o :: old) new (a ++ (o :: old) ++ b) = a ++ new ++ b.
Proof.
  intros Ha Hb. unfold replace. rewrite replace_from_quiet by assumption.
  rewrite replace_from_hit. rewrite <- (app_nil_r b) at 1.
  rewrite replace_from_quiet by assumption. cbn. now rewrite app_nil_r.
Qed.

Lemma finditer_between r a x b m :
  nullable r = false -> subclass (first_set r) (just "[") = true ->
  lacks (just "[") a = true -> lacks (just "[") b = true -> x <> [] ->
  (forall pv, match_at r pv (x ++ b) = Some m) -> m_all m = x ->
  finditer r (a ++ x ++ b) = [m].
Proof.
  intros Hn Hs Ha Hb Hx Hm Hall. unfold finditer.
  assert (Hq : forall pv s t, lacks (just "[") s = true -> quiet r pv s t).
  { intros pv s t H. apply quiet_first; [assumption | ]. now apply (lacks_first (just "[")). }
  rewrite finditer_from_quiet by now apply Hq.
  rewrite (@finditer_from_match r _ x b m); try assumption; [ | apply Hm].
  f_equal. rewrite <- (app_nil_r b). rewrite finditer_from_quiet by now apply Hq.
  cbn. now rewrite match_at_none_nil.
Qed.

(** *** What a match consumes *)





(** *** Brackets and line feeds *)









(** *** A smart-link token in its text *)














(** the example of the specification, and the base url as the
    constructor stores it *)
Example smart_link_of_the_specification :
  _process_smart_links (init_base_url (T "https://host"))
    (T "[Bug Report|https://host/browse/PROJ-7|smart-link]")
  = T "[PROJ-7](https://host/browse/PROJ-7)"
  /\ init_base_url (T "https://host/") = T "https://host".
Proof. split; vm_compute; reflexivity. Qed.

(** * Further properties of the code *)

(** ** Stripping *)

Lemma lstrip_split p s :
  exists a, s = a ++ lstrip p s /\ forallb p a = true
            /\ match lstrip p s with [] => True | c :: _ => p c = false end.
Proof.
  induction s as [ | c s IH].
  - exists []. now cbn.
  - cbn [lstrip]. destruct (p c) eqn:E.
    + destruct IH as (a & H1 & H2 & H3). exists (c :: a). cbn. rewrite E, H2.
      repeat split; [now f_equal | assumption].
    + exists []. now cbn.
Qed.

Lemma rstrip_split p s :
  exists b, s = rstrip p s ++ b /\ forallb p b = true
            /\ match last_char (rstrip p s) with Some c => p c = false | None => True end.
Proof.
  unfold rstrip, last_char. destruct (lstrip_split p (rev s)) as (a & H1 & H2 & H3).
  exists (rev a). rewrite rev_involutive. repeat split.
  - rewrite <- rev_app_distr, <- H1. now rewrite rev_involutive.
  - rewrite forallb_forall in *. intros x Hx. apply H2. now apply in_rev.
  - destruct (lstrip p (rev s)); assumption.
Qed.

Lemma lstrip_fixed p s :
  match s with [] => True | c :: _ => p c = false end -> lstrip p s = s.
Proof. destruct s as [ | c s]; [reflexivity | ]. cbn. now intros ->. Qed.

Lemma rstrip_fixed p s :
  match last_char s with Some c => p c = false | None => True end -> rstrip p s = s.
Proof.
  unfold rstrip, last_char. intros H. rewrite lstrip_fixed; [apply rev_involutive | ].
  destruct (rev s); assumption.
Qed.

Lemma last_char_app_cons a c b : last_char (a ++ c :: b) = last_char (c :: b).
Proof.
  unfold last_char. rewrite rev_app_distr. cbn [rev].
  destruct (rev b) as [ | x r]; cbn; [ | reflexivity].
  reflexivity.
Qed.

(** what [rstrip] keeps starts as the text does *)
Lemma rstrip_head p c s :
  p c = false -> exists t, rstrip p (c :: s) = c :: t.
Proof.
  intros Hc. destruct (rstrip_split p (c :: s)) as (b & H1 & H2 & _).
  destruct (rstrip p (c :: s)) as [ | x t] eqn:E.
  - cbn in H1. subst b. cbn in H2. now rewrite Hc in H2.
  - injection H1 as <- _. now exists t.
Qed.

Lemma strip_trimmed s : trimmed is_space (strip s) = true.
Proof.
  unfold strip. destruct (lstrip_split is_space s) as (a & _ & _ & H3).
  destruct (lstrip is_space s) as [ | c t] eqn:E; [reflexivity | ].
  destruct (rstrip_head is_space c t H3) as [t' Ht].
  destruct (rstrip_split is_space (c :: t)) as (b & _ & _ & H6).
  rewrite Ht in *. cbn [trimmed]. rewrite H3. cbn [negb andb].
  destruct (last_char (c :: t')); [now rewrite H6 | reflexivity].
Qed.

Lemma strip_of_trimmed s : trimmed is_space s = true -> strip s = s.
Proof.
  destruct s as [ | c s]; [reflexivity | ]. cbn [trimmed].
  intros H. apply andb_true_iff in H as [Hc Hl]. apply negb_true_iff in Hc.
  unfold strip. rewrite lstrip_fixed by exact Hc. apply rstrip_fixed.
  destruct (last_char (c :: s)); [now apply negb_true_iff | exact I].
Qed.

(** ** The base url *)

(** X1: the constructor removes trailing slashes and nothing else: the
    base url given is the stored one followed by slashes only, the
    stored one does not end with a slash, and storing it again changes
    nothing. *)
Theorem base_url_loses_trailing_slashes (base_url : text) :
  (exists k, base_url = init_base_url base_url ++ times (T "/") k)
  /\ last_char (init_base_url base_url) <> Some "/"%char
  /\ init_base_url (init_base_url base_url) = init_base_url base_url.
Proof.
  unfold init_base_url. destruct base_url as [ | c s]; cbn [is_empty].
  - repeat split; [now exists 0 | discriminate].
  - destruct (rstrip_split (just "/") (c :: s)) as (b & H1 & H2 & H3).
    assert (Hl : last_char (rstrip (just "/") (c :: s)) <> Some "/"%char).
    { intros E. rewrite E in H3. discriminate. }
    repeat split.
    + exists (length b). rewrite H1 at 1. f_equal.
      clear H1. induction b as [ | x b IH]; [reflexivity | ].
      cbn in H2. apply andb_true_iff in H2 as [Hx H2]. apply Ascii.eqb_eq in Hx. subst x.
      cbn. f_equal. now apply IH.
    + exact Hl.
    + destruct (rstrip (just "/") (c :: s)) as [ | x t] eqn:E; [reflexivity | ].
      cbn [is_empty]. apply rstrip_fixed.
      destruct (last_char (x :: t)) as [d | ]; [ | exact I].
      unfold just. destruct (Ascii.eqb d "/") eqn:Ed; [ | reflexivity].
      apply Ascii.eqb_eq in Ed. subst d. contradiction.
Qed.

(** ** clean_jira_text *)

Lemma search_needs P r s :
  needs P r = true -> lacks P s = true -> re_search r s = None.
Proof.
  intros Hn Hl. unfold re_search. rewrite <- (app_nil_r s).
  rewrite search_from_quiet.
  - cbn [search_from]. now rewrite (match_at_none_needs P r).
  - apply (quiet_needs P); [assumption | ]. rewrite app_nil_r. now apply lacks_Forall.
Qed.

Lemma finditer_needs P r s :
  needs P r = true -> lacks P s = true -> finditer r s = [].
Proof.
  intros Hn Hl. unfold finditer. rewrite <- (app_nil_r s).
  rewrite finditer_from_quiet.
  - cbn [finditer_from]. now rewrite (match_at_none_needs P r).
  - apply (quiet_needs P); [assumption | ]. rewrite app_nil_r. now apply lacks_Forall.
Qed.

Lemma convert_html_plain html_to_markdown txt w :
  lacks (just "<") txt = true ->
  _convert_html_to_markdown html_to_markdown txt w = (Returns txt, w).
Proof.
  intros H. unfold _convert_html_to_markdown.
  now rewrite (search_needs (just "<") html_tag_pattern).
Qed.

Lemma convert_html_cases html_to_markdown txt w :
  exists out w', _convert_html_to_markdown html_to_markdown txt w = (Returns out, w')
                 /\ lookups w' = lookups w
                 /\ (out = txt \/ html_to_markdown txt = Some out)
                 /\ (html_to_markdown txt = None -> out = txt).
Proof.
  unfold _convert_html_to_markdown.
  destruct (re_search html_tag_pattern txt).
  - destruct (html_to_markdown txt) as [md | ] eqn:E.
    + exists md, w. repeat split; [now right | discriminate].
    + eexists txt, _. unfold bind, log, ret. cbn. repeat split. now left.
  - exists txt, w. repeat split. now left.
Qed.

Lemma convert_html_returns html_to_markdown txt w :
  exists out w', _convert_html_to_markdown html_to_markdown txt w = (Returns out, w').
Proof.
  destruct (convert_html_cases html_to_markdown txt w) as (out & w' & H & _).
  now exists out, w'.
Qed.

(** X2: a text without [<] is not handed to the HTML conversion; with
    [<...>] in it the conversion's result is taken, and when the
    conversion raises the text is kept and the failure logged.  The
    step never raises. *)
Theorem html_step_only_for_tags
    (html_to_markdown : text -> option text) (txt : text) (w : world) :
  (lacks (just "<") txt = true ->
     _convert_html_to_markdown html_to_markdown txt w = (Returns txt, w))
  /\ (exists out w', _convert_html_to_markdown html_to_markdown txt w = (Returns out, w')
                     /\ lookups w' = lookups w
                     /\ (out = txt \/ html_to_markdown txt = Some out)
                     /\ (html_to_markdown txt = None -> out = txt)).
Proof.
  split; [apply convert_html_plain | apply convert_html_cases].
Qed.

Lemma html_step_only_for_tags_witness :
  _convert_html_to_markdown (fun _ => None) (T "a > b") new_world
  = (Returns (T "a > b"), new_world).
Proof.
  apply (proj1 (html_step_only_for_tags (fun _ => None) (T "a > b") new_world)).
  reflexivity.
Defined.

(** X3: [clean_jira_text] never raises, whatever the user lookups and
    the HTML conversion do, and what it returns has no white space at
    its start or end. *)
Theorem clean_jira_text_returns_trimmed
    (jira_user : text -> lookup_result) (html_to_markdown : text -> option text)
    (base_url : text) (txt : option text) (w : world) :
  exists out w',
    clean_jira_text jira_user html_to_markdown base_url txt w = (Returns out, w')
    /\ trimmed is_space out = true /\ strip out = out.
Proof.
  unfold clean_jira_text. destruct txt as [[ | c t] | ].
  - exists [], w. now cbn.
  - cbn [is_empty]. unfold _process_mentions.
    destruct (mentions_loop_returns jira_user
                (findall1 mention_pattern (c :: t)) (c :: t) w) as [w1 H1].
    unfold bind at 1. rewrite H1.
    match goal with
    | |- context [_convert_html_to_markdown html_to_markdown ?x] =>
        destruct (convert_html_returns html_to_markdown x w1) as (out & w2 & H2)
    end.
    unfold bind. rewrite H2. eexists _, w2. split; [reflexivity | ].
    split; [apply strip_trimmed | apply strip_of_trimmed, strip_trimmed].
  - exists [], w. now cbn.
Qed.

(** X4: a text without wiki markup and without [<] comes back from
    [clean_jira_text] stripped and otherwise as it is, with no lookup,
    no log record and no change of the cache. *)
Theorem clean_jira_text_keeps_plain_text
    (jira_user : text -> lookup_result) (html_to_markdown : text -> option text)
    (base_url txt : text) (w : world) :
  lacks jira_markup txt = true ->
  clean_jira_text jira_user html_to_markdown base_url (Some txt) w
  = (Returns (strip txt), w).
Proof.
  intros H.
  assert (Hw : lacks wiki_markup txt = true)
    by (revert H; apply lacks_sub; vm_compute; reflexivity).
  assert (Hl : lacks (just "<") txt = true)
    by (revert H; apply lacks_sub; vm_compute; reflexivity).
  unfold clean_jira_text. destruct txt as [ | c t]; [reflexivity | ].
  cbn [is_empty]. unfold _process_mentions, findall1.
  rewrite (finditer_needs wiki_markup mention_pattern) by (assumption || (vm_compute; reflexivity)).
  cbn [map mentions_loop]. unfold bind at 1, ret at 1.
  unfold _process_smart_links.
  rewrite (finditer_needs wiki_markup smart_link_pattern) by (assumption || (vm_compute; reflexivity)).
  cbn [fold_left]. rewrite jira_to_markdown_plain by assumption.
  unfold bind. rewrite (convert_html_plain html_to_markdown (c :: t) w Hl). reflexivity.
Qed.

Lemma clean_jira_text_keeps_plain_text_witness :
  clean_jira_text ada (fun _ => None) (T "https://host")
    (Some (T "  Deploy on Monday (see notes)  ")) new_world
  = (Returns (strip (T "  Deploy on Monday (see notes)  ")), new_world).
Proof.
  apply (clean_jira_text_keeps_plain_text ada (fun _ => None) (T "https://host")
           (T "  Deploy on Monday (see notes)  ") new_world).
  vm_compute. reflexivity.
Defined.

(** ** The cache behind [_find_user] *)

Lemma lru_find_ok jira_user c id u :
  cache_ok jira_user c = true -> lru_find id c = Some u -> jira_user id = Found u.
Proof.
  induction c as [ | [k v] c IH]; cbn; [discriminate | ].
  intros H. apply andb_true_iff in H as [Hk H].
  destruct (text_eqb id k) eqn:E.
  - apply text_eqb_eq in E; subst k. intros [= ->].
    destruct (jira_user id) as [d | e]; [ | discriminate].
    apply text_eqb_eq in Hk. now subst.
  - now apply IH.
Qed.

Lemma lru_remove_ok jira_user c id :
  cache_ok jira_user c = true -> cache_ok jira_user (lru_remove id c) = true.
Proof.
  unfold cache_ok. induction c as [ | [k v] c IH]; cbn; [reflexivity | ].
  intros H. apply andb_true_iff in H as [Hk H].
  destruct (text_eqb id k); [assumption | ]. cbn. now rewrite Hk, IH.
Qed.

Lemma firstn_ok jira_user n : forall c,
  cache_ok jira_user c = true -> cache_ok jira_user (firstn n c) = true.
Proof.
  unfold cache_ok. induction n as [ | n IH]; intros [ | kv c]; cbn; try reflexivity.
  intros H. apply andb_true_iff in H as [Hk H]. now rewrite Hk, IH.
Qed.

Lemma lru_find_remove_other id k c :
  text_eqb k id = false -> lru_find k (lru_remove id c) = lru_find k c.
Proof.
  intros Hne. induction c as [ | [k' v] c IH]; cbn; [reflexivity | ].
  destruct (text_eqb id k') eqn:E.
  - apply text_eqb_eq in E; subst k'. now rewrite Hne.
  - cbn. now rewrite IH.
Qed.

Lemma lru_find_remove_same id c :
  keys_distinct c = true -> lru_find id (lru_remove id c) = None.
Proof.
  induction c as [ | [k v] c IH]; cbn; [reflexivity | ].
  destruct (lru_find k c) eqn:Ek; [discriminate | ]. intros H.
  destruct (text_eqb id k) eqn:E.
  - apply text_eqb_eq in E; now subst k.
  - cbn. rewrite E. now apply IH.
Qed.

Lemma lru_remove_distinct id c :
  keys_distinct c = true -> keys_distinct (lru_remove id c) = true.
Proof.
  induction c as [ | [k v] c IH]; cbn; [reflexivity | ].
  destruct (lru_find k c) eqn:Ek; [discriminate | ]. intros H.
  destruct (text_eqb id k) eqn:E; [assumption | ].
  cbn. rewrite lru_find_remove_other, Ek; [now apply IH | ].
  destruct (text_eqb k id) eqn:E'; [ | reflexivity].
  apply text_eqb_eq in E'. subst k. now rewrite text_eqb_refl in E.
Qed.

Lemma lru_find_firstn_none n : forall c k,
  lru_find k c = None -> lru_find k (firstn n c) = None.
Proof.
  induction n as [ | n IH]; intros [ | [k' v] c] k; cbn; try reflexivity.
  destruct (text_eqb k k'); [discriminate | apply IH].
Qed.

Lemma firstn_distinct n : forall c,
  keys_distinct c = true -> keys_distinct (firstn n c) = true.
Proof.
  induction n as [ | n IH]; intros [ | [k v] c]; cbn; try reflexivity.
  destruct (lru_find k c) eqn:Ek; [discriminate | ]. intros H.
  rewrite lru_find_firstn_none by assumption. now apply IH.
Qed.

(** what one call of [_find_user] does to the cache and to the lookups *)
Lemma find_user_step jira_user id w :
  match lru_find id (user_cache w) with
  | Some u =>
      _find_user jira_user id w
      = (Returns u, World (lookups w) (logged w) ((id, u) :: lru_remove id (user_cache w)))
  | None =>
      match jira_user id with
      | Found d =>
          _find_user jira_user id w
          = (Returns d,
             World (id :: lookups w) ((T "Cache miss for user: " ++ id) :: logged w)
                   (firstn 100 ((id, d) :: user_cache w)))
      | Raises e =>
          _find_user jira_user id w
          = (Throws e,
             World (id :: lookups w) ((T "Cache miss for user: " ++ id) :: logged w)
                   (user_cache w))
      end
  end.
Proof.
  unfold _find_user, cached_find_user, bind, log, client_user, lru_touch, lru_store.
  destruct (lru_find id (user_cache w)); [reflexivity | ].
  cbn -[firstn]. destruct (jira_user id); reflexivity.
Qed.

(** the three properties the cache keeps *)
Lemma find_user_invariant jira_user id w :
  cache_ok jira_user (user_cache w) = true ->
  keys_distinct (user_cache w) = true ->
  length (user_cache w) <= 100 ->
  let w' := snd (_find_user jira_user id w) in
  cache_ok jira_user (user_cache w') = true
  /\ keys_distinct (user_cache w') = true
  /\ length (user_cache w') <= 100.
Proof.
  intros Hok Hd Hl. pose proof (find_user_step jira_user id w) as Hs.
  destruct (lru_find id (user_cache w)) as [u | ] eqn:E.
  - rewrite Hs. cbn [snd user_cache]. repeat split.
    + cbn [cache_ok forallb fst snd]. rewrite (lru_find_ok jira_user _ _ Hok E), text_eqb_refl.
      now apply lru_remove_ok.
    + cbn [keys_distinct]. rewrite lru_find_remove_same by assumption.
      now apply lru_remove_distinct.
    + cbn [length]. apply lru_remove_length in E. lia.
  - destruct (jira_user id) as [d | e] eqn:Ej; rewrite Hs; cbn [snd user_cache].
    + repeat split.
      * apply firstn_ok. cbn [cache_ok forallb fst snd]. now rewrite Ej, text_eqb_refl.
      * apply firstn_distinct. cbn [keys_distinct]. now rewrite E.
      * rewrite length_firstn. lia.
    + now repeat split.
Qed.

(** X5: a successful lookup is cached.  With a cache that agrees with
    the client, a call of [_find_user] for a known user returns that
    user, and a second call for the same account id right after it
    returns the same and makes no external lookup. *)
Theorem find_user_second_call_is_a_hit
    (jira_user : text -> lookup_result) (id d : text) (w : world) :
  jira_user id = Found d ->
  cache_ok jira_user (user_cache w) = true ->
  let r1 := _find_user jira_user id w in
  let r2 := _find_user jira_user id (snd r1) in
  fst r1 = Returns d /\ fst r2 = Returns d
  /\ lookups (snd r2) = lookups (snd r1)
  /\ (lru_find id (user_cache w) = None -> lookups (snd r1) = id :: lookups w)
  /\ (lru_find id (user_cache w) <> None -> lookups (snd r1) = lookups w).
Proof.
  intros Hj Hok. cbv zeta.
  pose proof (find_user_step jira_user id w) as Hs.
  destruct (lru_find id (user_cache w)) as [u | ] eqn:E.
  - pose proof (lru_find_ok jira_user _ _ Hok E) as Hu. rewrite Hj in Hu.
    injection Hu as <-. rewrite Hs. cbn [fst snd].
    pose proof (find_user_step jira_user id
                  (World (lookups w) (logged w) ((id, d) :: lru_remove id (user_cache w)))) as Hs2.
    cbn [user_cache lru_find] in Hs2. rewrite text_eqb_refl in Hs2. rewrite Hs2.
    cbn [fst snd lookups].
    split; [reflexivity | ]. split; [reflexivity | ]. split; [reflexivity | ].
    split; [intros H; discriminate | intros _; reflexivity].
  - rewrite Hj in Hs. rewrite Hs. cbn [fst snd].
    change (firstn 100 ((id, d) :: user_cache w))
      with ((id, d) :: firstn 99 (user_cache w)).
    match goal with
    | |- context [_find_user jira_user id ?w1] =>
        pose proof (find_user_step jira_user id w1) as Hs2
    end.
    cbn [user_cache lru_find] in Hs2. rewrite text_eqb_refl in Hs2. rewrite Hs2.
    cbn [fst snd lookups].
    split; [reflexivity | ]. split; [reflexivity | ]. split; [reflexivity | ].
    split; [intros _; reflexivity | intros H; now contradiction H].
Qed.

Lemma find_user_second_call_is_a_hit_witness :
  let r1 := _find_user ada (T "42") new_world in
  let r2 := _find_user ada (T "42") (snd r1) in
  fst r1 = Returns (T "Ada") /\ fst r2 = Returns (T "Ada")
  /\ lookups (snd r2) = lookups (snd r1)
  /\ (lru_find (T "42") (user_cache new_world) = None
      -> lookups (snd r1) = T "42" :: lookups new_world)
  /\ (lru_find (T "42") (user_cache new_world) <> None
      -> lookups (snd r1) = lookups new_world).
Proof.
  apply (@find_user_second_call_is_a_hit ada (T "42") (T "Ada") new_world); reflexivity.
Defined.

(** X6: a failed lookup is not cached: the exception goes to the
    caller, the cache stays as it was, and the next call for the same
    account id asks the client again. *)
Theorem find_user_does_not_cache_failures
    (jira_user : text -> lookup_result) (id e : text) (w : world) :
  jira_user id = Raises e ->
  cache_ok jira_user (user_cache w) = true ->
  let r1 := _find_user jira_user id w in
  let r2 := _find_user jira_user id (snd r1) in
  fst r1 = Throws e /\ fst r2 = Throws e
  /\ user_cache (snd r2) = user_cache w
  /\ lookups (snd r2) = id :: id :: lookups w.
Proof.
  intros Hj Hok. cbv zeta.
  assert (E : lru_find id (user_cache w) = None).
  { destruct (lru_find id (user_cache w)) as [u | ] eqn:E; [ | reflexivity].
    apply (lru_find_ok jira_user _ _ Hok) in E. congruence. }
  pose proof (find_user_step jira_user id w) as Hs. rewrite E, Hj in Hs. rewrite Hs.
  cbn [fst snd].
  match goal with
  | |- context [_find_user jira_user id ?w1] =>
      pose proof (find_user_step jira_user id w1) as Hs2
  end.
  cbn [user_cache] in Hs2. rewrite E, Hj in Hs2. rewrite Hs2. now cbn.
Qed.

Lemma find_user_does_not_cache_failures_witness :
  let r1 := _find_user ada (T "7") new_world in
  let r2 := _find_user ada (T "7") (snd r1) in
  fst r1 = Throws (T "404") /\ fst r2 = Throws (T "404")
  /\ user_cache (snd r2) = user_cache new_world
  /\ lookups (snd r2) = T "7" :: T "7" :: lookups new_world.
Proof.
  apply (@find_user_does_not_cache_failures ada (T "7") (T "404") new_world); reflexivity.
Defined.

Lemma lru_find_app_none id c k v :
  lru_find id (c ++ [(k, v)]) = None -> text_eqb k id = false.
Proof.
  induction c as [ | [k' v'] c IH]; cbn.
  - destruct (text_eqb id k) eqn:E; [discriminate | ].
    intros _. destruct (text_eqb k id) eqn:E'; [ | reflexivity].
    apply text_eqb_eq in E'. subst k. now rewrite text_eqb_refl in E.
  - destruct (text_eqb id k'); [discriminate | exact IH].
Qed.

Lemma lru_find_last k v c : lru_find k (c ++ [(k, v)]) <> None.
Proof.
  induction c as [ | [k' v'] c IH]; cbn.
  - now rewrite text_eqb_refl.
  - destruct (text_eqb k k'); [discriminate | exact IH].
Qed.

Lemma keys_distinct_last c k v :
  keys_distinct (c ++ [(k, v)]) = true -> lru_find k c = None.
Proof.
  induction c as [ | [k' v'] c IH]; [reflexivity | ].
  cbn [app keys_distinct lru_find].
  destruct (lru_find k' (c ++ [(k, v)])) eqn:Ek; [discriminate | ].
  intros H. rewrite (IH H).
  destruct (text_eqb k k') eqn:E'; [ | reflexivity].
  apply text_eqb_eq in E'. subst k'. now apply lru_find_last in Ek.
Qed.

(** X7: the cache is bounded and drops the least recently used user.
    A call keeps the cache within 100 entries, without a key twice and
    in agreement with the client.  A hit moves the entry to the front;
    a successful miss puts the new user in front, and on a full cache
    the entry at the end, the least recently used one, is dropped. *)
Theorem find_user_evicts_least_recent
    (jira_user : text -> lookup_result) (id : text) (w : world) :
  cache_ok jira_user (user_cache w) = true ->
  keys_distinct (user_cache w) = true ->
  length (user_cache w) <= 100 ->
  let w' := snd (_find_user jira_user id w) in
  (cache_ok jira_user (user_cache w') = true
   /\ keys_distinct (user_cache w') = true
   /\ length (user_cache w') <= 100)
  /\ (forall u, lru_find id (user_cache w) = Some u ->
        user_cache w' = (id, u) :: lru_remove id (user_cache w))
  /\ (forall d, lru_find id (user_cache w) = None -> jira_user id = Found d ->
        length (user_cache w) < 100 -> user_cache w' = (id, d) :: user_cache w)
  /\ (forall d c last, lru_find id (user_cache w) = None -> jira_user id = Found d ->
        user_cache w = c ++ [last] -> length c = 99 ->
        user_cache w' = (id, d) :: c /\ lru_find (fst last) (user_cache w') = None).
Proof.
  intros Hok Hd Hl. cbv zeta. split; [now apply find_user_invariant | ].
  pose proof (find_user_step jira_user id w) as Hs.
  split; [ | split].
  - intros u E. rewrite E in Hs. now rewrite Hs.
  - intros d E Hj Hlt. rewrite E, Hj in Hs. rewrite Hs. cbn [snd user_cache].
    change (firstn 100 ((id, d) :: user_cache w))
      with ((id, d) :: firstn 99 (user_cache w)).
    f_equal. apply firstn_all2. lia.
  - intros d c last E Hj Hc Hlen. rewrite E, Hj in Hs. rewrite Hs. cbn [snd user_cache].
    change (firstn 100 ((id, d) :: user_cache w))
      with ((id, d) :: firstn 99 (user_cache w)).
    assert (Hf : firstn 99 (user_cache w) = c).
    { rewrite Hc, <- Hlen, firstn_app, Nat.sub_diag, firstn_all, firstn_O.
      apply app_nil_r. }
    rewrite Hf. split; [reflexivity | ].
    destruct last as [k v]. cbn [fst lru_find].
    rewrite Hc in E, Hd.
    rewrite (lru_find_app_none _ _ _ _ E).
    now apply (keys_distinct_last c k v).
Qed.

Lemma find_user_evicts_least_recent_witness :
  (user_cache (snd (_find_user directory (T "100") full_world))
   = (T "100", T "user 100") :: firstn 99 full_cache
   /\ lru_find (T "99") (user_cache (snd (_find_user directory (T "100") full_world)))
      = None)
  /\ user_cache (snd (_find_user directory (T "7") full_world))
     = (T "7", T "user 7") :: lru_remove (T "7") full_cache
  /\ length (user_cache (snd (_find_user directory (T "100") full_world))) <= 100.
Proof.
  assert (Hok : cache_ok directory (user_cache full_world) = true)
    by (vm_compute; reflexivity).
  assert (Hd : keys_distinct (user_cache full_world) = true)
    by (vm_compute; reflexivity).
  assert (Hl : length (user_cache full_world) <= 100) by (vm_compute; lia).
  pose proof (@find_user_evicts_least_recent directory (T "100") full_world Hok Hd Hl)
    as Hmiss.
  pose proof (@find_user_evicts_least_recent directory (T "7") full_world Hok Hd Hl)
    as Hhit.
  cbv zeta in Hmiss, Hhit.
  destruct Hmiss as ((_ & _ & Hbound) & _ & _ & Hevict).
  destruct Hhit as (_ & Hhit & _).
  split; [ | split].
  - apply (Hevict (T "user 100") (firstn 99 full_cache) (T "99", T "user 99"));
      vm_compute; reflexivity.
  - apply (Hhit (T "user 7")). vm_compute. reflexivity.
  - exact Hbound.
Defined.

(** ** markdown_to_jira on text without markup, and its table step *)

Lemma m2j_tables_lacks s :
  lacks (just "|") s = true -> join [LF] (m2j_tables (split LF s)) = s.
Proof.
  intros H. unfold m2j_tables. rewrite m2j_table_loop_quiet; [apply join_split | ].
  eapply Forall_impl; [ | apply split_lacks, H].
  intros l Hl. unfold re_match. apply (match_at_none_needs (just "|")); [reflexivity | ].
  now apply lacks_Forall.
Qed.

Lemma markdown_to_jira_plain y :
  lacks md_markup y = true -> markdown_to_jira y = y.
Proof.
  intros H. unfold markdown_to_jira. destruct y as [ | c y]; [reflexivity | ].
  cbn [is_empty]. cbv zeta. unfold M2J.tags, M2J.tag_map. cbn [fold_left fst snd].
  repeat sub_pass md_markup H.
  apply m2j_tables_lacks. revert H. apply lacks_sub. vm_compute; reflexivity.
Qed.

(** X8: a text in which none of the characters
    [` = - # * _ . < ~ ! [ |] occurs comes back from [markdown_to_jira]
    as it is. *)
Theorem markdown_without_markup_is_fixed (y : text) :
  lacks md_markup y = true -> markdown_to_jira y = y.
Proof. apply markdown_to_jira_plain. Qed.

Lemma markdown_without_markup_is_fixed_witness :
  markdown_to_jira (T "Release notes (draft):" ++ [LF] ++ T "see {code} and h1 later")
  = T "Release notes (draft):" ++ [LF] ++ T "see {code} and h1 later".
Proof.
  apply (@markdown_without_markup_is_fixed
           (T "Release notes (draft):" ++ [LF] ++ T "see {code} and h1 later")).
  vm_compute. reflexivity.
Defined.

Lemma pop_at_middle (done : list text) x y rest :
  pop_at (length done + 1) (done ++ x :: y :: rest) = done ++ x :: rest.
Proof. induction done as [ | d done IH]; cbn; [reflexivity | now rewrite IH]. Qed.

Lemma nth_next_text (done : list text) x y rest :
  nth (length done + 1) (done ++ x :: y :: rest) [] = y.
Proof. induction done; cbn; [reflexivity | assumption]. Qed.

Lemma jira_rows_cons2 x y rest :
  jira_rows (x :: y :: rest)
  = if is_separator_row y then replace (T "|") (T "||") x :: jira_rows rest
    else x :: jira_rows (y :: rest).
Proof. reflexivity. Qed.

(** the loop of the table step, started behind the lines already done *)
Lemma m2j_table_loop_rows fuel : forall todo done,
  length todo <= fuel ->
  m2j_table_loop fuel (done ++ todo) (length done) = done ++ jira_rows todo.
Proof.
  induction fuel as [ | fuel IH]; intros todo done Hf.
  - destruct todo; [ | cbn in Hf; lia]. reflexivity.
  - destruct todo as [ | x todo].
    + cbn [m2j_table_loop jira_rows]. rewrite !app_nil_r, Nat.ltb_irrefl. reflexivity.
    + cbn [m2j_table_loop]. cbn [length] in Hf.
      replace (length done <? length (done ++ x :: todo)) with true
        by (symmetry; apply Nat.ltb_lt; rewrite length_app; cbn; lia).
      destruct todo as [ | y rest].
      * replace (length done <? length (done ++ [x]) - 1) with false
          by (symmetry; apply Nat.ltb_ge; rewrite length_app; cbn; lia).
        cbn [andb]. change (done ++ [x]) with (done ++ [x] ++ []).
        rewrite app_assoc.
        replace (length done + 1) with (length (done ++ [x]))
          by (rewrite length_app; cbn; lia).
        rewrite IH by (cbn; lia). cbn [jira_rows]. now rewrite app_nil_r.
      * replace (length done <? length (done ++ x :: y :: rest) - 1) with true
          by (symmetry; apply Nat.ltb_lt; rewrite length_app; cbn; lia).
        cbn [andb]. rewrite nth_next_text, jira_rows_cons2.
        fold (is_separator_row y). destruct (is_separator_row y).
        -- rewrite nth_middle_text, set_nth_middle, pop_at_middle.
           set (x' := replace (T "|") (T "||") x).
           change (done ++ x' :: rest) with (done ++ [x'] ++ rest).
           rewrite app_assoc.
           replace (length done + 1) with (length (done ++ [x']))
             by (rewrite length_app; cbn; lia).
           rewrite IH by (cbn in Hf; lia). now rewrite <- app_assoc.
        -- change (done ++ x :: y :: rest) with (done ++ [x] ++ y :: rest).
           rewrite app_assoc.
           replace (length done + 1) with (length (done ++ [x]))
             by (rewrite length_app; cbn; lia).
           rewrite IH by (cbn in Hf |- *; lia). now rewrite <- app_assoc.
Qed.

(** X9: the table step of [markdown_to_jira] doubles the bars of every
    line that stands right before a separator row (a line starting with
    [|], then characters among [-], [|] and white space, the last of
    them followed by [|]) and removes that row; the next line looked at
    is the one behind the removed row, and no other line changes.  Any
    fuel from the number of lines on gives this result, so the loop
    ends. *)
Theorem markdown_table_rows (lines : list text) (fuel : nat) :
  length lines <= fuel ->
  m2j_table_loop fuel lines 0 = jira_rows lines
  /\ m2j_tables lines = jira_rows lines
  /\ length (jira_rows lines) <= length lines.
Proof.
  intros H. split; [ | split].
  - now apply (@m2j_table_loop_rows fuel lines []).
  - now apply (@m2j_table_loop_rows (length lines) lines []).
  - clear. assert (Hs : forall n (l : list text), length l <= n ->
                          length (jira_rows l) <= length l).
    { induction n as [ | n IH]; intros l Hl.
      - destruct l; [cbn; lia | cbn in Hl; lia].
      - destruct l as [ | x [ | y rest]]; [cbn; lia | cbn; lia | ].
        rewrite jira_rows_cons2. cbn [length] in Hl.
        destruct (is_separator_row y); cbn [length].
        + specialize (IH rest). lia.
        + specialize (IH (y :: rest)). cbn [length] in IH. lia. }
    now apply (Hs (length lines)).
Qed.

Lemma markdown_table_rows_witness :
  m2j_table_loop 3 [T "|a|b|"; T "|---|---|"; T "|1|2|"] 0
    = jira_rows [T "|a|b|"; T "|---|---|"; T "|1|2|"]
  /\ m2j_tables [T "|a|b|"; T "|---|---|"; T "|1|2|"]
    = jira_rows [T "|a|b|"; T "|---|---|"; T "|1|2|"]
  /\ length (jira_rows [T "|a|b|"; T "|---|---|"; T "|1|2|"])
     <= length [T "|a|b|"; T "|---|---|"; T "|1|2|"].
Proof.
  apply (@markdown_table_rows [T "|a|b|"; T "|---|---|"; T "|1|2|"] 3). cbn. lia.
Defined.

(** ** Headers *)

(** a rule that starts with [^] finds nothing in a one-line text whose
    first character cannot start it *)
Lemma sub_anchored_line r f c t :
  anchored r = true -> nullable r = false -> first_set r c = false ->
  c <> LF -> lacks (just LF) t = true ->
  sub r f (c :: t) = c :: t.
Proof.
  intros Ha Hn Hf Hc Ht. apply sub_quiet; [ | now apply match_at_none_nil].
  apply quiet_cons; [now apply match_at_none_first | ].
  apply quiet_anchored; try assumption.
  apply lacks_Forall in Ht. revert Ht. apply Forall_impl.
  intros x Hx ->. discriminate.
Qed.

Lemma lacks_times P s n : lacks P s = true -> lacks P (times s n) = true.
Proof.
  intros H. induction n as [ | n IH]; [reflexivity | ].
  cbn [times]. now rewrite lacks_app, H, IH.
Qed.

Lemma class_lacks (P Q : ascii -> bool) c :
  subclass P (not_in Q) = true -> P c = true -> lacks Q [c] = true.
Proof.
  intros Hs Hc. apply (all_lacks P Q [c]); [assumption | ]. cbn. now rewrite Hc.
Qed.

Lemma dot_of_no_lf s : lacks (just LF) s = true -> Forall (fun c => dot c = true) s.
Proof.
  intros H. apply lacks_Forall in H. revert H. apply Forall_impl.
  intros c Hc. unfold dot, not_in. now rewrite Hc.
Qed.

Lemma header_match level title :
  between 48 54 level = true -> lacks (just LF) title = true ->
  match_at J2M.header None (wiki_header level title)
  = Some (Match (wiki_header level title) [(2, title); (1, [level])]).
Proof.
  intros Hd Ht. unfold match_at, J2M.header, wiki_header.
  cbn -[star_loop consumed]. rewrite Hd.
  rewrite <- (app_nil_r title) at 1 2.
  rewrite star_greedy_max.
  - cbn -[consumed]. unfold advance. cbn -[consumed]. repeat f_equal; consumed_tac.
  - now apply dot_of_no_lf.
  - exact I.
  - cbn. discriminate.
  - rewrite app_nil_r. lia.
Qed.

Lemma jira_header_to_atx level title :
  between 48 54 level = true ->
  lacks wiki_markup title = true -> lacks (just LF) title = true ->
  jira_to_markdown (wiki_header level title)
  = atx_header (code level - 48) title.
Proof.
  intros Hd H Hlf.
  assert (Hx : lacks line_markup (wiki_header level title) = true).
  { unfold wiki_header. rewrite !lacks_app.
    rewrite (class_lacks (between 48 54) line_markup level); [ | vm_compute; reflexivity | assumption].
    rewrite (lacks_sub line_markup wiki_markup title); [reflexivity | | assumption].
    vm_compute; reflexivity. }
  assert (Hlx : lacks (just LF) ([level] ++ T "." ++ title) = true).
  { rewrite !lacks_app, Hlf.
    rewrite (class_lacks (between 48 54) (just LF) level); [reflexivity | | assumption].
    vm_compute; reflexivity. }
  assert (Hy : lacks late_markup (atx_header (code level - 48) title) = true).
  { unfold atx_header. rewrite lacks_app, lacks_times by reflexivity.
    revert H. apply lacks_sub. vm_compute; reflexivity. }
  unfold jira_to_markdown.
  change (is_empty (wiki_header level title)) with false. cbv iota zeta.
  change (wiki_header level title) with ("h"%char :: ([level] ++ T "." ++ title)) at 1.
  rewrite (@sub_anchored_line J2M.block_quote) by
    (try reflexivity; try discriminate; exact Hlx).
  change ("h"%char :: ([level] ++ T "." ++ title)) with (wiki_header level title).
  repeat sub_pass line_markup Hx.
  rewrite (@sub_whole_match J2M.header _ _
             (Match (wiki_header level title) [(2, title); (1, [level])]));
    [ | discriminate | reflexivity | now apply header_match | reflexivity ].
  change (J2M.header_repl (Match (wiki_header level title) [(2, title); (1, [level])]))
    with (atx_header (code level - 48) title).
  repeat sub_pass late_markup Hy.
  apply j2m_tables_lacks. revert Hy. apply lacks_sub. vm_compute; reflexivity.
Qed.

Lemma all_times (P : ascii -> bool) c n :
  P c = true -> Forall (fun x => P x = true) (times [c] n).
Proof. intros H. induction n as [ | n IH]; cbn; constructor; assumption. Qed.

Lemma length_times_char (c : ascii) n : length (times [c] n) = n.
Proof. induction n as [ | n IH]; cbn; [reflexivity | now rewrite IH]. Qed.

Lemma uint_digits d :
  forallb is_digit (list_ascii_of_string (NilEmpty.string_of_uint d)) = true.
Proof. induction d; cbn; try reflexivity; exact IHd. Qed.

Lemma str_of_nat_digits n : forallb is_digit (str_of_nat n) = true.
Proof.
  unfold str_of_nat, T, NilZero.string_of_uint.
  destruct (Nat.to_uint n) eqn:E; try apply uint_digits. reflexivity.
Qed.

Lemma atx_match n title :
  lacks (either (just "#") (just LF)) title = true ->
  match_at M2J.atx None (atx_header (S n) title)
  = Some (Match (atx_header (S n) title) [(2, title); (1, times (T "#") (S n))]).
Proof.
  intros Ht.
  assert (Hh : lacks (just "#") title = true)
    by (revert Ht; apply lacks_sub; vm_compute; reflexivity).
  assert (Hl : lacks (just LF) title = true)
    by (revert Ht; apply lacks_sub; vm_compute; reflexivity).
  unfold match_at, M2J.atx, atx_header.
  cbn -[star_loop consumed times]. cbn [times app]. cbn -[star_loop consumed times].
  change (rmatch (Chr "#")) with (rmatch (Cls (just "#"))).
  change (T "#") with ["#"%char].
  rewrite star_greedy_max.
  - cbn -[star_loop consumed times]. rewrite <- (app_nil_r title) at 1 2.
    rewrite star_lazy_scan.
    + cbn -[consumed times]. unfold advance. cbn -[consumed times].
      repeat f_equal; consumed_tac.
    + now apply dot_of_no_lf.
    + intros c pv' t Hc. cbn. apply (lacks_In _ _ _ Hl) in Hc. unfold just in Hc.
      change (Ascii.eqb c "010" = false) in Hc. unfold at_eol. cbn. now rewrite Hc.
    + cbn. discriminate.
    + rewrite app_nil_r. lia.
  - now apply all_times.
  - destruct title as [ | c t]; [exact I | ]. cbn in Hh.
    now apply andb_true_iff in Hh as [Hc _]; apply negb_true_iff in Hc.
  - cbn -[star_loop consumed times]. rewrite <- (app_nil_r title) at 1 2.
    rewrite star_lazy_scan.
    + cbn. discriminate.
    + now apply dot_of_no_lf.
    + intros c pv' t Hc. cbn. apply (lacks_In _ _ _ Hl) in Hc. unfold just in Hc.
      change (Ascii.eqb c "010" = false) in Hc. unfold at_eol. cbn. now rewrite Hc.
    + cbn. discriminate.
    + rewrite app_nil_r. lia.
  - rewrite length_app, length_times_char. lia.
Qed.

Lemma lacks_either (P Q : ascii -> bool) s :
  lacks (either P Q) s = lacks P s && lacks Q s.
Proof.
  induction s as [ | c s IH]; [reflexivity | ].
  unfold lacks in *. cbn [forallb]. rewrite IH. unfold either.
  destruct (P c), (Q c); cbn; try reflexivity;
    repeat match goal with |- context [forallb ?f s] => destruct (forallb f s) end;
    reflexivity.
Qed.

Lemma atx_header_to_jira n title :
  lacks md_markup title = true -> lacks (just LF) title = true ->
  markdown_to_jira (atx_header (S n) title)
  = T "h" ++ str_of_nat (S n) ++ T "." ++ title.
Proof.
  intros H Hlf.
  assert (Hy : lacks md_late_markup (atx_header (S n) title) = true).
  { unfold atx_header. rewrite lacks_app, lacks_times by reflexivity.
    revert H. apply lacks_sub. vm_compute; reflexivity. }
  assert (Hd : forall Q, subclass is_digit (not_in Q) = true ->
                 lacks Q (str_of_nat (S n)) = true).
  { intros Q HQ. apply (all_lacks is_digit Q); [assumption | apply str_of_nat_digits]. }
  assert (Hz : lacks md_line_markup (T "h" ++ str_of_nat (S n) ++ T "." ++ title) = true).
  { rewrite !lacks_app, Hd by (vm_compute; reflexivity).
    rewrite (lacks_sub md_line_markup md_markup title); [reflexivity | | assumption].
    vm_compute; reflexivity. }
  assert (Hlz : lacks (just LF) (str_of_nat (S n) ++ T "." ++ title) = true).
  { rewrite !lacks_app, Hd, Hlf by (vm_compute; reflexivity). reflexivity. }
  unfold markdown_to_jira.
  change (is_empty (atx_header (S n) title)) with false. cbv iota zeta.
  unfold M2J.tags, M2J.tag_map. cbn [fold_left fst snd].
  repeat sub_pass md_late_markup Hy.
  rewrite (@sub_whole_match M2J.atx _ _
             (Match (atx_header (S n) title) [(2, title); (1, times (T "#") (S n))]));
    [ | discriminate | reflexivity | | reflexivity ].
  - change (M2J.atx_repl (Match (atx_header (S n) title)
                            [(2, title); (1, times (T "#") (S n))]))
      with (T "h" ++ str_of_nat (length (times ["#"%char] (S n))) ++ T "." ++ title).
    rewrite length_times_char.
    repeat sub_pass md_line_markup Hz.
    change (T "h" ++ str_of_nat (S n) ++ T "." ++ title)
      with ("h"%char :: (str_of_nat (S n) ++ T "." ++ title)) at 1.
    rewrite (@sub_anchored_line M2J.numbered) by
      (try reflexivity; try discriminate; exact Hlz).
    change ("h"%char :: (str_of_nat (S n) ++ T "." ++ title))
      with (T "h" ++ str_of_nat (S n) ++ T "." ++ title).
    repeat sub_pass md_line_markup Hz.
    apply m2j_tables_lacks. revert Hz. apply lacks_sub. vm_compute; reflexivity.
  - apply atx_match. rewrite lacks_either.
    rewrite (lacks_sub (just "#") md_markup title), Hlf; [reflexivity | | assumption].
    vm_compute; reflexivity.
Qed.

(** X10: a one-line wiki header [h<d>.<title>], [d] a digit from 0 to 6
    and the title free of wiki markup, leaves [jira_to_markdown] as the
    title preceded by [d] hash signs (none for [h0.]). *)
Theorem wiki_header_becomes_atx (level : ascii) (title : text) :
  between 48 54 level = true ->
  lacks wiki_markup title = true -> lacks (just LF) title = true ->
  jira_to_markdown (T "h" ++ [level] ++ T "." ++ title)
  = times (T "#") (code level - 48) ++ title.
Proof. intros Hd H Hlf. now apply jira_header_to_atx. Qed.

Lemma wiki_header_becomes_atx_witness :
  jira_to_markdown (T "h2. Goals") = T "## Goals".
Proof.
  apply (@wiki_header_becomes_atx "2"%char (T " Goals")); reflexivity.
Defined.

(** X11: a one-line ATX header of [n >= 1] hash signs, the title free of
    markdown markup, leaves [markdown_to_jira] as [h<n>.<title>], with
    [n] in decimal and whatever its size. *)
Theorem atx_becomes_wiki_header (n : nat) (title : text) :
  0 < n ->
  lacks md_markup title = true -> lacks (just LF) title = true ->
  markdown_to_jira (times (T "#") n ++ title)
  = T "h" ++ str_of_nat n ++ T "." ++ title.
Proof.
  intros Hn H Hlf. destruct n as [ | n]; [lia | ].
  now apply atx_header_to_jira.
Qed.

Lemma atx_becomes_wiki_header_witness :
  markdown_to_jira (T "####### Deep") = T "h7. Deep".
Proof.
  apply (@atx_becomes_wiki_header 7 (T " Deep")); [lia | reflexivity | reflexivity].
Defined.

(** X12: headers of the levels 1 to 6 whose title is free of both
    markups survive the round trip, from either side. *)
Theorem header_round_trip (n : nat) (title : text) :
  1 <= n <= 6 -> lacks any_markup title = true ->
  markdown_to_jira (jira_to_markdown (wiki_header (ascii_of_nat (48 + n)) title))
  = wiki_header (ascii_of_nat (48 + n)) title
  /\ jira_to_markdown (markdown_to_jira (atx_header n title)) = atx_header n title.
Proof.
  intros Hn H. unfold any_markup in H. rewrite !lacks_either in H.
  apply andb_true_iff in H as [H Hlf]. apply andb_true_iff in H as [Hw Hm].
  assert (Hc : forall level, between 48 54 level = true ->
             jira_to_markdown (wiki_header level title)
             = atx_header (code level - 48) title)
    by (intros level Hl; now apply jira_header_to_atx).
  assert (Ha : forall m, markdown_to_jira (atx_header (S m) title)
             = T "h" ++ str_of_nat (S m) ++ T "." ++ title)
    by (intros m; now apply atx_header_to_jira).
  assert (Hk : forall d m, between 48 54 d = true -> code d - 48 = S m ->
             str_of_nat (S m) = [d] ->
             markdown_to_jira (jira_to_markdown (wiki_header d title)) = wiki_header d title
             /\ jira_to_markdown (markdown_to_jira (atx_header (S m) title))
                = atx_header (S m) title).
  { intros d m Hd Hcode Hstr. split.
    - rewrite Hc by assumption. rewrite Hcode, Ha, Hstr. reflexivity.
    - rewrite Ha, Hstr. change (T "h" ++ [d] ++ T "." ++ title) with (wiki_header d title).
      rewrite Hc by assumption. now rewrite Hcode. }
  destruct n as [ | [ | [ | [ | [ | [ | [ | n]]]]]]]; try lia.
  - exact (Hk "1"%char 0 eq_refl eq_refl eq_refl).
  - exact (Hk "2"%char 1 eq_refl eq_refl eq_refl).
  - exact (Hk "3"%char 2 eq_refl eq_refl eq_refl).
  - exact (Hk "4"%char 3 eq_refl eq_refl eq_refl).
  - exact (Hk "5"%char 4 eq_refl eq_refl eq_refl).
  - exact (Hk "6"%char 5 eq_refl eq_refl eq_refl).
Qed.

Lemma header_round_trip_witness :
  markdown_to_jira (jira_to_markdown (T "h3. Open points")) = T "h3. Open points"
  /\ jira_to_markdown (markdown_to_jira (T "### Open points")) = T "### Open points".
Proof.
  apply (@header_round_trip 3 (T " Open points")); [lia | reflexivity].
Defined.

(** ** List items *)

(** [star_greedy_max] for any body that behaves as a class *)
Lemma star_greedy_run (p : ascii -> bool) (body : cont -> cont) (k : cont) (u : text) :
  forall v pv cs n,
  (forall k' pv' c t cs', body k' (MState pv' (c :: t) cs')
                          = if p c then k' (MState (Some c) t cs') else None) ->
  (forall k' pv' cs', body k' (MState pv' [] cs') = None) ->
  Forall (fun c => p c = true) u ->
  match v with [] => True | c :: _ => p c = false end ->
  k (MState (last_of u pv) v cs) <> None ->
  length u <= n ->
  star_loop true body k n (MState pv (u ++ v) cs)
  = k (MState (last_of u pv) v cs).
Proof.
  induction u as [ | c u IH]; intros v pv cs n Hc Hnil Hp Hv Hr Hn.
  - cbn [app last_of] in *. destruct n; cbn [star_loop]; [reflexivity | ].
    destruct v as [ | x v]; [now rewrite Hnil | ].
    now rewrite Hc, Hv.
  - destruct n as [ | n]; [cbn in Hn; lia | ].
    cbn [star_loop app]. inversion Hp; subst. rewrite Hc, H1.
    cbn [rest length]. rewrite ltb_S.
    rewrite (IH v (Some c) cs n); try assumption; [ | cbn in Hn; lia].
    cbn [last_of] in *. now destruct (k _).
Qed.

Lemma bullets_cons k pv c t cs :
  rmatch bullets k (MState pv (c :: t) cs)
  = if one_of "#-+*" c then k (MState (Some c) t cs) else None.
Proof.
  unfold bullets, one_of. cbn. unfold advance. cbn.
  destruct (Ascii.eqb c "#"), (Ascii.eqb c "-"), (Ascii.eqb c "+"), (Ascii.eqb c "*");
    cbn; try reflexivity;
    match goal with |- context [k ?x] => destruct (k x) end; reflexivity.
Qed.

Lemma bullets_nil k pv cs : rmatch bullets k (MState pv [] cs) = None.
Proof. reflexivity. Qed.

Lemma list_item_match n content :
  lacks (just LF) content = true ->
  match_at J2M.list_item None (times (T "#") (S n) ++ T " " ++ content)
  = Some (Match (times (T "#") (S n) ++ T " " ++ content)
                [(2, content); (1, times (T "#") (S n))]).
Proof.
  intros Hl. unfold match_at, J2M.list_item.
  change (Alt (Chr "#") (Alt (Chr "-") (Alt (Chr "+") (Chr "*")))) with bullets.
  change (T "#") with ["#"%char].
  cbn -[star_loop consumed times bullets]. cbn [times app].
  rewrite bullets_cons. cbn -[star_loop consumed times bullets].
  rewrite (@star_greedy_run (one_of "#-+*") (rmatch bullets));
    [ | apply bullets_cons | apply bullets_nil | now apply all_times | reflexivity
      | | rewrite length_app, length_times_char; lia ].
  - cbn -[star_loop consumed times]. rewrite <- (app_nil_r content) at 1 2.
    rewrite star_greedy_max.
    + cbn -[consumed times]. unfold advance. cbn -[consumed times].
      repeat f_equal; consumed_tac.
    + now apply dot_of_no_lf.
    + exact I.
    + cbn. discriminate.
    + rewrite app_nil_r. lia.
  - cbn -[star_loop consumed times]. rewrite <- (app_nil_r content) at 1 2.
    rewrite star_greedy_max.
    + cbn. discriminate.
    + now apply dot_of_no_lf.
    + exact I.
    + cbn. discriminate.
    + rewrite app_nil_r. lia.
Qed.

Lemma times_snoc (c : ascii) n : times [c] (S n) = times [c] n ++ [c].
Proof. induction n as [ | n IH]; [reflexivity | ]. cbn [times app] in *. now rewrite <- IH. Qed.

Lemma last_char_times (c : ascii) n : last_char (times [c] (S n)) = Some c.
Proof. rewrite times_snoc. unfold last_char. now rewrite rev_app_distr. Qed.

Lemma numbered_item n content :
  lacks wiki_markup content = true -> lacks (just LF) content = true ->
  jira_to_markdown (times (T "#") (S n) ++ T " " ++ content)
  = times (T " ") (n * 2) ++ T "1. " ++ content.
Proof.
  intros H Hlf.
  assert (Hx : lacks late_markup (times (T "#") (S n) ++ T " " ++ content) = true).
  { rewrite lacks_app, lacks_times by reflexivity. rewrite lacks_app.
    rewrite (lacks_sub late_markup wiki_markup content); [reflexivity | | assumption].
    vm_compute; reflexivity. }
  assert (Hy : lacks line_markup (times (T " ") (n * 2) ++ T "1. " ++ content) = true).
  { rewrite lacks_app, lacks_times by reflexivity. rewrite lacks_app.
    rewrite (lacks_sub line_markup wiki_markup content); [reflexivity | | assumption].
    vm_compute; reflexivity. }
  assert (Hh : sub J2M.header J2M.header_repl (times (T " ") (n * 2) ++ T "1. " ++ content)
               = times (T " ") (n * 2) ++ T "1. " ++ content).
  { destruct n as [ | n]; cbn [Nat.mul Nat.add times app T list_ascii_of_string].
    - apply sub_anchored_line; try reflexivity; try discriminate.
      cbn [lacks forallb]. exact Hlf.
    - apply sub_anchored_line; try reflexivity; try discriminate.
      change (lacks (just LF) ((" "%char :: times (T " ") (n * 2)) ++ T "1. " ++ content) = true).
      rewrite lacks_app, lacks_app, Hlf.
      change (" "%char :: times (T " ") (n * 2)) with (T " " ++ times (T " ") (n * 2)).
      rewrite lacks_app, lacks_times by reflexivity. reflexivity. }
  unfold jira_to_markdown.
  change (is_empty (times (T "#") (S n) ++ T " " ++ content)) with false. cbv iota zeta.
  repeat sub_pass late_markup Hx.
  rewrite (@sub_whole_match J2M.list_item _ _
             (Match (times (T "#") (S n) ++ T " " ++ content)
                    [(2, content); (1, times (T "#") (S n))]));
    [ | discriminate | reflexivity | now apply list_item_match | reflexivity ].
  change (_convert_jira_list_to_markdown
            (Match (times (T "#") (S n) ++ T " " ++ content)
                   [(2, content); (1, times (T "#") (S n))]))
    with (times (T " ") ((length (times ["#"%char] (S n)) - 1) * 2)
          ++ match last_char (times ["#"%char] (S n)) with
             | Some c => if Ascii.eqb c "#" then T "1." else T "-"
             | None => T "-"
             end ++ T " " ++ content).
  rewrite length_times_char, last_char_times.
  replace (S n - 1) with n by lia.
  change (times (T " ") (n * 2) ++ (if Ascii.eqb "#" "#" then T "1." else T "-")
          ++ T " " ++ content)
    with (times (T " ") (n * 2) ++ T "1. " ++ content).
  rewrite Hh.
  repeat sub_pass line_markup Hy.
  apply j2m_tables_lacks. revert Hy. apply lacks_sub. vm_compute; reflexivity.
Qed.

(** X13: a one-line numbered list item of depth [n >= 1], that is [n]
    hash signs, a space and a content free of wiki markup, leaves
    [jira_to_markdown] as [2 * (n - 1)] spaces, [1. ] and the content. *)
Theorem numbered_item_is_indented (n : nat) (content : text) :
  0 < n ->
  lacks wiki_markup content = true -> lacks (just LF) content = true ->
  jira_to_markdown (times (T "#") n ++ T " " ++ content)
  = times (T " ") ((n - 1) * 2) ++ T "1. " ++ content.
Proof.
  intros Hn H Hlf. destruct n as [ | n]; [lia | ].
  replace (S n - 1) with n by lia. now apply numbered_item.
Qed.

Lemma numbered_item_is_indented_witness :
  jira_to_markdown (T "### third level") = T "    1. third level".
Proof.
  apply (@numbered_item_is_indented 3 (T "third level")); [lia | reflexivity | reflexivity].
Defined.

(** ** Smart links to other pages *)

Lemma hd_split sep a tail :
  lacks (just sep) a = true ->
  match tail with [] => True | c :: _ => c = sep end ->
  hd [] (split sep (a ++ tail)) = a.
Proof.
  intros Ha Ht. induction a as [ | c a IH].
  - destruct tail as [ | x tail]; [reflexivity | ]. subst x. cbn.
    now rewrite Ascii.eqb_refl.
  - cbn in Ha. apply andb_true_iff in Ha as [Hc Ha]. specialize (IH Ha).
    apply negb_true_iff in Hc. unfold just in Hc. cbn [app split]. rewrite Hc.
    destruct (split sep (a ++ tail)) as [ | h r]; cbn in *; now subst.
Qed.

Lemma other_link_rewritten base_url before link_text path tail after :
  lacks (just "[") before = true -> lacks (just "[") after = true ->
  lacks (either (just "|") (just LF)) link_text = true ->
  lacks (either (one_of "|?") (either is_digit (just LF))) path = true ->
  lacks (either (just "|") (either is_digit (just LF))) tail = true ->
  query_or_end tail = true ->
  _process_smart_links base_url (before ++ smart_link link_text (path ++ tail) ++ after)
  = before ++ md_link link_text path ++ after.
Proof.
  intros Hbefore Hafter Ht Hpath Htail Hq.
  set (url := path ++ tail).
  assert (Hd : lacks is_digit url = true).
  { unfold url. rewrite lacks_app.
    rewrite (lacks_sub is_digit (either (one_of "|?") (either is_digit (just LF))) path),
            (lacks_sub is_digit (either (just "|") (either is_digit (just LF))) tail);
      try assumption; vm_compute; reflexivity. }
  assert (Hu : lacks (either (just "|") (just LF)) url = true).
  { unfold url. rewrite lacks_app.
    rewrite (lacks_sub (either (just "|") (just LF))
                       (either (one_of "|?") (either is_digit (just LF))) path),
            (lacks_sub (either (just "|") (just LF))
                       (either (just "|") (either is_digit (just LF))) tail);
      try assumption; vm_compute; reflexivity. }
  unfold _process_smart_links.
  rewrite (@finditer_between smart_link_pattern before (smart_link link_text url) after
             (Match (smart_link link_text url) [(2, url); (1, link_text)]));
    try assumption; try reflexivity; try discriminate;
    [ | intros pv; now apply smart_link_match ].
  cbn [fold_left]. unfold smart_link_step.
  change (g 2 (Match (smart_link link_text url) [(2, url); (1, link_text)])) with url.
  change (g 1 (Match (smart_link link_text url) [(2, url); (1, link_text)])) with link_text.
  change (g 0 (Match (smart_link link_text url) [(2, url); (1, link_text)]))
    with (smart_link link_text url).
  rewrite (@search_needs is_digit issue_key_pattern url) by (reflexivity || assumption).
  rewrite (@search_needs is_digit confluence_pattern url) by (reflexivity || assumption).
  cbv zeta. unfold url at 2. rewrite hd_split.
  - change (smart_link link_text url)
      with ("["%char :: (link_text ++ T "|" ++ url ++ T "|smart-link]")).
    now apply replace_between.
  - revert Hpath. apply lacks_sub. vm_compute; reflexivity.
  - destruct tail as [ | c tail]; [exact I | ]. cbn in Hq.
    now apply Ascii.eqb_eq in Hq.
Qed.

(** X14: a smart-link token whose url contains no digit (so that it is
    neither an issue link nor a Confluence page link) becomes the
    Markdown link with the same text and the url cut at its first [?];
    the text around the token stays. *)
Theorem other_smart_link_loses_its_query
    (base_url before link_text path tail after : text) :
  lacks (just "[") before = true -> lacks (just "[") after = true ->
  lacks (either (just "|") (just LF)) link_text = true ->
  lacks (either (one_of "|?") (either is_digit (just LF))) path = true ->
  lacks (either (just "|") (either is_digit (just LF))) tail = true ->
  query_or_end tail = true ->
  _process_smart_links base_url (before ++ smart_link link_text (path ++ tail) ++ after)
  = before ++ md_link link_text path ++ after.
Proof. apply other_link_rewritten. Qed.

Lemma other_smart_link_loses_its_query_witness :
  _process_smart_links (T "https://host")
    (T "see [Docs|https://example.com/guide?lang=en|smart-link] first")
  = T "see [Docs](https://example.com/guide) first".
Proof.
  apply (@other_smart_link_loses_its_query (T "https://host") (T "see ") (T "Docs")
           (T "https://example.com/guide") (T "?lang=en") (T " first")); reflexivity.
Defined.

(** ** Smart links to Confluence pages *)

Lemma star_lazy_to p k u v pv cs n res :
  Forall (fun c => p c = true) u ->
  (forall c pv' t, In c u -> k (MState pv' (c :: t) cs) = None) ->
  length u <= n ->
  k (MState (last_of u pv) v cs) = Some res ->
  star_loop false (rmatch (Cls p)) k n (MState pv (u ++ v) cs) = Some res.
Proof.
  intros Hp Hk Hn Hr. rewrite star_lazy_scan; try assumption.
  rewrite Hr. discriminate.
Qed.

Lemma star_greedy_to p k u v pv cs n res :
  Forall (fun c => p c = true) u ->
  match v with [] => True | c :: _ => p c = false end ->
  length u <= n ->
  k (MState (last_of u pv) v cs) = Some res ->
  star_loop true (rmatch (Cls p)) k n (MState pv (u ++ v) cs) = Some res.
Proof.
  intros Hp Hv Hn Hr. rewrite star_greedy_max; try assumption.
  rewrite Hr. discriminate.
Qed.

Lemma replace_char a new s :
  replace [a] new s = flat_map (fun c => if Ascii.eqb a c then new else [c]) s.
Proof.
  unfold replace. induction s as [ | c s IH]; [reflexivity | ].
  cbn [replace_from starts_with flat_map length]. rewrite andb_true_r.
  destruct (Ascii.eqb a c); cbn [app]; now rewrite IH.
Qed.

Lemma lacks_replace_char P a new s :
  lacks P s = true -> lacks P new = true -> lacks P (replace [a] new s) = true.
Proof.
  intros Hs Hn. rewrite replace_char. induction s as [ | c s IH]; [reflexivity | ].
  cbn in Hs. apply andb_true_iff in Hs as [Hc Hs]. cbn [flat_map].
  rewrite lacks_app, (IH Hs), andb_true_r.
  destruct (Ascii.eqb a c); [assumption | ]. cbn. now rewrite Hc.
Qed.

Lemma either_false (P Q : ascii -> bool) c :
  either P Q c = false -> P c = false /\ Q c = false.
Proof. unfold either. apply orb_false_iff. Qed.

Lemma dot_of_not_lf c : just LF c = false -> dot c = true.
Proof. intros H. unfold dot, not_in. now rewrite H. Qed.

Lemma dot_of_either P s :
  lacks (either P (just LF)) s = true -> Forall (fun c => dot c = true) s.
Proof.
  intros H. apply lacks_Forall in H. revert H. apply Forall_impl.
  intros c Hc. apply either_false in Hc as [_ Hc]. now apply dot_of_not_lf.
Qed.

Lemma confluence_runs pv s0 space d0 digits t0 title tail :
  lacks (either (just "/") (just LF)) (s0 :: space) = true ->
  forallb is_digit (d0 :: digits) = true ->
  lacks (either (just "?") (just LF)) (t0 :: title) = true ->
  query_or_end tail = true ->
  exists s1,
    rmatch confluence_pattern Some
      (MState pv (T "wiki/spaces/" ++ (s0 :: space) ++ T "/pages/" ++ (d0 :: digits)
                  ++ T "/" ++ (t0 :: title) ++ tail) [])
    = Some s1
    /\ caps s1 = [(1, t0 :: title)].
Proof.
  intros Hs Hd Ht Hq.
  apply lacks_cons in Hs as [Hs0 Hs]. apply lacks_cons in Ht as [Ht0 Ht].
  apply either_false in Hs0 as [_ Hs0]. apply either_false in Ht0 as [_ Ht0].
  apply dot_of_not_lf in Hs0, Ht0.
  assert (Hsp := dot_of_either _ _ Hs). assert (Htt := dot_of_either _ _ Ht).
  assert (Hsl : forall c, In c space -> Ascii.eqb c "/" = false).
  { intros c Hc. apply (lacks_In _ _ _ Hs) in Hc. now apply either_false in Hc. }
  assert (Htl : forall c, In c title -> Ascii.eqb c "?" = false
                                        /\ Ascii.eqb c "010" = false).
  { intros c Hc. apply (lacks_In _ _ _ Ht) in Hc. now apply either_false in Hc. }
  cbn [forallb] in Hd. apply andb_true_iff in Hd as [Hd0 Hd].
  assert (Hq' : tail = [] \/ exists q, tail = "?"%char :: q).
  { destruct tail as [ | c q]; [now left | right]. cbn in Hq.
    apply Ascii.eqb_eq in Hq. subst c. now exists q. }
  destruct Hq' as [-> | [q ->]]; eexists; (split;
    [ unfold confluence_pattern; cbn -[star_loop consumed]; rewrite Hs0;
      eapply star_lazy_to;
      [ exact Hsp
      | intros c pv' t Hc; cbn -[consumed]; now rewrite (Hsl c Hc)
      | rewrite length_app; lia
      | cbn -[star_loop consumed]; rewrite Hd0;
        eapply star_greedy_to;
        [ now apply all_Forall
        | reflexivity
        | rewrite length_app; lia
        | cbn -[star_loop consumed]; rewrite Ht0;
          eapply star_lazy_to;
          [ exact Htt
          | intros c pv' t Hc; destruct (Htl c Hc) as [E1 E2];
            unfold at_eol; cbn -[consumed]; now rewrite E1, E2
          | rewrite ?length_app; cbn [length]; lia
          | cbn -[consumed]; reflexivity ] ] ]
    | cbn -[consumed]; unfold advance; cbn -[consumed];
      repeat f_equal; consumed_tac ]).
Qed.

Lemma confluence_link_rewritten base_url before link_text pre space page_id title tail after :
  lacks (just "[") before = true -> lacks (just "[") after = true ->
  lacks (either (just "|") (just LF)) link_text = true ->
  lacks (either (one_of "|w") (just LF)) pre = true ->
  lacks (either (one_of "|/") (just LF)) space = true -> is_empty space = false ->
  forallb is_digit page_id = true -> is_empty page_id = false ->
  lacks (either (one_of "|?-") (just LF)) title = true -> is_empty title = false ->
  lacks (either (just "|") (just LF)) tail = true -> query_or_end tail = true ->
  re_search issue_key_pattern (page_url pre space page_id title tail) = None ->
  _process_smart_links base_url
    (before ++ smart_link link_text (page_url pre space page_id title tail) ++ after)
  = before
    ++ md_link (replace (T "+") (T " ") title) (page_url pre space page_id title tail)
    ++ after.
Proof.
  intros Hbefore Hafter Ht Hpre Hspace Hse Hid Hie Htitle Hte Htail Hq Hissue.
  destruct space as [ | s0 space]; [discriminate | ].
  destruct page_id as [ | d0 digits]; [discriminate | ].
  destruct title as [ | t0 title]; [discriminate | ].
  set (url := page_url pre (s0 :: space) (d0 :: digits) (t0 :: title) tail) in *.
  assert (Hu : lacks (either (just "|") (just LF)) url = true).
  { unfold url, page_url. rewrite !lacks_app, Htail.
    rewrite (lacks_sub (either (just "|") (just LF)) (either (one_of "|w") (just LF)) pre);
      [ | vm_compute; reflexivity | assumption].
    rewrite (lacks_sub (either (just "|") (just LF)) (either (one_of "|/") (just LF))
               (s0 :: space)); [ | vm_compute; reflexivity | assumption].
    rewrite (@all_lacks is_digit _ (d0 :: digits)); [ | vm_compute; reflexivity | assumption].
    rewrite (lacks_sub (either (just "|") (just LF)) (either (one_of "|?-") (just LF))
               (t0 :: title)); [ | vm_compute; reflexivity | assumption].
    reflexivity. }
  assert (Hc : exists cm, re_search confluence_pattern url = Some cm
                          /\ g 1 cm = t0 :: title).
  { destruct (@confluence_runs (last_of pre None) s0 space d0 digits t0 title tail)
      as [s1 [Hrun Hcaps]]; try assumption.
    - revert Hspace. apply lacks_sub. vm_compute; reflexivity.
    - revert Htitle. apply lacks_sub. vm_compute; reflexivity.
    - eexists. split.
      + unfold re_search, url, page_url. rewrite search_from_quiet.
        * apply search_from_hit. unfold match_at. cbv zeta. rewrite Hrun. reflexivity.
        * apply quiet_first; [reflexivity | ].
          apply (lacks_first (either (one_of "|w") (just LF)));
            [vm_compute; reflexivity | assumption].
      + unfold g, group. cbn [m_caps]. rewrite Hcaps. reflexivity. }
  destruct Hc as [cm [Hcm Hg]].
  unfold _process_smart_links.
  rewrite (@finditer_between smart_link_pattern before (smart_link link_text url) after
             (Match (smart_link link_text url) [(2, url); (1, link_text)]));
    try assumption; try reflexivity; try discriminate;
    [ | intros pv; now apply smart_link_match ].
  cbn [fold_left]. unfold smart_link_step.
  change (g 2 (Match (smart_link link_text url) [(2, url); (1, link_text)])) with url.
  change (g 0 (Match (smart_link link_text url) [(2, url); (1, link_text)]))
    with (smart_link link_text url).
  rewrite Hissue, Hcm. cbv zeta. rewrite Hg.
  rewrite (@sub_lacks (just "-") leading_key_pattern).
  - change (smart_link link_text url)
      with ("["%char :: (link_text ++ T "|" ++ url ++ T "|smart-link]")).
    now apply replace_between.
  - reflexivity.
  - apply lacks_replace_char; [ | reflexivity].
    revert Htitle. apply lacks_sub. vm_compute; reflexivity.
Qed.

(** X15: a smart-link token whose url is that of a Confluence page
    ([wiki/spaces/<space>/pages/<digits>/<title>], then nothing or a
    query) and holds no issue key becomes the Markdown link whose text
    is the title of the url with every [+] turned into a space and whose
    target is the url as it is, query included. *)
Theorem confluence_smart_link_shows_the_title
    (base_url before link_text pre space page_id title tail after : text) :
  lacks (just "[") before = true -> lacks (just "[") after = true ->
  lacks (either (just "|") (just LF)) link_text = true ->
  lacks (either (one_of "|w") (just LF)) pre = true ->
  lacks (either (one_of "|/") (just LF)) space = true -> is_empty space = false ->
  forallb is_digit page_id = true -> is_empty page_id = false ->
  lacks (either (one_of "|?-") (just LF)) title = true -> is_empty title = false ->
  lacks (either (just "|") (just LF)) tail = true -> query_or_end tail = true ->
  re_search issue_key_pattern (page_url pre space page_id title tail) = None ->
  _process_smart_links base_url
    (before ++ smart_link link_text (page_url pre space page_id title tail) ++ after)
  = before
    ++ md_link (replace (T "+") (T " ") title) (page_url pre space page_id title tail)
    ++ after.
Proof. apply confluence_link_rewritten. Qed.

Lemma confluence_smart_link_shows_the_title_witness :
  _process_smart_links (T "https://host")
    (T "[x|https://host/wiki/spaces/DEV/pages/123/Release+Plan?src=mail|smart-link]")
  = T "[Release Plan](https://host/wiki/spaces/DEV/pages/123/Release+Plan?src=mail)".
Proof.
  apply (@confluence_smart_link_shows_the_title (T "https://host") (T "") (T "x")
           (T "https://host/") (T "DEV") (T "123") (T "Release+Plan") (T "?src=mail")
           (T "")); reflexivity.
Defined.

(** ** Code in markdown_to_jira *)

Lemma space_or_not_all s : Forall (fun c => space_or_not c = true) s.
Proof.
  apply Forall_forall. intros x _. unfold space_or_not, either, not_in.
  apply orb_negb_r.
Qed.

Lemma not_backtick s c :
  lacks (just "`") s = true -> In c s -> Ascii.eqb c "`" = false.
Proof. intros H Hc. exact (lacks_In _ _ _ H Hc). Qed.

Lemma fenced_runs pv lang c0 content :
  forallb is_word lang = true -> lacks (just "`") content = true ->
  rmatch M2J.fenced Some
    (MState pv (T "```" ++ lang ++ [LF] ++ (c0 :: content) ++ T "```") [])
  = Some (MState (Some "`"%char) [] [(2, c0 :: content); (1, lang)]).
Proof.
  intros Hl Hc. unfold M2J.fenced. cbn -[star_loop consumed].
  apply star_greedy_to;
    [ now apply all_Forall | reflexivity | rewrite length_app; lia | ].
  cbn -[star_loop consumed].
  assert (E : space_or_not c0 = true)
    by (unfold space_or_not, either, not_in; apply orb_negb_r).
  rewrite E.
  apply star_lazy_to;
    [ apply space_or_not_all
    | intros c pv' t Hin; cbn -[consumed]; now rewrite (@not_backtick content c Hc Hin)
    | rewrite length_app; lia | ].
  cbn -[consumed]. unfold advance. cbn -[consumed]. repeat f_equal; consumed_tac.
Qed.

Lemma fenced_to_code_block lang content :
  forallb is_word lang = true -> lacks md_markup lang = true ->
  lacks md_markup content = true -> is_empty content = false ->
  markdown_to_jira (T "```" ++ lang ++ [LF] ++ content ++ T "```")
  = code_open lang ++ content ++ T "{code}".
Proof.
  intros Hw Hl Hc Hne. destruct content as [ | c0 content]; [discriminate | ].
  assert (Hb : lacks (just "`") content = true).
  { apply lacks_cons in Hc as [_ Hc]. revert Hc. apply lacks_sub. vm_compute; reflexivity. }
  assert (Hz : lacks md_markup (code_open lang ++ (c0 :: content) ++ T "{code}") = true).
  { unfold code_open. destruct lang as [ | l lang]; cbn [is_empty].
    - rewrite !lacks_app, Hc. reflexivity.
    - rewrite !lacks_app, Hc, Hl. reflexivity. }
  unfold markdown_to_jira.
  change (is_empty (T "```" ++ lang ++ [LF] ++ (c0 :: content) ++ T "```")) with false.
  cbv iota zeta. unfold M2J.tags, M2J.tag_map. cbn [fold_left fst snd].
  rewrite (@sub_whole_match M2J.fenced _ _
             (Match (T "```" ++ lang ++ [LF] ++ (c0 :: content) ++ T "```")
                    [(2, c0 :: content); (1, lang)]));
    [ | discriminate | reflexivity | | reflexivity ].
  - replace (save_code_block (Match (T "```" ++ lang ++ [LF] ++ (c0 :: content) ++ T "```")
                                [(2, c0 :: content); (1, lang)]))
      with (code_open lang ++ (c0 :: content) ++ T "{code}")
      by (unfold save_code_block, code_open; cbn [group g lookup m_caps Nat.eqb];
          destruct lang; cbn [is_empty]; rewrite <- ?app_assoc; reflexivity).
    repeat sub_pass md_markup Hz.
    apply m2j_tables_lacks. revert Hz. apply lacks_sub. vm_compute; reflexivity.
  - unfold match_at. cbv zeta. rewrite fenced_runs by assumption.
    cbn [caps]. f_equal. f_equal. consumed_tac.
Qed.

Lemma non_backtick s :
  lacks (just "`") s = true -> Forall (fun c => non "`" c = true) s.
Proof.
  intros H. apply lacks_Forall in H. revert H. apply Forall_impl.
  intros c Hc. unfold non, not_in, one_of. cbn. unfold just in Hc. now rewrite Hc.
Qed.

Lemma inline_runs pv c0 content :
  lacks (just "`") (c0 :: content) = true ->
  rmatch M2J.inline Some (MState pv (T "`" ++ (c0 :: content) ++ T "`") [])
  = Some (MState (Some "`"%char) [] [(1, c0 :: content)]).
Proof.
  intros H. assert (Hn := non_backtick _ H). inversion Hn as [ | x l E0 Hn' ]; subst.
  unfold M2J.inline. cbn -[star_loop consumed]. rewrite E0.
  apply star_greedy_to;
    [ assumption | reflexivity | rewrite length_app; lia | ].
  cbn -[consumed]. unfold advance. cbn -[consumed]. repeat f_equal; consumed_tac.
Qed.

Lemma fenced_quiet_on_inline f c0 content :
  lacks (just "`") (c0 :: content) = true ->
  sub M2J.fenced f (T "`" ++ (c0 :: content) ++ T "`") = T "`" ++ (c0 :: content) ++ T "`".
Proof.
  intros H. apply sub_quiet; [ | now apply match_at_none_nil].
  unfold M2J.fenced, Seqs, L. cbn [T list_ascii_of_string app].
  apply quiet_cons.
  - apply match_at_none_lit. apply lacks_cons in H as [H0 _]. unfold just in H0.
    cbn [starts_with app]. rewrite (Ascii.eqb_sym "`"%char c0), H0.
    now rewrite Ascii.eqb_refl.
  - change (c0 :: content ++ ["`"%char]) with ((c0 :: content) ++ ["`"%char]).
    apply quiet_app; [ | quiet_chars].
    apply quiet_first; [reflexivity | ].
    apply (lacks_first (just "`")); [vm_compute; reflexivity | assumption].
Qed.

Lemma inline_to_monospace content :
  lacks md_markup content = true -> is_empty content = false ->
  markdown_to_jira (T "`" ++ content ++ T "`") = T "{{" ++ content ++ T "}}".
Proof.
  intros Hc Hne. destruct content as [ | c0 content]; [discriminate | ].
  assert (Hb : lacks (just "`") (c0 :: content) = true)
    by (revert Hc; apply lacks_sub; vm_compute; reflexivity).
  assert (Hz : lacks md_markup (T "{{" ++ (c0 :: content) ++ T "}}") = true)
    by (rewrite !lacks_app, Hc; reflexivity).
  unfold markdown_to_jira.
  change (is_empty (T "`" ++ (c0 :: content) ++ T "`")) with false.
  cbv iota zeta. unfold M2J.tags, M2J.tag_map. cbn [fold_left fst snd].
  rewrite fenced_quiet_on_inline by assumption.
  rewrite (@sub_whole_match M2J.inline _ _
             (Match (T "`" ++ (c0 :: content) ++ T "`") [(1, c0 :: content)]));
    [ | discriminate | reflexivity | | reflexivity ].
  - change (save_inline_code (Match (T "`" ++ (c0 :: content) ++ T "`") [(1, c0 :: content)]))
      with (T "{{" ++ (c0 :: content) ++ T "}}").
    repeat sub_pass md_markup Hz.
    apply m2j_tables_lacks. revert Hz. apply lacks_sub. vm_compute; reflexivity.
  - unfold match_at. cbv zeta. rewrite inline_runs by assumption.
    cbn [caps]. f_equal. f_equal. consumed_tac.
Qed.

(** X16: a fenced block (three backticks, a language tag of word
    characters or none, a line feed, a non-empty content, three
    backticks) whose tag and content are free of markdown markup leaves
    [markdown_to_jira] as the wiki code block with that language and
    exactly that content. *)
Theorem fenced_block_becomes_code_block (lang content : text) :
  forallb is_word lang = true -> lacks md_markup lang = true ->
  lacks md_markup content = true -> is_empty content = false ->
  markdown_to_jira (T "```" ++ lang ++ [LF] ++ content ++ T "```")
  = T "{code" ++ (if is_empty lang then [] else T ":" ++ lang) ++ T "}"
      ++ content ++ T "{code}".
Proof.
  intros Hw Hl Hc Hne. rewrite fenced_to_code_block by assumption.
  unfold code_open. now rewrite <- !app_assoc.
Qed.

Lemma fenced_block_becomes_code_block_witness :
  markdown_to_jira (T "```" ++ T "python" ++ [LF] ++ (T "return f(a, b)" ++ [LF]) ++ T "```")
  = T "{code:python}" ++ (T "return f(a, b)" ++ [LF]) ++ T "{code}".
Proof.
  apply (@fenced_block_becomes_code_block (T "python") (T "return f(a, b)" ++ [LF]));
    reflexivity.
Defined.

(** X17: an inline code span, a non-empty content free of markdown
    markup between two backticks, leaves [markdown_to_jira] as the
    content between double braces. *)
Theorem inline_code_becomes_monospace (content : text) :
  lacks md_markup content = true -> is_empty content = false ->
  markdown_to_jira (T "`" ++ content ++ T "`") = T "{{" ++ content ++ T "}}".
Proof. intros Hc Hne. now apply inline_to_monospace. Qed.

Lemma inline_code_becomes_monospace_witness :
  markdown_to_jira (T "`git status`") = T "{{git status}}".
Proof.
  apply (@inline_code_becomes_monospace (T "git status")); reflexivity.
Defined.

(** X18: the round trip of a code block adds a line feed at the end of
    its content, whatever the number of lines of the content: the fence
    that [jira_to_markdown] writes ends the content with a line feed of
    its own, which [markdown_to_jira] reads as part of the content.
    The content is non-empty and has no character of either markup (it
    may have line feeds); a language tag is a non-empty run of
    lower-case letters. *)
Theorem code_block_round_trip_adds_a_line_feed (lang content : text) :
  lacks both_markup content = true -> is_empty content = false ->
  forallb is_lower lang = true -> is_empty lang = false ->
  markdown_to_jira (jira_to_markdown (T "{code}" ++ content ++ T "{code}"))
  = T "{code}" ++ (content ++ [LF]) ++ T "{code}"
  /\ markdown_to_jira
       (jira_to_markdown (T "{code:" ++ lang ++ T "}" ++ content ++ T "{code}"))
     = T "{code:" ++ lang ++ T "}" ++ (content ++ [LF]) ++ T "{code}"
  /\ jira_to_markdown
       (markdown_to_jira (T "```" ++ lang ++ [LF] ++ content ++ T "```"))
     = T "```" ++ lang ++ [LF] ++ (content ++ [LF]) ++ T "```".
Proof.
  intros H Hne Hl Hle. unfold both_markup in H. rewrite lacks_either in H.
  apply andb_true_iff in H as [Hw Hm].
  assert (Hlm : lacks md_markup lang = true)
    by (revert Hl; apply all_lacks; vm_compute; reflexivity).
  assert (Hlw : forallb is_word lang = true).
  { rewrite forallb_forall in *. intros c Hc. specialize (Hl c Hc).
    unfold is_word. now rewrite Hl, orb_true_r. }
  assert (Hm' : lacks md_markup (content ++ [LF]) = true)
    by (rewrite lacks_app, Hm; reflexivity).
  assert (Hne' : is_empty (content ++ [LF]) = false) by now destruct content.
  split; [ | split].
  - rewrite code_block_to_fence by assumption.
    change (T "```" ++ [LF] ++ content ++ [LF] ++ T "```")
      with (T "```" ++ [] ++ [LF] ++ content ++ [LF] ++ T "```").
    rewrite (app_assoc content).
    rewrite fenced_to_code_block by (assumption || reflexivity). reflexivity.
  - rewrite code_block_lang_to_fence by assumption.
    rewrite (app_assoc content).
    rewrite fenced_to_code_block by assumption.
    unfold code_open. destruct lang; [discriminate | ]. cbn [is_empty].
    now rewrite <- !app_assoc.
  - rewrite fenced_to_code_block by assumption.
    replace (code_open lang ++ content ++ T "{code}")
      with (T "{code:" ++ lang ++ T "}" ++ content ++ T "{code}")
      by (unfold code_open; destruct lang; [discriminate | ];
          cbn [is_empty]; now rewrite <- !app_assoc).
    rewrite code_block_lang_to_fence by assumption.
    now rewrite <- !app_assoc.
Qed.

Lemma code_block_round_trip_adds_a_line_feed_witness :
  markdown_to_jira
    (jira_to_markdown (T "{code}" ++ (T "if ok:" ++ [LF] ++ T "  return x") ++ T "{code}"))
  = T "{code}" ++ ((T "if ok:" ++ [LF] ++ T "  return x") ++ [LF]) ++ T "{code}"
  /\ markdown_to_jira
       (jira_to_markdown (T "{code:" ++ T "python" ++ T "}"
                           ++ (T "if ok:" ++ [LF] ++ T "  return x") ++ T "{code}"))
     = T "{code:" ++ T "python" ++ T "}"
         ++ ((T "if ok:" ++ [LF] ++ T "  return x") ++ [LF]) ++ T "{code}"
  /\ jira_to_markdown
       (markdown_to_jira (T "```" ++ T "python" ++ [LF]
                           ++ (T "if ok:" ++ [LF] ++ T "  return x") ++ T "```"))
     = T "```" ++ T "python" ++ [LF]
         ++ ((T "if ok:" ++ [LF] ++ T "  return x") ++ [LF]) ++ T "```".
Proof.
  apply (@code_block_round_trip_adds_a_line_feed (T "python")
           (T "if ok:" ++ [LF] ++ T "  return x"));
    reflexivity.
Defined.

(** ** The fields of an issue *)

Lemma text_eqb_sym a b : text_eqb a b = text_eqb b a.
Proof.
  destruct (text_eqb a b) eqn:E.
  - apply text_eqb_eq in E. subst. symmetry. apply text_eqb_refl.
  - destruct (text_eqb b a) eqn:E'; [ | reflexivity].
    apply text_eqb_eq in E'. subst. now rewrite text_eqb_refl in E.
Qed.

Lemma text_eqb_trans_false a b c :
  text_eqb a b = true -> text_eqb c b = false -> text_eqb a c = false.
Proof.
  intros E H. apply text_eqb_eq in E. subst a. now rewrite text_eqb_sym.
Qed.

Lemma dict_set_keys k v d :
  dict_get k d <> None -> map fst (dict_set k v d) = map fst d.
Proof.
  induction d as [ | [k' v'] d IH]; cbn; intros H; [congruence | ].
  destruct (text_eqb k' k); cbn; [reflexivity | ]. now rewrite IH.
Qed.

Lemma dict_get_set_same k v d : dict_get k (dict_set k v d) = Some v.
Proof.
  induction d as [ | [k' v'] d IH]; cbn.
  - now rewrite text_eqb_refl.
  - destruct (text_eqb k' k) eqn:E; cbn; now rewrite E.
Qed.

Lemma dict_get_set_other k k' v d :
  text_eqb k' k = false -> dict_get k' (dict_set k v d) = dict_get k' d.
Proof.
  intros H. induction d as [ | [k0 v0] d IH]; cbn.
  - now rewrite text_eqb_sym, H.
  - destruct (text_eqb k0 k) eqn:E; cbn.
    + destruct (text_eqb k0 k') eqn:E'; [ | reflexivity].
      apply text_eqb_eq in E, E'. subst. now rewrite text_eqb_refl in H.
    + now rewrite IH.
Qed.

Lemma field_step_keys conv k d : map fst (final (field_step conv k d)) = map fst d.
Proof.
  unfold field_step. destruct (dict_get k d) as [v | ] eqn:E; [ | reflexivity].
  destruct (conv v); cbn [final]; [ | reflexivity].
  apply dict_set_keys. congruence.
Qed.

Lemma field_step_frame conv k k' d :
  text_eqb k' k = false -> dict_get k' (final (field_step conv k d)) = dict_get k' d.
Proof.
  intros H. unfold field_step. destruct (dict_get k d) as [v | ]; [ | reflexivity].
  destruct (conv v); cbn [final]; [ | reflexivity].
  now apply dict_get_set_other.
Qed.

Lemma process_keys ps : forall d, map fst (final (process ps d)) = map fst d.
Proof.
  induction ps as [ | [conv k] ps IH]; intros d; [reflexivity | ].
  cbn [process]. assert (H := field_step_keys conv k d).
  destruct (field_step conv k d) as [d1 | e d1]; cbn [and_then final] in *.
  - now rewrite IH.
  - assumption.
Qed.

Lemma process_frame ps k' : forall d,
  existsb (text_eqb k') (map snd ps) = false ->
  dict_get k' (final (process ps d)) = dict_get k' d.
Proof.
  induction ps as [ | [conv k] ps IH]; intros d H; [reflexivity | ].
  cbn [map snd existsb] in H. apply orb_false_iff in H as [Hk Hps].
  cbn [process]. assert (Hf := @field_step_frame conv k k' d Hk).
  destruct (field_step conv k d) as [d1 | e d1]; cbn [and_then final] in *.
  - now rewrite IH.
  - assumption.
Qed.

(** what a run that returns has put in each of its fields *)
Lemma process_done ps : forall d d',
  distinct (map snd ps) = true -> process ps d = Done d' ->
  forall conv k, In (conv, k) ps ->
    match dict_get k d with
    | Some v => exists n, conv v = inl n /\ dict_get k d' = Some n
    | None => dict_get k d' = None
    end.
Proof.
  induction ps as [ | [conv0 k0] ps IH]; intros d d' Hd Hrun conv k Hin; [contradiction | ].
  cbn [map snd distinct] in Hd. apply andb_true_iff in Hd as [Hk0 Hd].
  apply negb_true_iff in Hk0.
  cbn [process] in Hrun.
  destruct (field_step conv0 k0 d) as [d1 | e d1] eqn:E1; cbn [and_then] in Hrun;
    [ | discriminate].
  assert (Hd' : dict_get k0 d' = dict_get k0 d1).
  { change d' with (final (Done d')). rewrite <- Hrun. now apply process_frame. }
  destruct Hin as [Heq | Hin].
  - injection Heq as <- <-. rewrite Hd'. unfold field_step in E1.
    destruct (dict_get k0 d) as [v | ] eqn:Ev.
    + destruct (conv0 v) as [n | e] eqn:En; [ | discriminate].
      injection E1 as <-. exists n. split; [reflexivity | apply dict_get_set_same].
    + injection E1 as <-. assumption.
  - assert (Hne : text_eqb k k0 = false).
    { destruct (text_eqb k k0) eqn:E; [ | reflexivity].
      apply text_eqb_eq in E. subst k0.
      assert (Hex : existsb (text_eqb k) (map snd ps) = true).
      { apply existsb_exists. exists k. split; [ | apply text_eqb_refl].
        apply in_map_iff. now exists (conv, k). }
      congruence. }
    assert (Hf := @field_step_frame conv0 k0 k d Hne). rewrite E1 in Hf. cbn [final] in Hf.
    rewrite <- Hf. now apply (IH d1 d' Hd Hrun).
Qed.

(** a run is left by the exception of a field that is there *)
Lemma process_raised ps : forall d d' e,
  distinct (map snd ps) = true -> process ps d = Raised e d' ->
  exists conv k v, In (conv, k) ps /\ dict_get k d = Some v /\ conv v = inr e.
Proof.
  induction ps as [ | [conv0 k0] ps IH]; intros d d' e Hd Hrun; [discriminate | ].
  cbn [map snd distinct] in Hd. apply andb_true_iff in Hd as [Hk0 Hd].
  apply negb_true_iff in Hk0.
  cbn [process] in Hrun.
  destruct (field_step conv0 k0 d) as [d1 | e1 d1] eqn:E1; cbn [and_then] in Hrun.
  - destruct (IH d1 d' e Hd Hrun) as (conv & k & v & Hin & Hv & Hc).
    exists conv, k, v. split; [now right | ]. split; [ | assumption].
    assert (Hne : text_eqb k k0 = false).
    { destruct (text_eqb k k0) eqn:E; [ | reflexivity].
      apply text_eqb_eq in E. subst k0.
      assert (Hex : existsb (text_eqb k) (map snd ps) = true).
      { apply existsb_exists. exists k. split; [ | apply text_eqb_refl].
        apply in_map_iff. now exists (conv, k). }
      congruence. }
    assert (Hf := @field_step_frame conv0 k0 k d Hne). rewrite E1 in Hf. cbn [final] in Hf.
    now rewrite <- Hf.
  - injection Hrun as -> ->. unfold field_step in E1.
    destruct (dict_get k0 d) as [v | ] eqn:Ev; [ | discriminate].
    destruct (conv0 v) as [n | e0] eqn:En; [discriminate | ].
    injection E1 as -> _. exists conv0, k0, v. split; [now left | now split].
Qed.

Lemma user_field_body_step k d : user_field_body k d = field_step user_of k d.
Proof.
  unfold user_field_body, field_step, user_of.
  destruct (dict_get k d) as [[ | s | attrs | items] | ]; reflexivity.
Qed.

Lemma postprocessing_process d :
  _postprocessing_for_issue_fields_ d = process issue_fields d.
Proof.
  unfold _postprocessing_for_issue_fields_, issue_fields.
  cbn [for_each process].
  change (name_field_body (T "status") d) with (field_step name_of (T "status") d).
  destruct (field_step name_of (T "status") d) as [d1 | ]; cbn [and_then]; [ | reflexivity].
  change (name_field_body (T "priority") d1) with (field_step name_of (T "priority") d1).
  destruct (field_step name_of (T "priority") d1) as [d2 | ]; cbn [and_then]; [ | reflexivity].
  change (name_field_body (T "issuetype") d2) with (field_step name_of (T "issuetype") d2).
  destruct (field_step name_of (T "issuetype") d2) as [d3 | ]; cbn [and_then]; [ | reflexivity].
  rewrite user_field_body_step.
  destruct (field_step user_of (T "assignee") d3) as [d4 | ]; cbn [and_then]; [ | reflexivity].
  rewrite user_field_body_step.
  destruct (field_step user_of (T "reporter") d4) as [d5 | ]; cbn [and_then]; [ | reflexivity].
  change (parent_body d5) with (field_step parent_summary (T "parent") d5).
  now destruct (field_step parent_summary (T "parent") d5).
Qed.

(** X19: [_postprocessing_for_issue_fields_] neither adds nor removes
    nor reorders a key, and a field other than [status], [priority],
    [issuetype], [assignee], [reporter] and [parent] holds what it held,
    whether the function returns or an exception leaves it. *)
Theorem postprocessing_keeps_keys_and_other_fields (d : pydict) :
  map fst (final (_postprocessing_for_issue_fields_ d)) = map fst d
  /\ forall k,
       existsb (text_eqb k)
         [T "status"; T "priority"; T "issuetype"; T "assignee"; T "reporter"; T "parent"]
       = false ->
       dict_get k (final (_postprocessing_for_issue_fields_ d)) = dict_get k d.
Proof.
  rewrite postprocessing_process. split.
  - apply process_keys.
  - intros k Hk. now apply process_frame.
Qed.

Lemma postprocessing_keeps_keys_and_other_fields_witness :
  dict_get (T "summary") (final (_postprocessing_for_issue_fields_ sample_fields))
  = dict_get (T "summary") sample_fields.
Proof.
  apply (proj2 (postprocessing_keeps_keys_and_other_fields sample_fields)). reflexivity.
Defined.

(** X20: when [_postprocessing_for_issue_fields_] returns, each of
    [status], [priority] and [issuetype] that was there holds the [name]
    of what it held, each of [assignee] and [reporter] that was there
    holds [N/A] if it held [None] and the [displayName] of what it held
    otherwise, [parent] holds the dict of the parent's key, summary and
    status name, and none of these fields has appeared. *)
Theorem postprocessing_result (d d' : pydict) :
  _postprocessing_for_issue_fields_ d = Done d' ->
  (forall k, In k [T "status"; T "priority"; T "issuetype"] ->
     match dict_get k d with
     | Some v => exists n, getattr v (T "name") = inl n /\ dict_get k d' = Some n
     | None => dict_get k d' = None
     end)
  /\ (forall k, In k [T "assignee"; T "reporter"] ->
        match dict_get k d with
        | Some PyNone => dict_get k d' = Some (PyStr (T "N/A"))
        | Some v => exists n, getattr v (T "displayName") = inl n /\ dict_get k d' = Some n
        | None => dict_get k d' = None
        end)
  /\ match dict_get (T "parent") d with
     | Some v => exists n, parent_summary v = inl n /\ dict_get (T "parent") d' = Some n
     | None => dict_get (T "parent") d' = None
     end.
Proof.
  rewrite postprocessing_process. intros Hrun.
  assert (H := @process_done issue_fields d d' eq_refl Hrun).
  split; [ | split].
  - intros k Hk. apply (H name_of k). cbn in Hk. unfold issue_fields. cbn [In].
    destruct Hk as [<- | [<- | [<- | []]]]; auto.
  - intros k Hk. assert (Hu := H user_of k). cbn in Hk.
    assert (Hin : In (user_of, k) issue_fields).
    { unfold issue_fields. cbn [In]. destruct Hk as [<- | [<- | []]]; auto 10. }
    specialize (Hu Hin). destruct (dict_get k d) as [[ | s | attrs | items] | ];
      try exact Hu.
    destruct Hu as [n [Hn Hd]]. cbn in Hn. now injection Hn as <-.
  - apply (H parent_summary (T "parent")). unfold issue_fields. cbn [In]. auto 10.
Qed.

Lemma postprocessing_result_witness :
  exists d',
    _postprocessing_for_issue_fields_ sample_fields = Done d'
    /\ dict_get (T "status") d' = Some (PyStr (T "Open"))
    /\ dict_get (T "assignee") d' = Some (PyStr (T "N/A"))
    /\ dict_get (T "parent") d'
       = Some (PyDict [(T "key", PyStr (T "PROJ-1")); (T "summary", PyStr (T "Epic"));
                       (T "status", PyStr (T "Done"))]).
Proof.
  eexists. split; [reflexivity | ].
  destruct (@postprocessing_result sample_fields _ eq_refl) as (Hn & Hu & Hp).
  split; [ | split].
  - destruct (Hn (T "status") (or_introl eq_refl)) as [n [E ->]].
    cbn in E. now injection E as <-.
  - exact (Hu (T "assignee") (or_introl eq_refl)).
  - destruct Hp as [n [E ->]]. cbn in E. now injection E as <-.
Defined.

(** X21: [_postprocessing_for_issue_fields_] returns exactly when every
    one of its fields that is there can be converted; the exception that
    leaves it otherwise is the one of such a field. *)
Theorem postprocessing_returns_iff (d : pydict) :
  ((exists d', _postprocessing_for_issue_fields_ d = Done d')
   <-> forall conv k v, In (conv, k) issue_fields -> dict_get k d = Some v ->
         exists n, conv v = inl n)
  /\ forall e d', _postprocessing_for_issue_fields_ d = Raised e d' ->
       exists conv k v, In (conv, k) issue_fields /\ dict_get k d = Some v
                        /\ conv v = inr e.
Proof.
  rewrite postprocessing_process. split; [split | ].
  - intros [d' Hrun] conv k v Hin Hv.
    assert (H := @process_done issue_fields d d' eq_refl Hrun conv k Hin).
    rewrite Hv in H. destruct H as [n [Hn _]]. now exists n.
  - intros H. destruct (process issue_fields d) as [d' | e d'] eqn:E; [now exists d' | ].
    destruct (@process_raised issue_fields d d' e eq_refl E) as (conv & k & v & Hin & Hv & Hc).
    destruct (H conv k v Hin Hv) as [n Hn]. congruence.
  - intros e d' Hrun. now apply (@process_raised issue_fields d d' e).
Qed.

Lemma postprocessing_returns_iff_witness :
  exists conv k v, In (conv, k) issue_fields
                   /\ dict_get k [(T "status", PyStr (T "Open"))] = Some v
                   /\ conv v = inr (AttributeError (T "name")).
Proof.
  apply (proj2 (postprocessing_returns_iff [(T "status", PyStr (T "Open"))])
           (AttributeError (T "name")) [(T "status", PyStr (T "Open"))]).
  reflexivity.
Defined.

Lemma parent_summary_dict v n : parent_summary v = inl n -> exists items, n = PyDict items.
Proof.
  unfold parent_summary. intros H.
  destruct (getattr v (T "key")); [ | discriminate].
  destruct (getattr v (T "fields")) as [f | ]; [ | discriminate].
  destruct (getattr f (T "summary")); [ | discriminate].
  destruct (getattr f (T "status")) as [st | ]; [ | discriminate].
  destruct (getattr st (T "name")); [ | discriminate].
  injection H as <-. eexists. reflexivity.
Qed.

(** X22: [_postprocessing_for_issue_fields_] cannot be run twice on a
    dict with a parent or with an assignee or reporter that is [None]:
    after a run that returned, a second run on the same dict raises. *)
Theorem postprocessing_twice_raises (d d' : pydict) :
  _postprocessing_for_issue_fields_ d = Done d' ->
  dict_get (T "parent") d <> None
  \/ dict_get (T "assignee") d = Some PyNone
  \/ dict_get (T "reporter") d = Some PyNone ->
  exists e d'', _postprocessing_for_issue_fields_ d' = Raised e d''.
Proof.
  rewrite !postprocessing_process. intros Hrun Hcase.
  assert (H := @process_done issue_fields d d' eq_refl Hrun).
  destruct (process issue_fields d') as [d'' | e d''] eqn:E; [ | now exists e, d''].
  exfalso.
  assert (H' := @process_done issue_fields d' d'' eq_refl E).
  destruct Hcase as [Hp | [Ha | Hr]].
  - assert (Hin : In (parent_summary, T "parent") issue_fields)
      by (unfold issue_fields; cbn [In]; auto 10).
    specialize (H _ _ Hin). specialize (H' _ _ Hin).
    destruct (dict_get (T "parent") d) as [v | ]; [ | congruence].
    destruct H as [n [Hn Hd]]. rewrite Hd in H'.
    destruct (parent_summary_dict _ Hn) as [items ->].
    destruct H' as [n' [Hn' _]]. discriminate.
  - assert (Hin : In (user_of, T "assignee") issue_fields)
      by (unfold issue_fields; cbn [In]; auto 10).
    specialize (H _ _ Hin). specialize (H' _ _ Hin). rewrite Ha in H.
    destruct H as [n [Hn Hd]]. cbn in Hn. injection Hn as <-. rewrite Hd in H'.
    destruct H' as [n' [Hn' _]]. discriminate.
  - assert (Hin : In (user_of, T "reporter") issue_fields)
      by (unfold issue_fields; cbn [In]; auto 10).
    specialize (H _ _ Hin). specialize (H' _ _ Hin). rewrite Hr in H.
    destruct H as [n [Hn Hd]]. cbn in Hn. injection Hn as <-. rewrite Hd in H'.
    destruct H' as [n' [Hn' _]]. discriminate.
Qed.

Lemma postprocessing_twice_raises_witness :
  exists e d'',
    _postprocessing_for_issue_fields_ (final (_postprocessing_for_issue_fields_ sample_fields))
    = Raised e d''.
Proof.
  apply (@postprocessing_twice_raises sample_fields
           (final (_postprocessing_for_issue_fields_ sample_fields)));
    [reflexivity | left; discriminate].
Defined.

(** ** Emphasis in markdown_to_jira *)

Lemma match_bref_self gr k : forall pv v cs,
  gr <> [] ->
  match_bref gr k (MState pv (gr ++ v) cs) = k (MState (last_of gr pv) v cs).
Proof.
  induction gr as [ | c gr IH]; intros pv v cs H; [contradiction | ].
  cbn [match_bref app rest]. rewrite Ascii.eqb_refl. unfold advance. cbn [caps last_of].
  destruct gr as [ | d gr]; [reflexivity | ]. apply IH. discriminate.
Qed.

Lemma match_bref_whole gr k pv cs :
  gr <> [] -> match_bref gr k (MState pv gr cs) = k (MState (last_of gr pv) [] cs).
Proof.
  intros H. rewrite <- (app_nil_r gr) at 2. now apply match_bref_self.
Qed.

Lemma m2j_emphasis_runs pv m0 m b0 body :
  forallb (one_of "*_") (m0 :: m) = true ->
  lacks (either (one_of "*_") (just LF)) (b0 :: body) = true ->
  rmatch M2J.emphasis Some
    (MState pv ((m0 :: m) ++ (b0 :: body) ++ (m0 :: m)) [])
  = Some (MState (last_of (m0 :: m) (last_of (b0 :: body) (last_of (m0 :: m) pv))) []
            [(2, b0 :: body); (1, m0 :: m)]).
Proof.
  intros Hm Hb.
  assert (Hm' := Hm). cbn [forallb] in Hm'. apply andb_true_iff in Hm' as [Hm0 Hmt].
  assert (Hdot := dot_of_either _ _ Hb).
  assert (Hne : forall c, In c (b0 :: body) -> Ascii.eqb c m0 = false).
  { intros c Hc. apply (lacks_In _ _ _ Hb) in Hc. apply either_false in Hc as [Hc _].
    destruct (Ascii.eqb_spec c m0) as [-> | ]; [congruence | reflexivity]. }
  assert (Hb0 : one_of "*_" b0 = false).
  { apply lacks_cons in Hb as [Hb0 _]. now apply either_false in Hb0. }
  unfold M2J.emphasis. cbn -[star_loop consumed one_of]. rewrite Hm0.
  apply (@star_greedy_to (one_of "*_") _ m ((b0 :: body) ++ m0 :: m));
    [ now apply all_Forall | exact Hb0 | rewrite length_app; lia | ].
  cbn -[star_loop consumed one_of].
  rewrite (@consumed_eq (m0 :: m)) by (cbn [rest app]; reflexivity).
  change (b0 :: body ++ m0 :: m) with ((b0 :: body) ++ m0 :: m).
  apply star_lazy_to;
    [ exact Hdot
    | intros c pv' t Hc; cbn -[consumed]; now rewrite (Hne c Hc)
    | rewrite length_app; cbn [length]; lia | ].
  cbn -[consumed match_bref].
  rewrite match_bref_whole by discriminate.
  cbn [last_of]. repeat f_equal. consumed_tac.
Qed.

Lemma m2j_emphasis mark body :
  forallb (one_of "*_") mark = true -> is_empty mark = false ->
  lacks md_markup body = true -> lacks (just LF) body = true -> is_empty body = false ->
  markdown_to_jira (mark ++ body ++ mark) = jira_mark mark ++ body ++ jira_mark mark.
Proof.
  intros Hm Hme Hb Hlf Hbe.
  destruct mark as [ | m0 m]; [discriminate | ].
  destruct body as [ | b0 body]; [discriminate | ].
  assert (Hbp : lacks md_plain_markup (b0 :: body) = true)
    by (revert Hb; apply lacks_sub; vm_compute; reflexivity).
  assert (Hmp : lacks md_plain_markup (m0 :: m) = true)
    by (revert Hm; apply all_lacks; vm_compute; reflexivity).
  assert (Hx : lacks md_plain_markup ((m0 :: m) ++ (b0 :: body) ++ m0 :: m) = true)
    by (now rewrite !lacks_app, Hbp, Hmp).
  assert (Hz : lacks md_plain_markup
                 (jira_mark (m0 :: m) ++ (b0 :: body) ++ jira_mark (m0 :: m)) = true).
  { rewrite !lacks_app, Hbp. unfold jira_mark.
    now destruct (length (m0 :: m) =? 1). }
  unfold markdown_to_jira.
  change (is_empty ((m0 :: m) ++ (b0 :: body) ++ m0 :: m)) with false.
  cbv iota zeta. unfold M2J.tags, M2J.tag_map. cbn [fold_left fst snd].
  repeat sub_pass md_plain_markup Hx.
  rewrite (@sub_whole_match M2J.emphasis _ _
             (Match ((m0 :: m) ++ (b0 :: body) ++ m0 :: m)
                    [(2, b0 :: body); (1, m0 :: m)]));
    [ | discriminate | reflexivity | | reflexivity ].
  - change (M2J.emphasis_repl (Match ((m0 :: m) ++ (b0 :: body) ++ m0 :: m)
                                 [(2, b0 :: body); (1, m0 :: m)]))
      with (jira_mark (m0 :: m) ++ (b0 :: body) ++ jira_mark (m0 :: m)).
    repeat sub_pass md_plain_markup Hz.
    apply m2j_tables_lacks. revert Hz. apply lacks_sub. vm_compute; reflexivity.
  - unfold match_at. cbv zeta. rewrite m2j_emphasis_runs.
    + cbn [caps]. f_equal. f_equal. consumed_tac.
    + assumption.
    + rewrite lacks_either, Hlf.
      rewrite (lacks_sub (one_of "*_") md_markup (b0 :: body));
        [reflexivity | vm_compute; reflexivity | assumption].
Qed.

(** X23: a one-line text between two copies of an emphasis mark (a run
    of [*] and [_]), the text non-empty and free of markdown markup,
    leaves [markdown_to_jira] between [_] when the mark is one
    character long and between [*] otherwise. *)
Theorem markdown_emphasis_becomes_wiki (mark body : text) :
  forallb (one_of "*_") mark = true -> is_empty mark = false ->
  lacks md_markup body = true -> lacks (just LF) body = true -> is_empty body = false ->
  markdown_to_jira (mark ++ body ++ mark)
  = (if length mark =? 1 then T "_" else T "*") ++ body
      ++ (if length mark =? 1 then T "_" else T "*").
Proof. intros Hm Hme Hb Hlf Hbe. now apply m2j_emphasis. Qed.

Lemma markdown_emphasis_becomes_wiki_witness :
  markdown_to_jira (T "**very bold**") = T "*very bold*".
Proof.
  apply (@markdown_emphasis_becomes_wiki (T "**") (T "very bold")); reflexivity.
Defined.

(** ** Emphasis in jira_to_markdown *)

(** a greedy repetition gives nothing when what follows it fails at
    every place the repetition can stop *)
Lemma star_greedy_none (p : ascii -> bool) (body : cont -> cont) (k : cont) (u : text) :
  forall v pv cs n,
  (forall k' pv' c t cs', body k' (MState pv' (c :: t) cs')
                          = if p c then k' (MState (Some c) t cs') else None) ->
  (forall k' pv' cs', body k' (MState pv' [] cs') = None) ->
  Forall (fun c => p c = true) u ->
  match v with [] => True | c :: _ => p c = false end ->
  (forall pv' c t, In c u -> k (MState pv' (c :: t) cs) = None) ->
  (forall pv', k (MState pv' v cs) = None) ->
  star_loop true body k n (MState pv (u ++ v) cs) = None.
Proof.
  induction u as [ | c u IH]; intros v pv cs n Hc Hnil Hp Hv Hu Hk.
  - cbn [app]. destruct n; cbn [star_loop]; [apply Hk | ].
    destruct v as [ | x v]; [rewrite Hnil; apply Hk | ].
    rewrite Hc, Hv. apply Hk.
  - destruct n as [ | n]; cbn [star_loop app]; [apply Hu; now left | ].
    inversion Hp; subst. rewrite Hc, H1. cbn [rest length]. rewrite ltb_S.
    rewrite (IH v (Some c) cs n); try assumption.
    + apply Hu. now left.
    + intros pv' x t Hx. apply Hu. now right.
Qed.

(** a rule that starts with [^] finds nothing in a one-line text at whose
    start it fails *)
Lemma sub_anchored_head r f c t :
  anchored r = true -> nullable r = false -> match_at r None (c :: t) = None ->
  c <> LF -> lacks (just LF) t = true ->
  sub r f (c :: t) = c :: t.
Proof.
  intros Ha Hn Hf Hc Ht. apply sub_quiet; [ | now apply match_at_none_nil].
  apply quiet_cons; [now rewrite app_nil_r | ].
  apply quiet_anchored; try assumption.
  apply lacks_Forall in Ht. revert Ht. apply Forall_impl.
  intros x Hx ->. discriminate.
Qed.

Lemma j2m_emphasis_runs mark body :
  one_of "*_" mark = true ->
  lacks (either (one_of "*_") (just LF)) body = true ->
  rmatch J2M.emphasis Some (MState None ([mark] ++ body ++ [mark]) [])
  = Some (MState (Some mark) [] [(2, body); (1, [mark])]).
Proof.
  intros Hm Hb.
  assert (Hdot := dot_of_either _ _ Hb).
  assert (Hne : forall c, In c body -> Ascii.eqb c mark = false).
  { intros c Hc. apply (lacks_In _ _ _ Hb) in Hc. apply either_false in Hc as [Hc _].
    destruct (Ascii.eqb_spec c mark) as [-> | ]; [congruence | reflexivity]. }
  unfold J2M.emphasis. cbn -[star_loop consumed one_of]. rewrite Hm.
  unfold advance. cbn -[star_loop consumed one_of].
  rewrite (@consumed_eq [mark]) by (cbn [rest app]; reflexivity).
  apply star_lazy_to;
    [ exact Hdot
    | intros c pv' t Hc; cbn -[consumed]; now rewrite (Hne c Hc)
    | rewrite length_app; cbn [length]; lia | ].
  cbn -[consumed match_bref].
  rewrite match_bref_whole by discriminate.
  cbn [last_of]. repeat f_equal. consumed_tac.
Qed.

(** the list rule finds nothing in a one-line text that starts with
    stars but has no space behind them *)
Lemma list_item_quiet_on_stars f n body tail :
  lacks (either (one_of "#-+*") (just LF)) body = true -> is_empty body = false ->
  starts_with_space body = false -> lacks (just LF) tail = true ->
  sub J2M.list_item f (times (T "*") (S n) ++ body ++ tail)
  = times (T "*") (S n) ++ body ++ tail.
Proof.
  intros Hb Hbe Hsp Htail. destruct body as [ | b0 body]; [discriminate | ].
  assert (Hbl := Hb). apply lacks_cons in Hbl as [Hbl _].
  apply either_false in Hbl as [Hbl _]. cbn [starts_with_space] in Hsp.
  change (T "*") with ["*"%char]. cbn [times app].
  apply sub_anchored_head; try reflexivity; try discriminate.
  - unfold match_at, J2M.list_item.
    change (Alt (Chr "#") (Alt (Chr "-") (Alt (Chr "+") (Chr "*")))) with bullets.
    cbn -[star_loop consumed times bullets]. rewrite bullets_cons.
    cbn -[star_loop consumed times bullets].
    rewrite (@star_greedy_none (one_of "#-+*") (rmatch bullets));
      [ reflexivity | apply bullets_cons | apply bullets_nil | now apply all_times
      | exact Hbl | | ].
    + intros pv' c t Hc. cbn -[consumed].
      assert (E : c = "*"%char).
      { clear -Hc. induction n as [ | n IH]; cbn in Hc; [contradiction | ].
        destruct Hc as [<- | Hc]; [reflexivity | now apply IH]. }
      subst c. reflexivity.
    + intros pv'. cbn -[consumed]. now rewrite Hsp.
  - change (b0 :: body ++ tail) with ((b0 :: body) ++ tail).
    rewrite lacks_app, lacks_times by reflexivity. rewrite lacks_app, Htail.
    rewrite (lacks_sub (just LF) (either (one_of "#-+*") (just LF)) (b0 :: body));
      [reflexivity | vm_compute; reflexivity | assumption].
Qed.

Lemma j2m_emphasis mark body :
  one_of "*_" mark = true ->
  lacks wiki_markup body = true -> lacks (just LF) body = true ->
  is_empty body = false -> starts_with_space body = false ->
  jira_to_markdown ([mark] ++ body ++ [mark]) = md_mark mark ++ body ++ md_mark mark.
Proof.
  intros Hm Hb Hlf Hbe Hsp.
  assert (Hbp : lacks wiki_plain_markup body = true)
    by (revert Hb; apply lacks_sub; vm_compute; reflexivity).
  assert (Hmp : lacks wiki_plain_markup [mark] = true)
    by (apply (class_lacks (one_of "*_")); [vm_compute; reflexivity | assumption]).
  assert (Hx : lacks wiki_plain_markup ([mark] ++ body ++ [mark]) = true)
    by (now rewrite !lacks_app, Hbp, Hmp).
  assert (Hbs : lacks wiki_star_markup body = true)
    by (revert Hb; apply lacks_sub; vm_compute; reflexivity).
  assert (Hmk : exists n, md_mark mark = times (T "*") (S n)).
  { unfold md_mark. destruct (text_eqb [mark] (T "*")); [now exists 1 | now exists 0]. }
  destruct Hmk as [n Hmk].
  assert (Hz : lacks wiki_star_markup (md_mark mark ++ body ++ md_mark mark) = true).
  { rewrite Hmk, !lacks_app, Hbs. now rewrite lacks_times by reflexivity. }
  assert (Hbl : lacks (either (one_of "#-+*") (just LF)) body = true).
  { rewrite lacks_either, Hlf.
    rewrite (lacks_sub (one_of "#-+*") wiki_markup body);
      [reflexivity | vm_compute; reflexivity | assumption]. }
  unfold jira_to_markdown.
  change (is_empty ([mark] ++ body ++ [mark])) with false. cbv iota zeta.
  repeat sub_pass wiki_plain_markup Hx.
  rewrite (@sub_whole_match J2M.emphasis _ _
             (Match ([mark] ++ body ++ [mark]) [(2, body); (1, [mark])]));
    [ | discriminate | reflexivity | | reflexivity ].
  - change (J2M.emphasis_repl (Match ([mark] ++ body ++ [mark]) [(2, body); (1, [mark])]))
      with (md_mark mark ++ body ++ md_mark mark).
    rewrite Hmk in *.
    rewrite list_item_quiet_on_stars;
      [ | assumption | assumption | assumption | now apply lacks_times ].
    assert (Hh : sub J2M.header J2M.header_repl
                   (times (T "*") (S n) ++ body ++ times (T "*") (S n))
                 = times (T "*") (S n) ++ body ++ times (T "*") (S n)).
    { change (times (T "*") (S n) ++ body ++ times (T "*") (S n))
        with ("*"%char :: (times (T "*") n ++ body ++ times (T "*") (S n))).
      apply sub_anchored_line; try reflexivity; try discriminate.
      rewrite !lacks_app, Hlf. now rewrite !lacks_times by reflexivity. }
    rewrite Hh.
    repeat sub_pass wiki_star_markup Hz.
    apply j2m_tables_lacks. revert Hz. apply lacks_sub. vm_compute; reflexivity.
  - unfold match_at. cbv zeta. rewrite j2m_emphasis_runs.
    + cbn [caps]. f_equal. f_equal. consumed_tac.
    + assumption.
    + rewrite lacks_either, Hlf.
      rewrite (lacks_sub (one_of "*_") wiki_markup body);
        [reflexivity | vm_compute; reflexivity | assumption].
Qed.

(** X24: a one-line text between two [*] or between two [_], the text
    non-empty, free of wiki markup and not starting with a space, leaves
    [jira_to_markdown] between [**] (for [*], bold) or between [*]
    (for [_], italic). *)
Theorem wiki_emphasis_becomes_markdown (mark : ascii) (body : text) :
  one_of "*_" mark = true ->
  lacks wiki_markup body = true -> lacks (just LF) body = true ->
  is_empty body = false -> starts_with_space body = false ->
  jira_to_markdown ([mark] ++ body ++ [mark])
  = (if Ascii.eqb mark "*" then T "**" else T "*") ++ body
      ++ (if Ascii.eqb mark "*" then T "**" else T "*").
Proof.
  intros Hm Hb Hlf Hbe Hsp. rewrite j2m_emphasis by assumption.
  unfold md_mark. cbn [text_eqb T list_ascii_of_string]. now rewrite andb_true_r.
Qed.

Lemma wiki_emphasis_becomes_markdown_witness :
  jira_to_markdown (T "_see below_") = T "*see below*".
Proof.
  apply (@wiki_emphasis_becomes_markdown "_"%char (T "see below")); reflexivity.
Defined.

(** X25: emphasis survives the round trip: wiki bold and italic come
    back from Markdown as they were, and so do Markdown bold and italic
    written with stars (the text non-empty, on one line, free of both
    markups and not starting with a space). *)
Theorem emphasis_round_trip (body : text) :
  lacks any_markup body = true -> is_empty body = false ->
  starts_with_space body = false ->
  markdown_to_jira (jira_to_markdown (T "*" ++ body ++ T "*")) = T "*" ++ body ++ T "*"
  /\ markdown_to_jira (jira_to_markdown (T "_" ++ body ++ T "_")) = T "_" ++ body ++ T "_"
  /\ jira_to_markdown (markdown_to_jira (T "**" ++ body ++ T "**"))
     = T "**" ++ body ++ T "**"
  /\ jira_to_markdown (markdown_to_jira (T "*" ++ body ++ T "*")) = T "*" ++ body ++ T "*".
Proof.
  intros H Hbe Hsp. unfold any_markup in H. rewrite !lacks_either in H.
  apply andb_true_iff in H as [H Hlf]. apply andb_true_iff in H as [Hw Hm].
  assert (J : forall mark, one_of "*_" mark = true ->
            jira_to_markdown ([mark] ++ body ++ [mark])
            = md_mark mark ++ body ++ md_mark mark)
    by (intros mark Hk; now apply j2m_emphasis).
  assert (K : forall mark, forallb (one_of "*_") mark = true -> is_empty mark = false ->
            markdown_to_jira (mark ++ body ++ mark)
            = jira_mark mark ++ body ++ jira_mark mark)
    by (intros mark Hk Hke; now apply m2j_emphasis).
  split; [ | split; [ | split]].
  - change (T "*") with ["*"%char]. rewrite J by reflexivity.
    change (md_mark "*") with (T "**"). now rewrite K.
  - change (T "_") with ["_"%char]. rewrite J by reflexivity.
    change (md_mark "_") with (T "*"). now rewrite K.
  - rewrite K by reflexivity. change (jira_mark (T "**")) with ["*"%char].
    now rewrite J.
  - rewrite K by reflexivity. change (jira_mark (T "*")) with ["_"%char].
    now rewrite J.
Qed.

Lemma emphasis_round_trip_witness :
  markdown_to_jira (jira_to_markdown (T "*" ++ T "done" ++ T "*")) = T "*" ++ T "done" ++ T "*"
  /\ markdown_to_jira (jira_to_markdown (T "_" ++ T "done" ++ T "_"))
     = T "_" ++ T "done" ++ T "_"
  /\ jira_to_markdown (markdown_to_jira (T "**" ++ T "done" ++ T "**"))
     = T "**" ++ T "done" ++ T "**"
  /\ jira_to_markdown (markdown_to_jira (T "*" ++ T "done" ++ T "*"))
     = T "*" ++ T "done" ++ T "*".
Proof.
  apply (@emphasis_round_trip (T "done")); reflexivity.
Defined.

(** ** Links in markdown_to_jira *)

Lemma non_of_lacks (c : ascii) s :
  lacks (just c) s = true ->
  Forall (fun x => non (String c EmptyString) x = true) s.
Proof.
  intros H. apply lacks_Forall in H. revert H. apply Forall_impl.
  intros x Hx. unfold non, not_in, one_of. cbn. unfold just in Hx. now rewrite Hx.
Qed.

Lemma split_single sep s : lacks (just sep) s = true -> split sep s = [s].
Proof.
  induction s as [ | c s IH]; intros H; [reflexivity | ].
  apply lacks_cons in H as [Hc Hs]. unfold just in Hc.
  cbn [split]. now rewrite Hc, (IH Hs).
Qed.

Lemma m2j_tables_line s :
  lacks (just LF) s = true -> join [LF] (m2j_tables (split LF s)) = s.
Proof. intros H. now rewrite split_single. Qed.

(** one pass over a one-line text: the rule needs a character the text
    lacks, or starts with [^] and cannot start with the first character *)
Ltac line_pass P Hx Hl Hxl :=
  match goal with
  | |- context [sub ?r ?f (?c :: ?t)] =>
      lazymatch t with
      | context [sub _ _ _] => fail
      | _ =>
          first
            [ rewrite (@sub_lacks P r f (c :: t)) by first [exact Hx | vm_compute; reflexivity]
            | rewrite (@sub_anchored_line r f c t) by first [exact Hl | reflexivity | discriminate]
            | rewrite (@sub_lacks (just LF) r f (c :: t)) by first [exact Hxl | reflexivity] ]
      end
  end.

Lemma md_link_runs pv t0 txt u0 url :
  lacks (just "]") (t0 :: txt) = true -> lacks (just ")") (u0 :: url) = true ->
  rmatch M2J.link Some
    (MState pv (T "[" ++ (t0 :: txt) ++ T "](" ++ (u0 :: url) ++ T ")") [])
  = Some (MState (Some ")"%char) [] [(2, u0 :: url); (1, t0 :: txt)]).
Proof.
  intros Ht Hu.
  assert (Ht' := non_of_lacks _ _ Ht). inversion Ht' as [ | ? ? Et0 Htt]; subst.
  assert (Hu' := non_of_lacks _ _ Hu). inversion Hu' as [ | ? ? Eu0 Huu]; subst.
  unfold M2J.link. cbn -[star_loop consumed non]. rewrite Et0.
  apply star_greedy_to;
    [ assumption | reflexivity | rewrite length_app; lia | ].
  cbn -[star_loop consumed non]. rewrite Eu0.
  apply star_greedy_to;
    [ assumption | reflexivity | rewrite length_app; lia | ].
  cbn -[consumed]. unfold advance. cbn -[consumed]. repeat f_equal; consumed_tac.
Qed.

Lemma md_link_to_wiki txt url :
  lacks (either md_link_markup (either (just "]") (just LF))) txt = true ->
  is_empty txt = false ->
  lacks (either md_link_markup (either (just ")") (just LF))) url = true ->
  is_empty url = false ->
  markdown_to_jira (md_link txt url) = wiki_link txt url.
Proof.
  intros Ht Hte Hu Hue.
  destruct txt as [ | t0 txt]; [discriminate | ].
  destruct url as [ | u0 url]; [discriminate | ].
  rewrite !lacks_either in Ht, Hu.
  apply andb_true_iff in Ht as [Htm Ht]. apply andb_true_iff in Ht as [Htb Htl].
  apply andb_true_iff in Hu as [Hum Hu]. apply andb_true_iff in Hu as [Hub Hul].
  set (t := t0 :: txt) in *. set (u := u0 :: url) in *.
  assert (Hl : lacks (just LF) (t ++ T "](" ++ u ++ T ")") = true)
    by (now rewrite !lacks_app, Htl, Hul).
  assert (Hxl : lacks (just LF) ("["%char :: (t ++ T "](" ++ u ++ T ")")) = true)
    by (cbn [lacks forallb]; exact Hl).
  assert (Hx : lacks md_link_markup ("["%char :: (t ++ T "](" ++ u ++ T ")")) = true).
  { change ("["%char :: (t ++ T "](" ++ u ++ T ")")) with (T "[" ++ t ++ T "](" ++ u ++ T ")").
    now rewrite !lacks_app, Htm, Hum. }
  assert (Hz : lacks md_link_markup (wiki_link t u) = true)
    by (unfold wiki_link; now rewrite !lacks_app, Htm, Hum).
  unfold markdown_to_jira.
  change (is_empty (md_link t u)) with false.
  cbv iota zeta. unfold M2J.tags, M2J.tag_map. cbn [fold_left fst snd].
  change (md_link t u) with ("["%char :: (t ++ T "](" ++ u ++ T ")")).
  repeat line_pass md_link_markup Hx Hl Hxl.
  rewrite (@sub_whole_match M2J.link _ _
             (Match ("["%char :: (t ++ T "](" ++ u ++ T ")")) [(2, u); (1, t)]));
    [ | discriminate | reflexivity | | reflexivity ].
  - change (T "[" ++ g 1 (Match ("["%char :: t ++ T "](" ++ u ++ T ")") [(2, u); (1, t)])
            ++ T "|" ++ g 2 (Match ("["%char :: t ++ T "](" ++ u ++ T ")") [(2, u); (1, t)])
            ++ T "]")
      with (wiki_link t u).
    repeat sub_pass md_link_markup Hz.
    apply m2j_tables_line. unfold wiki_link. now rewrite !lacks_app, Htl, Hul.
  - unfold match_at. cbv zeta.
    change ("["%char :: (t ++ T "](" ++ u ++ T ")")) with (T "[" ++ t ++ T "](" ++ u ++ T ")").
    unfold t, u. rewrite md_link_runs by assumption.
    cbn [caps]. f_equal. f_equal. consumed_tac.
Qed.

(** X26: a Markdown link [[text](url)] on its own, text and url
    non-empty, on one line and free of backtick, star, underscore, [<],
    [~] and [!] (no []] in the text, no [)] in the url), leaves
    [markdown_to_jira] as the wiki link [[text|url]]. *)
Theorem markdown_link_becomes_wiki_link (link_text link_url : text) :
  lacks (either md_link_markup (either (just "]") (just LF))) link_text = true ->
  is_empty link_text = false ->
  lacks (either md_link_markup (either (just ")") (just LF))) link_url = true ->
  is_empty link_url = false ->
  markdown_to_jira (T "[" ++ link_text ++ T "](" ++ link_url ++ T ")")
  = T "[" ++ link_text ++ T "|" ++ link_url ++ T "]".
Proof. intros Ht Hte Hu Hue. now apply md_link_to_wiki. Qed.

Lemma markdown_link_becomes_wiki_link_witness :
  markdown_to_jira (T "[the docs](https://example.com/a-b.html#top)")
  = T "[the docs|https://example.com/a-b.html#top]".
Proof.
  apply (@markdown_link_becomes_wiki_link (T "the docs")
           (T "https://example.com/a-b.html#top")); reflexivity.
Defined.

(** ** Links in jira_to_markdown *)

(** a lazy repetition gives nothing when what follows it fails wherever
    the repetition can stop *)
Lemma star_lazy_none p k cs : forall n u pv,
  all_suffixes (fun r => forall pv', k (MState pv' r cs) = None) u ->
  star_loop false (rmatch (Cls p)) k n (MState pv u cs) = None.
Proof.
  induction n as [ | n IH]; intros u pv H.
  - cbn [star_loop]. destruct u; apply H.
  - cbn [star_loop]. assert (H0 : k (MState pv u cs) = None) by (destruct u; apply H).
    rewrite H0. destruct u as [ | c t]; [apply rmatch_Cls_nil | ].
    rewrite rmatch_Cls_cons. destruct (p c); [ | reflexivity].
    cbn [rest length]. rewrite ltb_S. apply IH. apply H.
Qed.

Lemma all_suffixes_chars (P : text -> Prop) a b :
  (forall c t, In c a -> P (c :: t)) -> all_suffixes P b -> all_suffixes P (a ++ b).
Proof.
  intros Ha Hb. induction a as [ | c a IH]; [exact Hb | ].
  cbn [app all_suffixes]. split.
  - apply Ha. now left.
  - apply IH. intros x t Hx. apply Ha. now right.
Qed.

Lemma all_suffixes_cons (P : text -> Prop) c t :
  P (c :: t) -> all_suffixes P t -> all_suffixes P (c :: t).
Proof. intros H0 H. now split. Qed.

Lemma wiki_link_runs pv t0 txt u0 url :
  lacks (just "|") (t0 :: txt) = true ->
  lacks (either (just "]") (just LF)) (u0 :: url) = true ->
  rmatch J2M.link_piped Some (MState pv (wiki_link (t0 :: txt) (u0 :: url)) [])
  = Some (MState (Some "]"%char) [] [(2, u0 :: url); (1, t0 :: txt)]).
Proof.
  intros Ht Hu.
  assert (Ht' := non_of_lacks _ _ Ht). inversion Ht' as [ | ? ? Et0 Htt]; subst.
  assert (Hdot := dot_of_either _ _ Hu). inversion Hdot as [ | ? ? Eu0 Hud]; subst.
  assert (Hne : forall c, In c url -> Ascii.eqb c "]" = false).
  { apply lacks_cons in Hu as [_ Hu]. intros c Hc.
    apply (lacks_In _ _ _ Hu) in Hc. now apply either_false in Hc. }
  unfold J2M.link_piped, wiki_link. cbn -[star_loop consumed non]. rewrite Et0.
  apply star_greedy_to;
    [ assumption | reflexivity | rewrite length_app; lia | ].
  cbn -[star_loop consumed non]. rewrite Eu0.
  apply star_lazy_to;
    [ assumption
    | intros c pv' t Hc; cbn -[consumed]; now rewrite (Hne c Hc)
    | rewrite length_app; lia | ].
  cbn -[consumed]. unfold advance. cbn -[consumed]. repeat f_equal; consumed_tac.
Qed.

(** the rule for a bare link finds nothing in a Markdown link *)
Lemma link_bare_quiet_on_md_link f t0 txt u0 url :
  lacks (either (one_of "[]") (just LF)) (t0 :: txt) = true ->
  lacks (one_of "[]") (u0 :: url) = true ->
  sub J2M.link_bare f (md_link (t0 :: txt) (u0 :: url)) = md_link (t0 :: txt) (u0 :: url).
Proof.
  intros Ht Hu.
  assert (Hdot := dot_of_either _ _ Ht). inversion Hdot as [ | ? ? Et0 _]; subst.
  assert (Hto : lacks (one_of "[]") (t0 :: txt) = true)
    by (rewrite lacks_either in Ht; now apply andb_true_iff in Ht as [Ht _]).
  assert (Hnb : forall s c, lacks (one_of "[]") s = true -> In c s ->
                            Ascii.eqb c "]" = false).
  { intros s c Hs Hc. apply (lacks_In _ _ _ Hs) in Hc. unfold one_of in Hc. cbn in Hc.
    apply orb_false_iff in Hc as [_ Hc]. now apply orb_false_iff in Hc as [Hc _]. }
  apply sub_quiet; [ | now apply match_at_none_nil].
  unfold md_link. cbn [T list_ascii_of_string app].
  apply quiet_cons.
  - rewrite app_nil_r.
    unfold match_at, J2M.link_bare. cbn -[star_loop consumed non]. rewrite Et0.
    rewrite star_lazy_none; [reflexivity | ].
    apply all_suffixes_chars.
    { intros c t Hc pv'. cbn -[consumed non].
      rewrite (Hnb (t0 :: txt) c Hto); [reflexivity | now right]. }
    apply all_suffixes_cons; [intros pv'; reflexivity | ].
    apply all_suffixes_cons; [intros pv'; reflexivity | ].
    apply (@all_suffixes_chars _ (u0 :: url) [")"%char]).
    { intros c t Hc pv'. cbn -[consumed non]. now rewrite (Hnb (u0 :: url) c Hu). }
    apply all_suffixes_cons; [intros pv'; reflexivity | ].
    split; [intros pv'; reflexivity | exact I].
  - apply quiet_first; [reflexivity | ].
    apply (lacks_first (just "[")); [vm_compute; reflexivity | ].
    change (t0 :: txt ++ "]"%char :: "("%char :: u0 :: url ++ [")"%char])
      with ((t0 :: txt) ++ T "](" ++ (u0 :: url) ++ T ")").
    rewrite !lacks_app.
    rewrite (lacks_sub (just "[") (one_of "[]") (t0 :: txt)),
            (lacks_sub (just "[") (one_of "[]") (u0 :: url));
      try assumption; vm_compute; reflexivity.
Qed.

Lemma wiki_link_to_md txt url :
  lacks (either wiki_link_markup (just LF)) txt = true -> is_empty txt = false ->
  lacks (either wiki_link_markup (just LF)) url = true -> is_empty url = false ->
  jira_to_markdown (wiki_link txt url) = md_link txt url.
Proof.
  intros Ht Hte Hu Hue.
  destruct txt as [ | t0 txt]; [discriminate | ].
  destruct url as [ | u0 url]; [discriminate | ].
  rewrite !lacks_either in Ht, Hu.
  apply andb_true_iff in Ht as [Htm Htl]. apply andb_true_iff in Hu as [Hum Hul].
  set (t := t0 :: txt) in *. set (u := u0 :: url) in *.
  assert (Hts : lacks wiki_span_markup t = true)
    by (revert Htm; apply lacks_sub; vm_compute; reflexivity).
  assert (Hus : lacks wiki_span_markup u = true)
    by (revert Hum; apply lacks_sub; vm_compute; reflexivity).
  assert (Htb : lacks (one_of "[]") t = true)
    by (revert Htm; apply lacks_sub; vm_compute; reflexivity).
  assert (Hub : lacks (one_of "[]") u = true)
    by (revert Hum; apply lacks_sub; vm_compute; reflexivity).
  assert (Htp : lacks (just "|") t = true)
    by (revert Htm; apply lacks_sub; vm_compute; reflexivity).
  assert (Hup : lacks (just "|") u = true)
    by (revert Hum; apply lacks_sub; vm_compute; reflexivity).
  assert (Hl : lacks (just LF) (t ++ T "|" ++ u ++ T "]") = true)
    by (now rewrite !lacks_app, Htl, Hul).
  assert (Hxl : lacks (just LF) ("["%char :: (t ++ T "|" ++ u ++ T "]")) = true)
    by (cbn [lacks forallb]; exact Hl).
  assert (Hx : lacks wiki_span_markup ("["%char :: (t ++ T "|" ++ u ++ T "]")) = true).
  { change ("["%char :: (t ++ T "|" ++ u ++ T "]")) with (T "[" ++ t ++ T "|" ++ u ++ T "]").
    now rewrite !lacks_app, Hts, Hus. }
  assert (Hz : lacks wiki_span_markup (md_link t u) = true)
    by (unfold md_link; now rewrite !lacks_app, Hts, Hus).
  unfold jira_to_markdown.
  change (is_empty (wiki_link t u)) with false. cbv iota zeta.
  change (wiki_link t u) with ("["%char :: (t ++ T "|" ++ u ++ T "]")).
  repeat line_pass wiki_span_markup Hx Hl Hxl.
  rewrite (@sub_whole_match J2M.link_piped _ _
             (Match ("["%char :: (t ++ T "|" ++ u ++ T "]")) [(2, u); (1, t)]));
    [ | discriminate | reflexivity | | reflexivity ].
  - change (T "[" ++ g 1 (Match ("["%char :: t ++ T "|" ++ u ++ T "]") [(2, u); (1, t)])
            ++ T "](" ++ g 2 (Match ("["%char :: t ++ T "|" ++ u ++ T "]") [(2, u); (1, t)])
            ++ T ")")
      with (md_link t u).
    unfold t, u. rewrite link_bare_quiet_on_md_link;
      [ | fold t; now rewrite lacks_either, Htb, Htl | fold u; assumption ].
    fold t. fold u.
    repeat sub_pass wiki_span_markup Hz.
    apply j2m_tables_lacks. unfold md_link. now rewrite !lacks_app, Htp, Hup.
  - unfold match_at. cbv zeta.
    change ("["%char :: (t ++ T "|" ++ u ++ T "]")) with (wiki_link t u).
    unfold t, u. rewrite wiki_link_runs.
    + cbn [caps]. f_equal. f_equal. unfold wiki_link. consumed_tac.
    + fold t. assumption.
    + rewrite lacks_either. fold u. rewrite Hul.
      rewrite (lacks_sub (just "]") (one_of "[]") u);
        [reflexivity | vm_compute; reflexivity | assumption].
Qed.

(** X27: a wiki link [[text|url]] on its own, text and url non-empty,
    on one line and free of the characters [* _ { ? + ^ ~ - !], of
    brackets and of the bar, leaves [jira_to_markdown] as the Markdown
    link [[text](url)]. *)
Theorem wiki_link_becomes_markdown_link (link_text link_url : text) :
  lacks (either wiki_link_markup (just LF)) link_text = true ->
  is_empty link_text = false ->
  lacks (either wiki_link_markup (just LF)) link_url = true ->
  is_empty link_url = false ->
  jira_to_markdown (T "[" ++ link_text ++ T "|" ++ link_url ++ T "]")
  = T "[" ++ link_text ++ T "](" ++ link_url ++ T ")".
Proof. intros Ht Hte Hu Hue. now apply wiki_link_to_md. Qed.

Lemma wiki_link_becomes_markdown_link_witness :
  jira_to_markdown (T "[the docs|https://example.com/a.html#top]")
  = T "[the docs](https://example.com/a.html#top)".
Proof.
  apply (@wiki_link_becomes_markdown_link (T "the docs")
           (T "https://example.com/a.html#top")); reflexivity.
Defined.

(** X28: a link survives the round trip from either side, when text and
    url are non-empty, on one line and free of the characters
    [* _ { ? + ^ ~ - !], backtick, [<], brackets, bar and [)]. *)
Theorem link_round_trip (link_text link_url : text) :
  lacks (either (either wiki_link_markup (one_of "`<)")) (just LF)) link_text = true ->
  is_empty link_text = false ->
  lacks (either (either wiki_link_markup (one_of "`<)")) (just LF)) link_url = true ->
  is_empty link_url = false ->
  markdown_to_jira (jira_to_markdown (wiki_link link_text link_url))
  = wiki_link link_text link_url
  /\ jira_to_markdown (markdown_to_jira (md_link link_text link_url))
     = md_link link_text link_url.
Proof.
  intros Ht Hte Hu Hue.
  assert (W : forall s,
            lacks (either (either wiki_link_markup (one_of "`<)")) (just LF)) s = true ->
            lacks (either wiki_link_markup (just LF)) s = true
            /\ lacks (either md_link_markup (either (just "]") (just LF))) s = true
            /\ lacks (either md_link_markup (either (just ")") (just LF))) s = true).
  { intros s Hs. repeat split; revert Hs; apply lacks_sub; vm_compute; reflexivity. }
  destruct (W _ Ht) as (Ht1 & Ht2 & _). destruct (W _ Hu) as (Hu1 & _ & Hu3).
  split.
  - rewrite wiki_link_to_md by assumption. now apply md_link_to_wiki.
  - rewrite md_link_to_wiki by assumption. now apply wiki_link_to_md.
Qed.

Lemma link_round_trip_witness :
  markdown_to_jira (jira_to_markdown
                      (wiki_link (T "the docs") (T "https://example.com/a.html#top")))
  = wiki_link (T "the docs") (T "https://example.com/a.html#top")
  /\ jira_to_markdown (markdown_to_jira
                         (md_link (T "the docs") (T "https://example.com/a.html#top")))
     = md_link (T "the docs") (T "https://example.com/a.html#top").
Proof.
  apply (@link_round_trip (T "the docs") (T "https://example.com/a.html#top"));
    reflexivity.
Defined.

(** ** The HTML mention resolver, run again *)

Lemma first_in_children name cs : forall i,
  match filter (fun pd => is_tag name (snd pd)) (children_from descendants i cs) with
  | pd :: _ => Some (snd pd)
  | [] => None
  end = first_in name cs.
Proof.
  induction cs as [ | c cs IH]; intros i; [reflexivity | ].
  cbn [children_from filter first_in snd].
  destruct (is_tag name c); [reflexivity | ].
  rewrite filter_app, filter_under by reflexivity.
  unfold find, find_all.
  destruct (filter (fun pd => is_tag name (snd pd)) (descendants c)) as [ | pd l].
  - cbn [map app]. apply IH.
  - reflexivity.
Qed.

Lemma find_first_in name nm at_ cs : find name (Elem nm at_ cs) = first_in name cs.
Proof. unfold find, find_all. cbn [descendants]. apply first_in_children. Qed.

Lemma is_tag_resolve name c : is_tag name (resolve c) = is_tag name c.
Proof. now destruct c. Qed.

Lemma account_resolve c : account_id_of (Some (resolve c)) = account_id_of (Some c).
Proof. now destruct c. Qed.

Lemma link_is_no_user c :
  is_tag (T "ac:link") c = true -> is_tag (T "ri:user") c = false.
Proof.
  destruct c as [s | nm at_ cs]; [reflexivity | ]. cbn [is_tag]. intros H.
  apply text_eqb_eq in H. now subst nm.
Qed.

(** the first user reference of a tree without an account id stays the
    first one, and a tree without user reference gets none *)
Lemma first_user_resolve n :
  (find (T "ri:user") n = None -> find (T "ri:user") (resolve n) = None)
  /\ (forall u, find (T "ri:user") n = Some u -> account_id_of (Some u) = None ->
        exists u', find (T "ri:user") (resolve n) = Some u'
                   /\ account_id_of (Some u') = None).
Proof.
  induction n as [s | nm at_ cs IH] using node_induction.
  - split; [reflexivity | discriminate].
  - rewrite resolve_Elem, !find_first_in.
    induction IH as [ | c cs [HA HB] _ IHcs]; [split; [reflexivity | discriminate] | ].
    cbn [map].
    assert (Hc : is_tag (T "ri:user") c = false ->
                 (first_in (T "ri:user") (c :: cs) = None ->
                  first_in (T "ri:user") (resolve c :: map resolve_child cs) = None)
                 /\ (forall u, first_in (T "ri:user") (c :: cs) = Some u ->
                       account_id_of (Some u) = None ->
                       exists u', first_in (T "ri:user") (resolve c :: map resolve_child cs)
                                  = Some u'
                                  /\ account_id_of (Some u') = None)).
    { intros EU. cbn [first_in]. rewrite is_tag_resolve, EU.
      destruct (find (T "ri:user") c) as [u0 | ] eqn:EF.
      - split; [discriminate | ]. intros u Hu Hno. injection Hu as <-.
        destruct (HB u0 eq_refl Hno) as [u' [E' Hn']]. rewrite E'. now exists u'.
      - rewrite (HA eq_refl). exact IHcs. }
    assert (Hr : (first_in (T "ri:user") (c :: cs) = None ->
                  first_in (T "ri:user") (resolve c :: map resolve_child cs) = None)
                 /\ (forall u, first_in (T "ri:user") (c :: cs) = Some u ->
                       account_id_of (Some u) = None ->
                       exists u', first_in (T "ri:user") (resolve c :: map resolve_child cs)
                                  = Some u'
                                  /\ account_id_of (Some u') = None)).
    { destruct (is_tag (T "ri:user") c) eqn:EU; [ | now apply Hc].
      cbn [first_in]. rewrite is_tag_resolve, EU.
      split; [discriminate | ]. intros u Hu Hno. injection Hu as <-.
      exists (resolve c). split; [reflexivity | now rewrite account_resolve]. }
    assert (Hrc : resolve_child c = resolve c
                  \/ is_tag (T "ac:link") c = true
                     /\ exists a, mention_account c = Some a).
    { unfold resolve_child. destruct (is_tag (T "ac:link") c); [ | now left].
      destruct (mention_account c) as [a | ]; [right | now left].
      split; [reflexivity | now exists a]. }
    destruct Hrc as [E | (EL & a & EM)]; [rewrite E; exact Hr | ].
    unfold mention_account in EM. cbn [first_in].
    rewrite (link_is_no_user c EL).
    destruct (find (T "ri:user") c) as [u0 | ]; [ | discriminate].
    split; [discriminate | ]. intros u Hu Hno. injection Hu as <-. congruence.
Qed.

Lemma mention_account_resolve c :
  mention_account c = None -> mention_account (resolve c) = None.
Proof.
  unfold mention_account. destruct (first_user_resolve c) as [HA HB].
  destruct (find (T "ri:user") c) as [u | ].
  - intros Hno. destruct (HB u eq_refl Hno) as [u' [E' Hn']]. now rewrite E'.
  - intros _. now rewrite (HA eq_refl).
Qed.

Lemma resolve_idempotent n : resolve (resolve n) = resolve n.
Proof.
  induction n as [s | nm at_ cs IH] using node_induction; [reflexivity | ].
  rewrite !resolve_Elem. f_equal. rewrite map_map.
  induction IH as [ | c cs Hc _ IHcs]; [reflexivity | ].
  cbn [map]. f_equal; [ | exact IHcs].
  destruct (is_tag (T "ac:link") c) eqn:EL;
    [destruct (mention_account c) as [a | ] eqn:EM | ].
  - assert (E : resolve_child c = Text (T "@user_" ++ a))
      by (unfold resolve_child; now rewrite EL, EM).
    rewrite E. reflexivity.
  - assert (E : resolve_child c = resolve c)
      by (unfold resolve_child; now rewrite EL, EM).
    rewrite E. unfold resolve_child.
    rewrite is_tag_resolve, EL, (mention_account_resolve c EM). exact Hc.
  - assert (E : resolve_child c = resolve c)
      by (unfold resolve_child; now rewrite EL).
    rewrite E. unfold resolve_child. rewrite is_tag_resolve, EL. exact Hc.
Qed.

Lemma resolver_returns soup w :
  _process_user_mentions_in_soup soup w = (Returns (resolve soup), w).
Proof.
  unfold _process_user_mentions_in_soup.
  rewrite mention_elements_loop_returns by apply find_all_paths.
  now rewrite fold_replaced_resolve.
Qed.

(** X29: the HTML mention resolver changes nothing when it is run on a
    tree it has returned: a link element it has kept has no account id
    to read after its content was rewritten either. *)
Theorem resolver_is_idempotent (soup : node) (w : world) :
  exists resolved,
    _process_user_mentions_in_soup soup w = (Returns resolved, w)
    /\ _process_user_mentions_in_soup resolved w = (Returns resolved, w).
Proof.
  exists (resolve soup). split; [apply resolver_returns | ].
  now rewrite resolver_returns, resolve_idempotent.
Qed.
